(** * Salt master channels: request/auth server, publish server, cluster relay

    A shallow embedding of [salt/channel/server.py] (classes
    [ReqServerChannel], [PubServerChannel], [MasterPubServerChannel]) and the
    properties of its authentication state machine, request dispatcher,
    presence tracking and cluster event relay.

    Conventions of the embedding:
    - values that arrive from the wire are dynamically typed Python values
      ([Py.PyVal]); dictionaries keep insertion order (association lists with
      unique keys);
    - methods that read or write [self] are functions in a state-and-exception
      monad: they take the object state and return an outcome ([Ok v] for
      [return v], [Raise e] for an exception that leaves the method) together
      with the state reached, because a Python exception does not undo the
      writes made before it;
    - collaborators that live outside this module (crypto primitives, the key
      cache driver, id validation, the payload handler) are fields of a record
      of functions that every definition takes as a parameter;
    - numbers are integers: clock readings and the [ts] of a load are counted
      in whole units;
    - log calls are left out. *)

From stdpp Require Import base option list strings gmap.
From Stdlib Require Import ZArith Ascii String.

Open Scope string_scope.
Open Scope Z_scope.
Set Warnings "-register-all,-clear-no-such-hyp".

(** ** Python values and the operators the module applies to them *)
Module Py.

Inductive PyVal : Type :=
| PNone
| PBool (b : bool)
| PInt (z : Z)
| PStr (s : string)
| PBytes (s : string)
| PList (l : list PyVal)
| PDict (d : list (string * PyVal)).

(** The exception classes the module raises, catches or lets through. *)
Inductive Exn : Type :=
| KeyError (k : string)
| TypeError
| AttributeError
| UnboundLocalError (v : string)
| ValueError
| OSError
| AuthenticationError
| SaltDeserializationError
| SaltValidationError
| UnsupportedAlgorithm
| InvalidKeyError
| OtherError (what : string).

Inductive Res (A : Type) : Type :=
| Ok (a : A)
| Raise (e : Exn).
Arguments Ok {A} a.
Arguments Raise {A} e.

(** *** Dictionaries with string keys, in insertion order *)
Fixpoint dict_get (k : string) (d : list (string * PyVal)) : option PyVal :=
  match d with
  | [] => None
  | (k', v) :: d' => if String.eqb k k' then Some v else dict_get k d'
  end.

Definition dict_has (k : string) (d : list (string * PyVal)) : bool :=
  match dict_get k d with Some _ => true | None => false end.

(** [d[k] = v]: an existing key keeps its position, a new key goes last. *)
Fixpoint dict_set (k : string) (v : PyVal) (d : list (string * PyVal))
  : list (string * PyVal) :=
  match d with
  | [] => [(k, v)]
  | (k', v') :: d' =>
      if String.eqb k k' then (k', v) :: d' else (k', v') :: dict_set k v d'
  end.

(** [d.pop(k, None)] is [(dict_get k d, dict_del k d)]. *)
Fixpoint dict_del (k : string) (d : list (string * PyVal))
  : list (string * PyVal) :=
  match d with
  | [] => []
  | (k', v') :: d' =>
      if String.eqb k k' then dict_del k d' else (k', v') :: dict_del k d'
  end.

(** *** Truthiness and [==] *)
Definition truthy (v : PyVal) : bool :=
  match v with
  | PNone => false
  | PBool b => b
  | PInt z => negb (z =? 0)
  | PStr s | PBytes s => negb (String.eqb s "")
  | PList l => match l with [] => false | _ => true end
  | PDict d => match d with [] => false | _ => true end
  end.

(** Python [==]: [True == 1], a [str] never equals a [bytes], lists compare
    position by position and dictionaries key by key whatever their order. *)
Fixpoint pyeq (a b : PyVal) {struct a} : bool :=
  match a, b with
  | PNone, PNone => true
  | PBool x, PBool y => Bool.eqb x y
  | PBool x, PInt y => (if x then 1 else 0) =? y
  | PInt x, PBool y => x =? (if y then 1 else 0)
  | PInt x, PInt y => x =? y
  | PStr x, PStr y => String.eqb x y
  | PBytes x, PBytes y => String.eqb x y
  | PList l, PList m =>
      (fix go (l m : list PyVal) : bool :=
         match l, m with
         | [], [] => true
         | x :: l', y :: m' => pyeq x y && go l' m'
         | _, _ => false
         end) l m
  | PDict d, PDict e =>
      (List.length d =? List.length e)%nat &&
      (fix all (d : list (string * PyVal)) : bool :=
         match d with
         | [] => true
         | (k, v) :: d' =>
             match dict_get k e with
             | Some w => pyeq v w && all d'
             | None => false
             end
         end) d
  | _, _ => false
  end.

(** [x in lst] for a list: some element is [==] to [x]. *)
Definition list_contains (x : PyVal) (l : list PyVal) : bool :=
  existsb (pyeq x) l.

(** *** Strings *)
Fixpoint str_prefix (p s : string) : bool :=
  match p, s with
  | EmptyString, _ => true
  | String a p', String b s' => Ascii.eqb a b && str_prefix p' s'
  | String _ _, EmptyString => false
  end.

(** [needle in s] for two strings. *)
Fixpoint str_contains (needle s : string) : bool :=
  str_prefix needle s ||
  match s with
  | EmptyString => false
  | String _ s' => str_contains needle s'
  end.

Definition NUL : string := String "000"%char EmptyString.

(** A [str] is a sequence of code points below 256.  The characters
    [str.strip()] removes among them: TAB, LF, VT, FF, CR, FS, GS, RS, US,
    SPACE, NEL (U+0085) and NBSP (U+00A0); [bytes.strip()] removes TAB, LF, VT,
    FF, CR and SPACE. *)
Definition is_space (c : ascii) : bool :=
  let n := nat_of_ascii c in
  ((9 <=? n) && (n <=? 13) || (28 <=? n) && (n <=? 32)
   || (n =? 133) || (n =? 160))%nat.

Definition is_space_bytes (c : ascii) : bool :=
  let n := nat_of_ascii c in
  ((9 <=? n) && (n <=? 13) || (n =? 32))%nat.

Fixpoint lstrip_with (space : ascii -> bool) (s : string) : string :=
  match s with
  | EmptyString => EmptyString
  | String c s' => if space c then lstrip_with space s' else s
  end.

Fixpoint rstrip_with (space : ascii -> bool) (s : string) : string :=
  match s with
  | EmptyString => EmptyString
  | String c s' =>
      match rstrip_with space s' with
      | EmptyString => if space c then EmptyString else String c EmptyString
      | r => String c r
      end
  end.

Definition strip (s : string) : string :=
  rstrip_with is_space (lstrip_with is_space s).

Definition strip_bytes (s : string) : string :=
  rstrip_with is_space_bytes (lstrip_with is_space_bytes s).

(** [s.replace(old, new)] for a non-empty [old]: matches are taken left to
    right and do not overlap.  [skip] counts the characters of a match that
    are still to be passed over. *)
Fixpoint replace_go (old new s : string) (skip : nat) : string :=
  match s with
  | EmptyString => EmptyString
  | String c s' =>
      match skip with
      | S n => replace_go old new s' n
      | O =>
          if str_prefix old s
          then new ++ replace_go old new s' (String.length old - 1)
          else String c (replace_go old new s' O)
      end
  end.

Definition replace (old new s : string) : string :=
  match old with
  | EmptyString => s
  | _ => replace_go old new s O
  end.

(** [s.split(sep)[0]] for a one-character separator: the text before the
    first [sep], or all of [s]. *)
Fixpoint split_head (sep : ascii) (s : string) : string :=
  match s with
  | EmptyString => EmptyString
  | String c s' => if Ascii.eqb c sep then EmptyString
                   else String c (split_head sep s')
  end.

(** *** Subscripting, [.get], [in] on a dynamically typed value *)
Definition subscript (v : PyVal) (k : string) : Res PyVal :=
  match v with
  | PDict d => match dict_get k d with Some x => Ok x | None => Raise (KeyError k) end
  | _ => Raise TypeError
  end.

(** [v.get(k, dflt)] *)
Definition get_default (v : PyVal) (k : string) (dflt : PyVal) : Res PyVal :=
  match v with
  | PDict d => Ok (default dflt (dict_get k d))
  | _ => Raise AttributeError
  end.

(** [needle in v] where [needle] is a [str] literal. *)
Definition str_in (needle : string) (v : PyVal) : Res bool :=
  match v with
  | PStr s => Ok (str_contains needle s)
  | PList l => Ok (list_contains (PStr needle) l)
  | PDict d => Ok (dict_has needle d)
  | PNone | PBool _ | PInt _ | PBytes _ => Raise TypeError
  end.

(** [v.strip()] *)
Definition py_strip (v : PyVal) : Res PyVal :=
  match v with
  | PStr s => Ok (PStr (strip s))
  | PBytes s => Ok (PBytes (strip_bytes s))
  | _ => Raise AttributeError
  end.

Definition is_dict (v : PyVal) : bool :=
  match v with PDict _ => true | _ => false end.

Definition is_none (v : PyVal) : bool :=
  match v with PNone => true | _ => false end.

(** [d[k] = v] on a dynamically typed container. *)
Definition setitem (v : PyVal) (k : string) (x : PyVal) : Res PyVal :=
  match v with
  | PDict d => Ok (PDict (dict_set k x d))
  | _ => Raise TypeError
  end.

(** [v.pop(k, dflt)]: the value taken out and the container left. *)
Definition pop_default (v : PyVal) (k : string) (dflt : PyVal) : Res (PyVal * PyVal) :=
  match v with
  | PDict d => Ok (default dflt (dict_get k d), PDict (dict_del k d))
  | _ => Raise AttributeError
  end.

(** [x in v] *)
Definition py_in (x v : PyVal) : Res bool :=
  match v with
  | PList l => Ok (list_contains x l)
  | PDict d => match x with PStr k => Ok (dict_has k d) | _ => Ok false end
  | PStr s => match x with PStr n => Ok (str_contains n s) | _ => Raise TypeError end
  | PBytes _ | PNone | PBool _ | PInt _ => Raise TypeError
  end.

(** [lst.append(x)] *)
Definition py_append (v x : PyVal) : Res PyVal :=
  match v with
  | PList l => Ok (PList (l ++ [x])%list)
  | _ => Raise AttributeError
  end.

(** [len(v)] *)
Definition py_len (v : PyVal) : Res Z :=
  match v with
  | PList l => Ok (Z.of_nat (List.length l))
  | PDict d => Ok (Z.of_nat (List.length d))
  | PStr s | PBytes s => Ok (Z.of_nat (String.length s))
  | _ => Raise TypeError
  end.

(** The value an integer-like operand stands for in arithmetic and ordering
    ([bool] is a subclass of [int]); other operands make [-], [<], [>] raise
    [TypeError]. *)
Definition as_int (v : PyVal) : Res Z :=
  match v with
  | PInt z => Ok z
  | PBool b => Ok (if b then 1 else 0)
  | _ => Raise TypeError
  end.

(** [v > n] and [v < n] for an integer literal [n]. *)
Definition py_gt (v : PyVal) (n : Z) : Res bool :=
  match as_int v with Ok z => Ok (n <? z) | Raise e => Raise e end.

Definition py_lt (v : PyVal) (n : Z) : Res bool :=
  match as_int v with Ok z => Ok (z <? n) | Raise e => Raise e end.

(** *** Control flow of a method body

    A step of a method body either goes on with a value ([Next]), leaves the
    method with [return v] ([Return]), or raises ([Throw]).  The state reached
    is kept in all three cases. *)
Inductive Flow (R A : Type) : Type :=
| Next (a : A)
| Return (r : R)
| Throw (e : Exn).
Arguments Next {R A} a.
Arguments Return {R A} r.
Arguments Throw {R A} e.

Definition M (S R A : Type) : Type := S -> Flow R A * S.

Definition next {S R A} (a : A) : M S R A := fun s => (Next a, s).

Definition bind {S R A B} (m : M S R A) (f : A -> M S R B) : M S R B :=
  fun s =>
    match m s with
    | (Next a, s') => f a s'
    | (Return r, s') => (Return r, s')
    | (Throw e, s') => (Throw e, s')
    end.

Declare Scope py_scope.
Delimit Scope py_scope with py.
Notation "x ← y ; z" := (bind y (fun x => z))
  (at level 20, y at level 100, z at level 200, only parsing) : py_scope.
Notation "' x ← y ; z" := (bind y (fun x => z))
  (at level 20, x pattern, y at level 100, z at level 200, only parsing) : py_scope.
Notation "x ;; z" := (bind x (fun _ => z))
  (at level 100, z at level 200, only parsing, right associativity) : py_scope.

Definition return_ {S R A} (r : R) : M S R A := fun s => (Return r, s).
Definition throw {S R A} (e : Exn) : M S R A := fun s => (Throw e, s).

(** The outcome of a pure collaborator or operator, inside a body. *)
Definition lift {S R A} (r : Res A) : M S R A :=
  fun s => match r with Ok a => (Next a, s) | Raise e => (Throw e, s) end.

(** [if c: body] *)
Definition when {S R} (c : bool) (body : M S R unit) : M S R unit :=
  if c then body else next tt.

Definition gets {S R A} (f : S -> A) : M S R A := fun s => (Next (f s), s).
Definition modify {S R} (f : S -> S) : M S R unit := fun s => (Next tt, f s).

(** A whole method: [Return r] and falling off the end both hand a value to
    the caller. *)
Definition method {S R} (body : M S R R) (s : S) : Res R * S :=
  match body s with
  | (Next r, s') | (Return r, s') => (Ok r, s')
  | (Throw e, s') => (Raise e, s')
  end.

(** A call of a method from inside another body. *)
Definition call {S R A} (f : S -> Res A * S) : M S R A :=
  fun s => match f s with
           | (Ok a, s') => (Next a, s')
           | (Raise e, s') => (Throw e, s')
           end.

(** [try: body except ...: handler]: [handler e] is [Some h] when one of the
    [except] clauses matches [e]. *)
Definition try_except {S R A} (body : M S R A) (handler : Exn -> option (M S R A))
  : M S R A :=
  fun s =>
    match body s with
    | (Throw e, s') =>
        match handler e with
        | Some h => h s'
        | None => (Throw e, s')
        end
    | r => r
    end.

(** [except Exception] *)
Definition any_exception {S R A} (h : M S R A) : Exn -> option (M S R A) :=
  fun _ => Some h.

End Py.
Export Py.
Open Scope py_scope.

(** ** PubServerChannel: presence tracking *)
Module PubServerChannel.

(** A subscriber connection as the callbacks see it: the identity of the
    Python object ([handle], what the set of clients hashes and compares) and
    its [id_] attribute at the time of the call ([None] until the minion has
    identified itself). *)
Record Subscriber : Type := { handle : nat; id_ : option string }.

(** Events fired on the event bus.  [PresencePresent] carries the keys of
    [self.present]; the embedding keeps them as a set. *)
Inductive Event : Type :=
| PresenceChange (new lost : list (option string))
| PresencePresent (ids : gset (option string)).

(** [self.present] and the events fired so far. *)
Record State : Type := {
  present : gmap (option string) (gset nat);
  events : list Event
}.

(** The state [__init__] builds: [self.present = {}]. *)
Definition init : State := {| present := ∅; events := [] |}.

Section Presence.
(** [self.presence_events] *)
Variable presence_events : bool.
(** [Crypticle(self.opts, self.aes_key).loads] *)
Variable crypticle_loads : PyVal -> Res PyVal.
(** [salt.transport.frame.decode_embedded_strs] *)
Variable decode_embedded_strs : PyVal -> PyVal.
(** [self.aes_funcs.verify_minion], on an identity that is a string *)
Variable verify_minion : string -> PyVal -> bool.

Definition fire (evs : list Event) (st : State) : State :=
  {| present := present st;
     events := events st ++ (if presence_events then evs else []) |}.

Definition _add_client_present (client : Subscriber) (st : State) : State :=
  let i := id_ client in
  match present st !! i with
  | Some clients =>
      {| present := <[i := clients ∪ {[handle client]}]> (present st);
         events := events st |}
  | None =>
      let present' := <[i := {[handle client]}]> (present st) in
      fire [PresenceChange [i] []; PresencePresent (dom present')]
           {| present := present'; events := events st |}
  end.

Definition _remove_client_present (client : Subscriber) (st : State) : State :=
  let i := id_ client in
  match i with
  | None => st
  | Some _ =>
      match present st !! i with
      | None => st
      | Some clients =>
          if decide (handle client ∈ clients) then
            let clients' := clients ∖ {[handle client]} in
            if (size clients' =? 0)%nat then
              let present' := delete i (present st) in
              fire [PresenceChange [] [i]; PresencePresent (dom present')]
                   {| present := present'; events := events st |}
            else
              {| present := <[i := clients']> (present st);
                 events := events st |}
          else st
      end
  end.

(** [presence_callback] returns the subscriber as it leaves it (its [id_]
    may have been set).  A decoded [id] that is not a string is refused, as
    [verify_minion] starts by validating the id. *)
Definition presence_callback (subscriber : Subscriber) (msg : PyVal)
           (st : State) : Res (Subscriber * State) :=
  match subscript msg "enc" with
  | Raise e => Raise e
  | Ok enc =>
      if negb (pyeq enc (PStr "aes")) then Ok (subscriber, st) else
      match subscript msg "load" with
      | Raise e => Raise e
      | Ok ct =>
          match crypticle_loads ct with
          | Raise e => Raise e
          | Ok load0 =>
              let load := decode_embedded_strs load0 in
              match subscript load "id", subscript load "tok" with
              | Raise e, _ => Raise e
              | _, Raise e => Raise e
              | Ok (PStr i), Ok tok =>
                  if negb (verify_minion i tok) then Ok (subscriber, st) else
                  let subscriber' := {| handle := handle subscriber; id_ := Some i |} in
                  Ok (subscriber', _add_client_present subscriber' st)
              | Ok _, Ok _ => Ok (subscriber, st)
              end
          end
      end
  end.

Definition remove_presence_callback (subscriber : Subscriber) (st : State)
  : State := _remove_client_present subscriber st.

(** The callbacks the transport makes, in the order it makes them. *)
Inductive Callback : Type :=
| Add (client : Subscriber)
| Remove (client : Subscriber).

Definition step (st : State) (c : Callback) : State :=
  match c with
  | Add client => _add_client_present client st
  | Remove client => _remove_client_present client st
  end.

Definition run (cs : list Callback) (st : State) : State := fold_left step cs st.

(** The handles recorded under an identity. *)
Definition handles (st : State) (i : option string) : gset nat :=
  default ∅ (present st !! i).

End Presence.

(** No identity is kept with an empty set of handles. *)
Definition no_empty_entry (st : State) : Prop :=
  ∀ i clients, present st !! i = Some clients → clients ≠ ∅.


(** *** Pickling: [__init__], [__getstate__], [__setstate__] and [close]

    An instance is its attribute dictionary, together with the calls made on
    the objects it holds ([transport.close()], [event.destroy()],
    [aes_funcs.destroy()]), in order. *)
Module Pickling.

Record Instance : Type := {
  attrs : gmap string PyVal;
  calls : list string
}.

(** What [cls.__new__(cls)] gives before [__setstate__] runs. *)
Definition blank : Instance := {| attrs := ∅; calls := [] |}.

(** [self.<name>] and [self.<name> = v] *)
Definition getattr {R} (name : string) : M Instance R PyVal :=
  fun self =>
    match attrs self !! name with
    | Some v => (Next v, self)
    | None => (Throw AttributeError, self)
    end.

Definition setattr {R} (name : string) (v : PyVal) : M Instance R unit :=
  modify (fun self => {| attrs := <[name := v]> (attrs self); calls := calls self |}).

Definition called {R} (what : string) : M Instance R unit :=
  modify (fun self => {| attrs := attrs self; calls := (calls self ++ [what])%list |}).

Section Methods.
(** [salt.utils.event.get_event("master", opts=.., listen=False)],
    [salt.utils.minions.CkMinions(opts)], [salt.master.AESFuncs(opts)] and
    [salt.crypt.MasterKeys(opts)]: the objects they build, none of them
    [None]. *)
Variable get_event : PyVal -> PyVal.
Variable CkMinions : PyVal -> PyVal.
Variable AESFuncs : PyVal -> PyVal.
Variable MasterKeys : PyVal -> PyVal.

Definition __init__ (opts transport : PyVal) (presence_events : bool)
  : Instance -> Res PyVal * Instance :=
  method (
    setattr "opts" opts;;
    o ← getattr "opts";
    setattr "ckminions" (CkMinions o);;
    setattr "transport" transport;;
    o ← getattr "opts";
    setattr "aes_funcs" (AESFuncs o);;
    setattr "present" (PDict []);;
    setattr "presence_events" (PBool presence_events);;
    o ← getattr "opts";
    setattr "event" (get_event o);;
    next PNone).

Definition __getstate__ : Instance -> Res PyVal * Instance :=
  method (
    o ← getattr "opts";
    t ← getattr "transport";
    p ← getattr "presence_events";
    return_ (PDict [("opts", o); ("transport", t); ("presence_events", p)])).

Definition __setstate__ (state : PyVal) : Instance -> Res PyVal * Instance :=
  method (
    v ← lift (subscript state "opts");
    setattr "opts" v;;
    v ← lift (subscript state "presence_events");
    setattr "state" v;;
    v ← lift (subscript state "transport");
    setattr "transport" v;;
    o ← getattr "opts";
    setattr "event" (get_event o);;
    o ← getattr "opts";
    setattr "ckminions" (CkMinions o);;
    setattr "present" (PDict []);;
    o ← getattr "opts";
    setattr "master_key" (MasterKeys o);;
    next PNone).

(** The transport is taken to be an object with a [close] method. *)
Definition close : Instance -> Res PyVal * Instance :=
  method (
    _ ← getattr "transport";
    called "transport.close";;
    ev ← getattr "event";
    when (negb (is_none ev))
         (_ ← getattr "event"; called "event.destroy";; setattr "event" PNone);;
    af ← getattr "aes_funcs";
    when (negb (is_none af))
         (_ ← getattr "aes_funcs"; called "aes_funcs.destroy";;
          setattr "aes_funcs" PNone);;
    next PNone).

End Methods.
End Pickling.

(** *** Publishing: [wrap_payload] and [publish_payload] *)
Module Publishing.

(** Collaborators of the two methods.  [crypticle_dumps] takes the random
    draw as a [nat], [get_serial] the number of serials handed out before. *)
Record Env : Type := {
  (** truth value of [self.opts.get("cluster_id", None)] *)
  cluster_id : bool;
  (** the property [self.aes_key] *)
  aes_key : PyVal;
  (** [salt.master.SMaster.get_serial()] *)
  get_serial : nat -> PyVal;
  (** [salt.crypt.Crypticle(self.opts, key).dumps(obj)] *)
  crypticle_dumps : PyVal -> nat -> PyVal -> Res PyVal;
  (** truth value of [self.opts["sign_pub_messages"]],
      [self.opts["publish_signing_algorithm"]] *)
  sign_pub_messages : bool;
  publish_signing_algorithm : PyVal;
  (** [self.master_key.sign(data, algorithm)] *)
  master_key_sign : PyVal -> PyVal -> Res PyVal;
  (** [salt.payload.dumps] and [salt.payload.loads] *)
  payload_dumps : PyVal -> PyVal;
  payload_loads : PyVal -> Res PyVal;
  (** [self.transport.topic_support()] *)
  topic_support : bool;
  (** [self.ckminions.check_minions(tgt, tgt_type=..)] *)
  check_minions : PyVal -> PyVal -> Res PyVal;
  (** what [await self.transport.publish_payload(payload[, topic_list])]
      gives *)
  transport_publish_payload : PyVal -> option PyVal -> Res PyVal
}.

(** The serials handed out, the random draws made, and what was handed to
    the transport, in order. *)
Record State : Type := {
  serials : nat;
  entropy : nat;
  sent : list (PyVal * option PyVal)
}.

Definition next_serial {R} : M State R nat :=
  fun st => (Next (serials st),
             {| serials := S (serials st); entropy := entropy st; sent := sent st |}).

Definition fresh {R} : M State R nat :=
  fun st => (Next (entropy st),
             {| serials := serials st; entropy := S (entropy st); sent := sent st |}).

Definition add_sent (payload : PyVal) (topics : option PyVal) (st : State) : State :=
  {| serials := serials st; entropy := entropy st;
     sent := (sent st ++ [(payload, topics)])%list |}.

Definition is_str (v : PyVal) : bool :=
  match v with PStr _ => true | _ => false end.

Section Methods.
Variable E : Env.

Definition match_targets : list PyVal := [PStr "pcre"; PStr "glob"; PStr "list"].

Definition wrap_payload_body (load : PyVal) : M State PyVal PyVal :=
  let payload := [("enc", PStr "aes")] in
  load ← (if negb (cluster_id E) then
            n ← next_serial;
            lift (setitem load "serial" (get_serial E n))
          else next load);
  n ← fresh;
  c ← lift (crypticle_dumps E (aes_key E) n load);
  let payload := dict_set "load" c payload in
  payload ← (if sign_pub_messages E then
               let payload :=
                 dict_set "sig_algo" (publish_signing_algorithm E) payload in
               c ← lift (subscript (PDict payload) "load");
               sig ← lift (master_key_sign E c (publish_signing_algorithm E));
               next (dict_set "sig" sig payload)
             else next payload);
  let int_payload := [("payload", payload_dumps E (PDict payload))] in
  targeted ← (if topic_support E then
                tgt_type ← lift (subscript load "tgt_type");
                next (list_contains tgt_type match_targets)
              else next false);
  if targeted then
    tgt_type ← lift (subscript load "tgt_type");
    int_payload ← (if pyeq tgt_type (PStr "list") then
                     tgt ← lift (subscript load "tgt");
                     next (dict_set "topic_lst" tgt int_payload)
                   else next int_payload);
    tgt ← lift (subscript load "tgt");
    if is_str tgt then
      tgt ← lift (subscript load "tgt");
      tgt_type ← lift (subscript load "tgt_type");
      res ← lift (check_minions E tgt tgt_type);
      match_ids ← lift (subscript res "minions");
      return_ (PDict (dict_set "topic_lst" match_ids int_payload))
    else
      tgt ← lift (subscript load "tgt");
      return_ (PDict (dict_set "topic_lst" tgt int_payload))
  else return_ (PDict int_payload).

Definition wrap_payload (load : PyVal) : State -> Res PyVal * State :=
  method (wrap_payload_body load).

(** The [except KeyError] clause around the second [loads] logs and raises
    again, so it does not show in the outcome. *)
Definition publish_payload_body (load : PyVal) : M State PyVal PyVal :=
  load ← lift (payload_loads E load);
  unpacked_package ← call (wrap_payload load);
  p ← lift (subscript unpacked_package "payload");
  payload ← lift (payload_loads E p);
  let payload := payload_dumps E payload in
  has_topics ← lift (py_in (PStr "topic_lst") unpacked_package);
  if has_topics then
    topic_list ← lift (subscript unpacked_package "topic_lst");
    ret ← lift (transport_publish_payload E payload (Some topic_list));
    modify (add_sent payload (Some topic_list));;
    return_ ret
  else
    ret ← lift (transport_publish_payload E payload None);
    modify (add_sent payload None);;
    return_ ret.

Definition publish_payload (load : PyVal) : State -> Res PyVal * State :=
  method (publish_payload_body load).

(** The envelope [wrap_payload] serializes for the ciphertext [c]:
    [{"enc": "aes", "load": c}], with [sig_algo] and [sig] when signing. *)
Definition envelope (c : PyVal) (sig : option PyVal) : PyVal :=
  PDict ([("enc", PStr "aes"); ("load", c)]
         ++ match sig with
            | Some s => [("sig_algo", publish_signing_algorithm E); ("sig", s)]
            | None => []
            end)%list.

(** The load [wrap_payload] encrypts: the load received, with a serial
    unless the master is clustered. *)
Definition stamped (l : list (string * PyVal)) (st : State)
  : list (string * PyVal) :=
  if cluster_id E then l else dict_set "serial" (get_serial E (serials st)) l.

(** The state once the envelope is built. *)
Definition wrapped (st : State) : State :=
  {| serials := if cluster_id E then serials st else S (serials st);
     entropy := S (entropy st);
     sent := sent st |}.

End Methods.
End Publishing.

End PubServerChannel.

(** ** MasterPubServerChannel: relay of events between cluster peers *)
Module MasterPubServerChannel.

(** Collaborators of [handle_pool_publish]. *)
Record Env : Type := {
  (** [self.opts["id"]] *)
  opts_id : string;
  (** [salt.utils.event.SaltEvent.unpack] *)
  unpack : PyVal -> Res (string * PyVal);
  (** [self.master_key.master_key.decrypt(aes, algorithm="OAEP-SHA224")] *)
  master_key_decrypt : PyVal -> Res PyVal;
  (** [to_bytes(hashlib.sha256(x).hexdigest())] *)
  sha256_hexdigest : PyVal -> Res PyVal;
  (** [self.master_key.fetch("peers/<peer>.pub")], [PNone] when absent *)
  master_key_fetch : string -> PyVal;
  (** [key.decrypt(sig)] for a key object *)
  key_decrypt : PyVal -> PyVal -> Res PyVal;
  (** [salt.crypt.Crypticle(self.opts, key).loads(data)] *)
  crypticle_loads : PyVal -> PyVal -> Res PyVal;
  (** whether [self.transport.publish_payload] accepts the packed event *)
  transport_publish_payload : string -> PyVal -> Res unit;
  (** [self.send_aes_key_event()] *)
  send_aes_key_event : Res unit
}.

(** [self.peer_keys], [self.auth_errors] (one deque per configured peer), the
    events handed to the local transport as [SaltEvent.pack(tag, data)], in
    order, and the number of key events sent. *)
Record State : Type := {
  peer_keys : gmap string PyVal;
  auth_errors : gmap string (list (string * PyVal));
  published : list (string * PyVal);
  key_events : nat
}.

Definition set_peer_key (peer : string) (k : PyVal) (st : State) : State :=
  {| peer_keys := <[peer := k]> (peer_keys st);
     auth_errors := auth_errors st;
     published := published st;
     key_events := key_events st |}.

Definition set_queue (peer : string) (q : list (string * PyVal)) (st : State) : State :=
  {| peer_keys := peer_keys st;
     auth_errors := <[peer := q]> (auth_errors st);
     published := published st;
     key_events := key_events st |}.

Definition add_published (tag : string) (data : PyVal) (st : State) : State :=
  {| peer_keys := peer_keys st;
     auth_errors := auth_errors st;
     published := (published st ++ [(tag, data)])%list;
     key_events := key_events st |}.

Definition count_key_event (st : State) : State :=
  {| peer_keys := peer_keys st;
     auth_errors := auth_errors st;
     published := published st;
     key_events := S (key_events st) |}.

Definition parse_cluster_tag (tag : string) : string * string :=
  let peer_id := split_head "/"%char (replace "cluster/event/" "" tag) in
  let stripped_tag := replace ("cluster/event/" ++ peer_id ++ "/") "" tag in
  (peer_id, stripped_tag).

Section Relay.
Variable E : Env.

Definition extract_cluster_event (peer_id : string) (data : PyVal)
  : M State PyVal PyVal :=
  keys ← gets peer_keys;
  match keys !! peer_id with
  | Some k =>
      loaded ← lift (crypticle_loads E k data);
      event_data ← lift (subscript loaded "event_payload");
      event_data ← lift (setitem event_data "__peer_id" (PStr peer_id));
      return_ event_data
  | None => throw AuthenticationError
  end.

(** [await self.transport.publish_payload(SaltEvent.pack(tag, data))] *)
Definition publish_payload (tag : string) (data : PyVal) : M State PyVal unit :=
  lift (transport_publish_payload E tag data);;
  modify (add_published tag data).

(** [try: event_data = self.extract_cluster_event(peer_id, data)] with its
    [except AuthenticationError] clause: [None] when the clause is taken. *)
Definition try_extract (peer_id : string) (data : PyVal)
  : M State PyVal (option PyVal) :=
  try_except
    (event_data ← call (method (extract_cluster_event peer_id data));
     next (Some event_data))
    (fun e => match e with
              | AuthenticationError => Some (next None)
              | _ => None
              end).

(** The loop [while self.auth_errors[peer]: ...] of the key-exchange
    branch, unrolled over the queue it finds; [tag] is the tag of the
    message being handled.  Each turn pops the oldest entry, parses [tag],
    and publishes the event unless extraction fails authentication. *)
Fixpoint drain (tag peer : string) (queue : list (string * PyVal))
  : M State PyVal unit :=
  match queue with
  | [] => next tt
  | (key, data) :: rest =>
      modify (set_queue peer rest);;
      let '(peer_id, parsed_tag) := parse_cluster_tag tag in
      r ← try_extract peer_id data;
      match r with
      | Some event_data => publish_payload parsed_tag event_data
      | None => next tt
      end;;
      drain tag peer rest
  end.

(** [self.peer_keys[peer] = key_str], [self.send_aes_key_event()] and the
    loop that empties [self.auth_errors[peer]]. *)
Definition install_key (tag peer : string) (key_str : PyVal)
  : M State PyVal unit :=
  modify (set_peer_key peer key_str);;
  lift (send_aes_key_event E);;
  modify count_key_event;;
  queues ← gets auth_errors;
  match queues !! peer with
  | None => throw (KeyError peer)
  | Some queue => drain tag peer queue
  end.

(** Peers are named by strings (the entries of [opts["cluster_peers"]] key
    [self.auth_errors] and the files [peers/<peer>.pub]); a [peer_id] of
    another type is refused. *)
Definition handle_pool_publish_body (payload : PyVal) : M State PyVal PyVal :=
  '(tag, data) ← lift (unpack E payload);
  if str_prefix "cluster/peer" tag then
    peer_v ← lift (subscript data "peer_id");
    peers ← lift (subscript data "peers");
    mine ← lift (subscript peers (opts_id E));
    aes ← lift (subscript mine "aes");
    mine ← lift (subscript peers (opts_id E));
    sig ← lift (subscript mine "sig");
    key_str ← lift (master_key_decrypt E aes);
    digest ← lift (sha256_hexdigest E key_str);
    match peer_v with
    | PStr peer =>
        let key := master_key_fetch E peer in
        m_digest ← lift (match key with
                         | PNone => Raise AttributeError
                         | _ => key_decrypt E key sig
                         end);
        if negb (pyeq m_digest digest) then return_ PNone else
        keys ← gets peer_keys;
        match keys !! peer with
        | Some old =>
            if negb (pyeq old key_str)
            then install_key tag peer key_str;; next PNone
            else next PNone
        | None => install_key tag peer key_str;; next PNone
        end
    | _ => throw TypeError
    end
  else if str_prefix "cluster/event" tag then
    let '(peer_id, parsed_tag) := parse_cluster_tag tag in
    r ← try_extract peer_id data;
    match r with
    | None =>
        queues ← gets auth_errors;
        match queues !! peer_id with
        | None => throw (KeyError peer_id)
        | Some queue => modify (set_queue peer_id (queue ++ [(tag, data)])%list);; next PNone
        end
    | Some event_data => publish_payload parsed_tag event_data;; next PNone
    end
  else next PNone.

(** The whole body sits in [try: ... except Exception: return None]. *)
Definition handle_pool_publish (payload : PyVal) (st : State) : Res PyVal * State :=
  method (try_except (handle_pool_publish_body payload)
                     (any_exception (return_ PNone))) st.

End Relay.

(** *** Vocabulary for the properties of the relay *)
Section Readings.
Variable E : Env.

(** [payload] is a key-exchange message in which peer [peer] hands this
    master the key [key_str], and the signature that comes with it, decrypted
    with the key on file for [peer], is the digest of [key_str]. *)
Definition verified_exchange (payload : PyVal) (peer : string) (key_str : PyVal)
  : Prop :=
  ∃ tag data peers mine aes sig digest m_digest,
    unpack E payload = Ok (tag, data)
    ∧ str_prefix "cluster/peer" tag = true
    ∧ subscript data "peer_id" = Ok (PStr peer)
    ∧ subscript data "peers" = Ok peers
    ∧ subscript peers (opts_id E) = Ok mine
    ∧ subscript mine "aes" = Ok aes
    ∧ subscript mine "sig" = Ok sig
    ∧ master_key_decrypt E aes = Ok key_str
    ∧ sha256_hexdigest E key_str = Ok digest
    ∧ master_key_fetch E peer ≠ PNone
    ∧ key_decrypt E (master_key_fetch E peer) sig = Ok m_digest
    ∧ pyeq m_digest digest = true.

(** The same message, but the signature does not give the digest of the
    key. *)
Definition forged_exchange (payload : PyVal) : Prop :=
  ∃ tag data peer peers mine aes sig key_str digest m_digest,
    unpack E payload = Ok (tag, data)
    ∧ str_prefix "cluster/peer" tag = true
    ∧ subscript data "peer_id" = Ok (PStr peer)
    ∧ subscript data "peers" = Ok peers
    ∧ subscript peers (opts_id E) = Ok mine
    ∧ subscript mine "aes" = Ok aes
    ∧ subscript mine "sig" = Ok sig
    ∧ master_key_decrypt E aes = Ok key_str
    ∧ sha256_hexdigest E key_str = Ok digest
    ∧ master_key_fetch E peer ≠ PNone
    ∧ key_decrypt E (master_key_fetch E peer) sig = Ok m_digest
    ∧ pyeq m_digest digest = false.

End Readings.

(** *** The sending side: [send_aes_key_event] and [publish_payload] *)
Module Publisher.

(** Collaborators of the two methods.  Functions that draw random bytes
    take the draw as a [nat]. *)
Record Env : Type := {
  (** [self.opts["id"]] and [self.opts.get("cluster_peers", [])] *)
  opts_id : string;
  cluster_peers : list string;
  (** [self.master_key.fetch("peers/<peer>.pub")], [None] when absent *)
  master_key_fetch : string -> PyVal;
  (** [salt.master.SMaster.secrets["aes"]["secret"].value] *)
  secret : PyVal;
  (** [to_bytes(hashlib.sha256(x).hexdigest())] *)
  sha256_hexdigest : PyVal -> Res PyVal;
  (** [pub.encrypt(aes, algorithm="OAEP-SHA224")] for a key object *)
  pub_encrypt : PyVal -> nat -> PyVal -> Res PyVal;
  (** [self.master_key.master_key.encrypt(digest)] *)
  master_key_encrypt : PyVal -> Res PyVal;
  (** [salt.utils.event.tagify(suffix, prefix, base)] *)
  tagify : string -> string -> string -> string;
  (** [event.fire_event(data, tag, timeout=30000)]: whether it succeeded *)
  fire_event : PyVal -> string -> Res bool;
  (** [salt.utils.event.SaltEvent.unpack] and [.pack] *)
  unpack : PyVal -> Res (string * PyVal);
  pack : string -> PyVal -> PyVal;
  (** [salt.crypt.Crypticle(self.opts, key).dumps(obj)] *)
  crypticle_dumps : PyVal -> nat -> PyVal -> Res PyVal;
  (** [pusher.pull_host] for each of [self.pushers], in order *)
  pushers : list string
}.

(** Where a task sends its payload: the local bus
    ([self.transport.publish_payload]) or the pusher to a peer
    ([pusher.publish]). *)
Inductive Dest : Type :=
| Local
| Pusher (host : string).

(** The random draws made, the events that reached the master bus, and the
    tasks created, in order. *)
Record State : Type := {
  entropy : nat;
  fired : list (string * PyVal);
  tasks : list (Dest * PyVal)
}.

Definition fresh {R} : M State R nat :=
  fun st => (Next (entropy st),
             {| entropy := S (entropy st); fired := fired st; tasks := tasks st |}).

Definition add_fired (tag : string) (data : PyVal) (st : State) : State :=
  {| entropy := entropy st; fired := (fired st ++ [(tag, data)])%list;
     tasks := tasks st |}.

Definition add_task (dest : Dest) (payload : PyVal) (st : State) : State :=
  {| entropy := entropy st; fired := fired st;
     tasks := (tasks st ++ [(dest, payload)])%list |}.

Section Methods.
Variable E : Env.

(** The loop of [send_aes_key_event] over the peers still to visit; [peers]
    is [data["peers"]] so far. *)
Fixpoint peer_entries (todo : list string) (peers : list (string * PyVal))
  : M State PyVal (list (string * PyVal)) :=
  match todo with
  | [] => next peers
  | peer :: rest =>
      let pub := master_key_fetch E peer in
      entry ← (if truthy pub then
                 let aes := secret E in
                 digest ← lift (sha256_hexdigest E aes);
                 n ← fresh;
                 wrapped ← lift (pub_encrypt E pub n aes);
                 sig ← lift (master_key_encrypt E digest);
                 next (PDict [("aes", wrapped); ("sig", sig)])
               else next (PDict []));
      peer_entries rest (dict_set peer entry peers)
  end.

Definition send_aes_key_event_body : M State PyVal PyVal :=
  peers ← peer_entries (cluster_peers E) [];
  let data := PDict [("peer_id", PStr (opts_id E)); ("peers", PDict peers)] in
  let tag := tagify E (opts_id E) "peer" "cluster" in
  success ← lift (fire_event E data tag);
  when success (modify (add_fired tag data));;
  next PNone.

Definition send_aes_key_event : State -> Res PyVal * State :=
  method send_aes_key_event_body.

(** The loop of [publish_payload] over the pushers still to visit. *)
Fixpoint push_all (tag : string) (data load : PyVal) (todo : list string)
  : M State PyVal unit :=
  match todo with
  | [] => next tt
  | host :: rest =>
      (if str_prefix "cluster/peer" tag then
         modify (add_task (Pusher host) load)
       else
         n ← fresh;
         body ← lift (crypticle_dumps E (secret E) n
                                      (PDict [("event_payload", data)]));
         let event_data := pack E (tagify E tag (opts_id E) "cluster/event") body in
         modify (add_task (Pusher host) event_data));;
      push_all tag data load rest
  end.

(** The tasks are awaited with [return_exceptions=True] and each failure is
    logged and dropped, so what a task does with its payload does not show in
    the outcome of the method. *)
Definition publish_payload_body (load : PyVal) : M State PyVal PyVal :=
  '(tag, data) ← lift (unpack E load);
  when (negb (str_prefix "cluster/peer" tag)) (modify (add_task Local load));;
  push_all tag data load (pushers E);;
  next PNone.

Definition publish_payload (load : PyVal) : State -> Res PyVal * State :=
  method (publish_payload_body load).

(** The entry [send_aes_key_event] makes for a peer whose key is on file:
    the secret encrypted to that key, and the signature [sg]. *)
Definition key_entry_for (peer : string) (sg : PyVal) (entry : PyVal) : Prop :=
  ∃ n w, pub_encrypt E (master_key_fetch E peer) n (secret E) = Ok w
         ∧ entry = PDict [("aes", w); ("sig", sg)].

End Methods.
End Publisher.
End MasterPubServerChannel.

(** ** ReqServerChannel: request dispatch and the [_auth] handshake *)
Module ReqServerChannel.

(** The entries of [self.opts] the methods read. *)
Record Opts : Type := {
  (** truth value of [opts.get("cluster_id")] *)
  cluster_id : bool;
  pki_dir : PyVal;
  cluster_pki_dir : PyVal;
  publish_session : Z;
  request_server_ttl : Z;
  max_minions : Z;
  (** truth value of [opts["open_mode"]] *)
  open_mode : bool;
  (** [opts.get("auth_events") is True] *)
  auth_events : bool;
  master_sign_pubkey : bool;
  auth_mode : Z;
  publish_port : PyVal;
  (** [opts["con_cache"]]: whether [self.cache_cli] is a [CacheCli] *)
  con_cache : bool
}.

(** Collaborators defined outside [salt/channel/server.py].  Functions that
    draw random bytes take the draw as a [nat]. *)
Record Env : Type := {
  (** [salt.crypt.OAEP_SHA1], [salt.crypt.PKCS1v15_SHA1] *)
  OAEP_SHA1 : PyVal;
  PKCS1v15_SHA1 : PyVal;
  (** [salt.utils.verify.valid_id(opts, id)] on a [str] id; any other value
      is not a valid id *)
  valid_id : string -> bool;
  (** [salt.crypt.clean_key] *)
  clean_key : PyVal -> Res PyVal;
  (** [self.auto_key.check_autoreject], [self.auto_key.check_autosign] *)
  check_autoreject : PyVal -> bool;
  check_autosign : PyVal -> PyVal -> bool;
  (** [salt.crypt.PublicKey.from_str], [.from_file], [pub.encrypt(data, algo)],
      [pub.decrypt(tok)] *)
  pubkey_from_str : PyVal -> Res PyVal;
  pubkey_from_file : PyVal -> Res PyVal;
  pub_encrypt : PyVal -> nat -> PyVal -> PyVal -> Res PyVal;
  pub_decrypt : PyVal -> PyVal -> Res PyVal;
  (** [self.master_key]: [get_pub_str()], [pubkey_signature],
      [sign(data, algorithm)], [sign_key.sign(data, algorithm)],
      [decrypt(token, algo)], [encrypt(digest)] *)
  master_pub_str : PyVal;
  master_pubkey_signature : PyVal;
  master_sign : PyVal -> PyVal -> Res PyVal;
  master_sign_key_sign : PyVal -> PyVal -> Res PyVal;
  master_decrypt : PyVal -> PyVal -> Res PyVal;
  master_encrypt : PyVal -> Res PyVal;
  (** [salt.payload.dumps] *)
  payload_dumps : PyVal -> PyVal;
  (** [salt.crypt.Crypticle(opts, key).loads(data)] and [.dumps(obj, nonce)],
      [salt.crypt.Crypticle.generate_key_string()] *)
  crypticle_loads : PyVal -> PyVal -> Res PyVal;
  crypticle_dumps : PyVal -> nat -> PyVal -> PyVal -> Res PyVal;
  generate_key_string : nat -> PyVal;
  (** [to_bytes(hashlib.sha256(x).hexdigest())], [binascii.b2a_base64] *)
  sha256_hexdigest : PyVal -> Res PyVal;
  b2a_base64 : PyVal -> Res PyVal;
  (** ["{}_|-{}".format(a, b)] and the text [f"{v}"] of a value *)
  format_token : PyVal -> PyVal -> PyVal;
  py_format : PyVal -> string;
  (** [salt.utils.verify.clean_join(pki_dir, "minions", id)] *)
  clean_join : PyVal -> PyVal -> Res PyVal;
  (** [self.cache_cli.put_cache(ids)]: what [self.cache_cli.get_cached()]
      answers afterwards, given what it answered before *)
  put_cache : list PyVal -> list PyVal -> list PyVal;
  (** [self.payload_handler(payload)]: the pair [(ret, req_opts)] *)
  payload_handler : PyVal -> Res (PyVal * PyVal)
}.

(** What a method does to its collaborators, in order. *)
Inductive Effect : Type :=
| CacheStore (bucket key : string) (v : PyVal)
| FireEvent (data : PyVal)
| CrypticleLoads (key data : PyVal)
| PutCache (ids : list PyVal).

(** The state the methods read and write: the key cache ([self.cache], by
    bucket and key), the key of [self.crypticle], the shared secrets
    [SMaster.secrets["aes"|"cluster_aes"]["secret"].value], [self.sessions]
    and the session files with their mtime, the reading of [time.time()], the
    number of random draws made, what [self.cache_cli.get_cached()] and
    [self.ckminions.connected_ids()] answer, and the effects so far. *)
Record State : Type := {
  cache : gmap (string * string) PyVal;
  crypticle_key : PyVal;
  secrets_aes : PyVal;
  secrets_cluster_aes : PyVal;
  sessions : gmap string (Z * PyVal);
  session_files : gmap string (Z * PyVal);
  clock : Z;
  entropy : nat;
  con_cached : list PyVal;
  connected_ids : list PyVal;
  trace : list Effect
}.

Definition set_cache (f : gmap (string * string) PyVal -> gmap (string * string) PyVal)
           (st : State) : State :=
  {| cache := f (cache st); crypticle_key := crypticle_key st;
     secrets_aes := secrets_aes st; secrets_cluster_aes := secrets_cluster_aes st;
     sessions := sessions st; session_files := session_files st;
     clock := clock st; entropy := entropy st; con_cached := con_cached st;
     connected_ids := connected_ids st; trace := trace st |}.

Definition set_crypticle_key (k : PyVal) (st : State) : State :=
  {| cache := cache st; crypticle_key := k;
     secrets_aes := secrets_aes st; secrets_cluster_aes := secrets_cluster_aes st;
     sessions := sessions st; session_files := session_files st;
     clock := clock st; entropy := entropy st; con_cached := con_cached st;
     connected_ids := connected_ids st; trace := trace st |}.

Definition set_sessions (f : gmap string (Z * PyVal) -> gmap string (Z * PyVal))
           (st : State) : State :=
  {| cache := cache st; crypticle_key := crypticle_key st;
     secrets_aes := secrets_aes st; secrets_cluster_aes := secrets_cluster_aes st;
     sessions := f (sessions st); session_files := session_files st;
     clock := clock st; entropy := entropy st; con_cached := con_cached st;
     connected_ids := connected_ids st; trace := trace st |}.

Definition set_session_files (f : gmap string (Z * PyVal) -> gmap string (Z * PyVal))
           (st : State) : State :=
  {| cache := cache st; crypticle_key := crypticle_key st;
     secrets_aes := secrets_aes st; secrets_cluster_aes := secrets_cluster_aes st;
     sessions := sessions st; session_files := f (session_files st);
     clock := clock st; entropy := entropy st; con_cached := con_cached st;
     connected_ids := connected_ids st; trace := trace st |}.

Definition set_entropy (n : nat) (st : State) : State :=
  {| cache := cache st; crypticle_key := crypticle_key st;
     secrets_aes := secrets_aes st; secrets_cluster_aes := secrets_cluster_aes st;
     sessions := sessions st; session_files := session_files st;
     clock := clock st; entropy := n; con_cached := con_cached st;
     connected_ids := connected_ids st; trace := trace st |}.

Definition set_con_cached (ids : list PyVal) (st : State) : State :=
  {| cache := cache st; crypticle_key := crypticle_key st;
     secrets_aes := secrets_aes st; secrets_cluster_aes := secrets_cluster_aes st;
     sessions := sessions st; session_files := session_files st;
     clock := clock st; entropy := entropy st; con_cached := ids;
     connected_ids := connected_ids st; trace := trace st |}.

Definition log (e : Effect) (st : State) : State :=
  {| cache := cache st; crypticle_key := crypticle_key st;
     secrets_aes := secrets_aes st; secrets_cluster_aes := secrets_cluster_aes st;
     sessions := sessions st; session_files := session_files st;
     clock := clock st; entropy := entropy st; con_cached := con_cached st;
     connected_ids := connected_ids st; trace := (trace st ++ [e])%list |}.

(** [{"enc": "clear", "load": {"ret": v}}] *)
Definition clear_reply (v : PyVal) : PyVal :=
  PDict [("enc", PStr "clear"); ("load", PDict [("ret", v)])].

Section Methods.
Variable O : Opts.
Variable E : Env.

(** One more random draw. *)
Definition fresh {R} : M State R nat :=
  n ← gets entropy; modify (set_entropy (S n));; next n.

(** [self.cache.fetch(bucket, key)] and
    [self.cache.store(bucket, key, value)]; cache keys are strings.  A bank
    with nothing stored reads as [None]; the code only tests what it fetched
    for truth, so a driver answering an empty mapping behaves the same. *)
Definition cache_fetch {R} (bucket : string) (key : PyVal) : M State R PyVal :=
  match key with
  | PStr k => c ← gets cache; next (default PNone (c !! (bucket, k)))
  | _ => throw TypeError
  end.

Definition cache_store {R} (bucket : string) (key v : PyVal) : M State R unit :=
  match key with
  | PStr k =>
      modify (set_cache (<[(bucket, k) := v]>));;
      modify (log (CacheStore bucket k v))
  | _ => throw TypeError
  end.

Definition valid_id_val (v : PyVal) : bool :=
  match v with PStr s => valid_id E s | _ => false end.

Definition compare_keys (key1 key2 : PyVal) : Res bool :=
  match clean_key E key1 with
  | Raise e => Raise e
  | Ok a => match clean_key E key2 with
            | Raise e => Raise e
            | Ok b => Ok (pyeq a b)
            end
  end.

(** The property [aes_key]. *)
Definition aes_key (st : State) : PyVal :=
  if cluster_id O then secrets_cluster_aes st else secrets_aes st.

(** [salt.crypt.Crypticle.write_key(path)] for the session file of [m]. *)
Definition write_key {R} (m : string) : M State R unit :=
  n ← fresh;
  now ← gets clock;
  modify (set_session_files (<[m := (now, generate_key_string E n)]>)).

Definition session_key_body (minion : PyVal) : M State PyVal PyVal :=
  match minion with
  | PStr m =>
      now ← gets clock;
      sess ← gets sessions;
      match sess !! m with
      | Some (t, k) => when (now - t <? publish_session O) (return_ k)
      | None => next tt
      end;;
      files ← gets session_files;
      match files !! m with
      | Some (mtime, _) => when (publish_session O <? now - mtime) (write_key m)
      | None => write_key m
      end;;
      files ← gets session_files;
      match files !! m with
      | Some entry => modify (set_sessions (<[m := entry]>));; return_ (snd entry)
      | None => throw OSError
      end
  | _ => throw TypeError
  end.

Definition session_key (minion : PyVal) : State -> Res PyVal * State :=
  method (session_key_body minion).

(** [self.crypticle.loads(data)] and [Crypticle(opts, key).loads(data)] *)
Definition loads {R} (key data : PyVal) : M State R PyVal :=
  modify (log (CrypticleLoads key data));;
  lift (crypticle_loads E key data).

(** [Crypticle(opts, key).dumps(obj, nonce)] *)
Definition dumps {R} (key obj nonce : PyVal) : M State R PyVal :=
  n ← fresh;
  lift (crypticle_dumps E key n obj nonce).

Definition _update_aes_body : M State bool bool :=
  cur ← gets aes_key;
  ck ← gets crypticle_key;
  if negb (pyeq cur ck)
  then modify (set_crypticle_key cur);; return_ true
  else return_ false.

Definition _update_aes : State -> Res bool * State := method _update_aes_body.

Definition _decode_payload_body (payload version : PyVal) : M State PyVal PyVal :=
  enc ← lift (subscript payload "enc");
  if pyeq enc (PStr "aes") then
    v3 ← lift (py_gt version 2);
    if v3 then
      id ← lift (subscript payload "id");
      if valid_id_val id then
        id ← lift (subscript payload "id");
        key ← call (session_key id);
        data ← lift (subscript payload "load");
        load ← loads key data;
        payload ← lift (setitem payload "load" load);
        return_ payload
      else throw SaltDeserializationError
    else
      data ← lift (subscript payload "load");
      load ← try_except
               (ck ← gets crypticle_key; loads ck data)
               (fun e => match e with
                         | AuthenticationError =>
                             Some (updated ← call _update_aes;
                                   when (negb updated) (throw AuthenticationError);;
                                   data ← lift (subscript payload "load");
                                   ck ← gets crypticle_key;
                                   loads ck data)
                         | _ => None
                         end);
      payload ← lift (setitem payload "load" load);
      return_ payload
  else return_ payload.

Definition _decode_payload (payload version : PyVal) : State -> Res PyVal * State :=
  method (_decode_payload_body payload version).

Definition validate_token_body (payload : PyVal) (required : bool)
  : M State (bool * PyVal) (bool * PyVal) :=
  load ← lift (subscript payload "load");
  '(tok, load) ← lift (pop_default load "tok" PNone);
  payload ← lift (setitem payload "load" load);
  id_ ← lift (get_default load "id" PNone);
  if negb (is_none tok) && negb (is_none id_) then
    let dir := if cluster_id O then cluster_pki_dir O else pki_dir O in
    pub_path ← try_except (lift (clean_join E dir id_))
                 (fun e => match e with
                           | SaltValidationError => Some (return_ (false, payload))
                           | _ => None
                           end);
    pub ← try_except (lift (pubkey_from_file E pub_path))
            (fun e => match e with
                      | OSError => Some (return_ (false, payload))
                      | _ => None
                      end);
    try_except
      (plain ← lift (pub_decrypt E pub tok);
       when (negb (pyeq plain (PBytes "salt"))) (return_ (false, payload)))
      (fun e => match e with
                | ValueError => Some (return_ (false, payload))
                | _ => None
                end);;
    return_ (true, payload)
  else if required then return_ (false, payload)
  else return_ (true, payload).

Definition validate_token (payload : PyVal) (required : bool)
  : State -> Res (bool * PyVal) * State :=
  method (validate_token_body payload required).

(** [dictkey] names an entry of the reply; entries are named by strings. *)
Definition _encrypt_private_body (ret dictkey target nonce : PyVal)
           (sign_messages : bool) (encryption_algorithm signing_algorithm : PyVal)
  : M State PyVal PyVal :=
  '(key, pub) ←
    try_except
      (n ← fresh;
       let key := generate_key_string E n in
       pub ← cache_fetch "keys" target;
       hasp ← (if is_dict pub then lift (py_in (PStr "pub") pub) else next false);
       when (negb hasp)
            (ck ← gets crypticle_key;
             empty ← dumps ck (PDict []) PNone;
             return_ empty);;
       pem ← lift (subscript pub "pub");
       pub ← lift (pubkey_from_str E pem);
       next (key, pub))
      (any_exception
         (ck ← gets crypticle_key;
          empty ← dumps ck (PDict []) PNone;
          return_ empty));
  n ← fresh;
  wrapped ← lift (pub_encrypt E pub n key encryption_algorithm);
  let pret := [("key", wrapped)] in
  let ret := match ret with PBool false => PDict [] | _ => ret end in
  if sign_messages then
    when (is_none nonce)
         (return_ (PDict [("error", PStr "Nonce not included in request")]));;
    let tosign := payload_dumps E (PDict [("key", wrapped); ("pillar", ret); ("nonce", nonce)]) in
    sig ← lift (master_sign E tosign signing_algorithm);
    let signed_msg := PDict [("data", tosign); ("sig", sig)] in
    body ← dumps key signed_msg PNone;
    match dictkey with
    | PStr k => return_ (PDict (dict_set k body pret))
    | _ => throw TypeError
    end
  else
    body ← dumps key ret PNone;
    match dictkey with
    | PStr k => return_ (PDict (dict_set k body pret))
    | _ => throw TypeError
    end.

Definition _encrypt_private (ret dictkey target nonce : PyVal) (sign_messages : bool)
           (encryption_algorithm signing_algorithm : PyVal)
  : State -> Res PyVal * State :=
  method (_encrypt_private_body ret dictkey target nonce sign_messages
                                encryption_algorithm signing_algorithm).

Definition _clear_signed (load algorithm : PyVal) : Res PyVal :=
  let tosign := payload_dumps E load in
  match master_sign E tosign algorithm with
  | Ok sig => Ok (PDict [("enc", PStr "clear"); ("load", tosign); ("sig", sig)])
  | Raise UnsupportedAlgorithm => Ok (clear_reply (PStr "bad sig algo"))
  | Raise e => Raise e
  end.

(** The recurring tail of [_auth]:
    [if sign_messages: return self._clear_signed({"ret": v, "nonce": load["nonce"]}, sig_algo)]
    [else: return {"enc": "clear", "load": {"ret": v}}]. *)
Definition reply {A} (load : PyVal) (sign_messages : bool) (sig_algo v : PyVal)
  : M State PyVal A :=
  if sign_messages then
    nonce ← lift (subscript load "nonce");
    r ← lift (_clear_signed (PDict [("ret", v); ("nonce", nonce)]) sig_algo);
    return_ r
  else return_ (clear_reply v).

(** [if self.opts.get("auth_events") is True: self.event.fire_event(eload, ...)] *)
Definition fire_auth_event (eload : PyVal) : M State PyVal unit :=
  when (auth_events O) (modify (log (FireEvent eload))).

(** [if load["pub"] not in denied: denied.append(load["pub"]);
    self.cache.store("denied_keys", load["id"], denied)] *)
Definition record_denied (id pub denied : PyVal) : M State PyVal unit :=
  known ← lift (py_in pub denied);
  when (negb known)
       (denied ← lift (py_append denied pub);
        cache_store "denied_keys" id denied).

(** [key and key["state"] == s] *)
Definition key_state_is (key : PyVal) (s : string) : M State PyVal bool :=
  if truthy key then
    st ← lift (subscript key "state");
    next (pyeq st (PStr s))
  else next false.

(** Lines 437-450: algorithms, id validation, [load["pub"]] stripped.
    Hands on the load with its stripped key. *)
Definition _auth_validate (load : PyVal) (sign_messages : bool)
  : M State PyVal (PyVal * PyVal * PyVal * PyVal * PyVal) :=
  enc_algo ← lift (get_default load "enc_algo" (OAEP_SHA1 E));
  sig_algo ← lift (get_default load "sig_algo" (PKCS1v15_SHA1 E));
  id ← lift (subscript load "id");
  when (negb (valid_id_val id)) (reply load sign_messages sig_algo (PBool false));;
  pub ← lift (subscript load "pub");
  pub ← lift (py_strip pub);
  load ← lift (setitem load "pub" pub);
  next (load, enc_algo, sig_algo, id, pub).

(** Lines 452-492: the [max_minions] gate. *)
Definition _auth_max_minions (load : PyVal) (sign_messages : bool)
           (sig_algo id pub : PyVal) : M State PyVal unit :=
  when (0 <? max_minions O)
       (minions ← gets (if con_cache O then con_cached else connected_ids);
        when (negb (Z.of_nat (List.length minions) <=? max_minions O))
             (when (negb (list_contains id minions))
                   (fire_auth_event
                      (PDict [("result", PBool false); ("act", PStr "full");
                              ("id", id); ("pub", pub)]);;
                    reply load sign_messages sig_algo (PStr "full")))).

(** A key that does not match the stored one: lines 534-558, 631-656 and
    687-707; [eload] is the event of the branch. *)
Definition deny {A} (load : PyVal) (sign_messages : bool)
           (sig_algo id pub denied eload : PyVal) : M State PyVal A :=
  record_denied id pub denied;;
  fire_auth_event eload;;
  reply load sign_messages sig_algo (PBool false).

(** Lines 494-719: the decision on the stored key.  Goes on with the value
    of [key] when the request falls through to the accept path. *)
Definition _auth_policy (load : PyVal) (sign_messages : bool)
           (sig_algo id pub : PyVal) : M State PyVal PyVal :=
  let auto_reject := check_autoreject E id in
  grains ← lift (get_default load "autosign_grains" PNone);
  let auto_sign := check_autosign E id grains in
  key ← cache_fetch "keys" id;
  key ← (if truthy key then
           has_pub ← lift (py_in (PStr "pub") key);
           if has_pub then
             kp ← lift (subscript key "pub");
             kp ← lift (py_strip kp);
             lift (setitem key "pub" kp)
           else next key
         else next key);
  denied ← cache_fetch "denied_keys" id;
  let denied := if truthy denied then denied else PList [] in
  if open_mode O then next key else
  rejected ← key_state_is key "rejected";
  if rejected then
    fire_auth_event (PDict [("result", PBool false); ("id", id); ("pub", pub)]);;
    reply load sign_messages sig_algo (PBool false)
  else
  accepted ← key_state_is key "accepted";
  if accepted then
    kp ← lift (subscript key "pub");
    same ← lift (compare_keys kp pub);
    when (negb same)
         (deny load sign_messages sig_algo id pub denied
               (PDict [("result", PBool false); ("id", id);
                       ("act", PStr "denied"); ("pub", pub)]));;
    next key
  else
  if negb (truthy key) then
    if auto_reject then
      let key := PDict [("pub", pub); ("state", PStr "rejected")] in
      cache_store "keys" id key;;
      fire_auth_event (PDict [("result", PBool false); ("act", PStr "reject");
                              ("id", id); ("pub", pub)]);;
      reply load sign_messages sig_algo (PBool false)
    else if negb auto_sign then
      let key := PDict [("pub", pub); ("state", PStr "pending")] in
      cache_store "keys" id key;;
      fire_auth_event (PDict [("result", PBool true); ("act", PStr "pend");
                              ("id", id); ("pub", pub)]);;
      reply load sign_messages sig_algo (PBool true)
    else next key
  else
  pending ← key_state_is key "pending";
  if pending then
    if auto_reject then
      key ← lift (setitem key "state" (PStr "rejected"));
      cache_store "keys" id key;;
      fire_auth_event (PDict [("result", PBool false); ("act", PStr "reject");
                              ("id", id); ("pub", pub)]);;
      reply load sign_messages sig_algo (PBool false)
    else if negb auto_sign then
      kp ← lift (subscript key "pub");
      same ← lift (compare_keys kp pub);
      if negb same then
        deny load sign_messages sig_algo id pub denied
             (PDict [("result", PBool false); ("id", id);
                     ("act", PStr "denied"); ("pub", pub)])
      else
        fire_auth_event (PDict [("result", PBool true); ("act", PStr "pend");
                                ("id", id); ("pub", pub)]);;
        reply load sign_messages sig_algo (PBool true)
    else
      kp ← lift (subscript key "pub");
      same ← lift (compare_keys kp pub);
      when (negb same)
           (deny load sign_messages sig_algo id pub denied
                 (PDict [("result", PBool false); ("id", id); ("pub", pub)]));;
      next key
  else
    fire_auth_event (PDict [("result", PBool false); ("id", id); ("pub", pub)]);;
    reply load sign_messages sig_algo (PBool false).

(** [ret[k] = pub.encrypt(data, enc_algo)] *)
Definition encrypt_into (ret : list (string * PyVal)) (k : string)
           (pub data enc_algo : PyVal) : M State PyVal (list (string * PyVal)) :=
  n ← fresh;
  c ← lift (pub_encrypt E pub n data enc_algo);
  next (dict_set k c ret).

(** Lines 723-739: the KeyRecord is written only when it was not already
    accepted, or in open mode with a changed key; an empty key in open mode
    is rejected.  Goes on with the value of [key]. *)
Definition accept_store (load : PyVal) (sign_messages : bool)
           (sig_algo id pub key : PyVal) : M State PyVal PyVal :=
  not_accepted ← (if negb (truthy key) then next true else
                    st ← lift (subscript key "state");
                    next (negb (pyeq st (PStr "accepted"))));
  if not_accepted && negb (open_mode O) then
    let key := PDict [("pub", pub); ("state", PStr "accepted")] in
    cache_store "keys" id key;;
    next key
  else if open_mode O then
    if truthy pub then
      changed ← (if negb (truthy key) then next true else
                   kp ← lift (subscript key "pub");
                   next (negb (pyeq pub kp)));
      if changed then
        let key := PDict [("pub", pub); ("state", PStr "accepted")] in
        cache_store "keys" id key;;
        next key
      else next key
    else reply load sign_messages sig_algo (PBool false)
  else next key.

(** Lines 771-786: the signature of the master's public key, when enabled. *)
Definition accept_pub_sig (sig_algo : PyVal) (ret : list (string * PyVal))
  : M State PyVal (list (string * PyVal)) :=
  if master_sign_pubkey O then
    if truthy (master_pubkey_signature E) then
      next (dict_set "pub_sig" (master_pubkey_signature E) ret)
    else
      pub_sign ← lift (master_sign_key_sign E (master_pub_str E) sig_algo);
      b64 ← lift (b2a_base64 E pub_sign);
      next (dict_set "pub_sig" b64 ret)
  else next ret.

(** Lines 788-830: the secrets of the reply, encrypted to the minion's key.
    Goes on with the value of [aes] and the reply. *)
Definition accept_secrets (load enc_algo id pubk : PyVal) (ret : list (string * PyVal))
  : M State PyVal (PyVal * list (string * PyVal)) :=
  has_token ← lift (py_in (PStr "token") load);
  if 2 <=? auth_mode O then
    aes ← (if has_token then
             try_except
               (token ← lift (subscript load "token");
                mtoken ← lift (master_decrypt E token enc_algo);
                secret ← gets secrets_aes;
                next (Some (format_token E secret mtoken)))
               (fun e => match e with
                         | UnsupportedAlgorithm =>
                             Some (return_ (clear_reply (PStr "bad enc algo")))
                         | _ => Some (next None)
                         end)
           else
             a ← gets aes_key; next (Some a));
    aes ← (match aes with
           | Some a => next a
           | None => throw (UnboundLocalError "aes")
           end);
    ret ← encrypt_into ret "aes" pubk aes enc_algo;
    sk ← call (session_key id);
    ret ← encrypt_into ret "session" pubk sk enc_algo;
    next (aes, ret)
  else
    ret ← (if has_token then
             try_except
               (token ← lift (subscript load "token");
                mtoken ← lift (master_decrypt E token enc_algo);
                encrypt_into ret "token" pubk mtoken enc_algo)
               (fun e => match e with
                         | UnsupportedAlgorithm =>
                             Some (return_ (clear_reply (PStr "bad enc algo")))
                         | _ => Some (next ret)
                         end)
           else next ret);
    aes ← gets aes_key;
    ret ← encrypt_into ret "aes" pubk aes enc_algo;
    sk ← call (session_key id);
    ret ← encrypt_into ret "session" pubk sk enc_algo;
    next (aes, ret).

(** Lines 743-745: [self.cache_cli.put_cache([load["id"]])]; the con cache
    answers [get_cached()] accordingly from then on. *)
Definition cache_put (id : PyVal) : M State PyVal unit :=
  modify (fun st => set_con_cached (put_cache E [id] (con_cached st)) st);;
  modify (log (PutCache [id])).

(** Lines 721-847: the accept path. *)
Definition _auth_accept (load : PyVal) (sign_messages : bool)
           (version enc_algo sig_algo id pub key : PyVal) : M State PyVal PyVal :=
  key ← accept_store load sign_messages sig_algo id pub key;
  when (con_cache O) (cache_put id);;
  pubk ← try_except
           (kp ← lift (subscript key "pub");
            lift (pubkey_from_str E kp))
           (fun e => match e with
                     | InvalidKeyError =>
                         Some (reply load sign_messages sig_algo (PBool false))
                     | _ => None
                     end);
  let ret := [("enc", PStr "pub"); ("pub_key", master_pub_str E);
              ("publish_port", publish_port O)] in
  ret ← accept_pub_sig sig_algo ret;
  '(aes, ret) ← accept_secrets load enc_algo id pubk ret;
  lift (py_lt version 3);;
  digest ← lift (sha256_hexdigest E aes);
  sig ← lift (master_encrypt E digest);
  let ret := dict_set "sig" sig ret in
  fire_auth_event (PDict [("result", PBool true); ("act", PStr "accept");
                          ("id", id); ("pub", pub)]);;
  if sign_messages then
    nonce ← lift (subscript load "nonce");
    let ret := dict_set "nonce" nonce ret in
    r ← lift (_clear_signed (PDict ret) sig_algo);
    return_ r
  else return_ (PDict ret).

Definition _auth_body (load : PyVal) (sign_messages : bool) (version : PyVal)
  : M State PyVal PyVal :=
  '(load, enc_algo, sig_algo, id, pub) ← _auth_validate load sign_messages;
  _auth_max_minions load sign_messages sig_algo id pub;;
  key ← _auth_policy load sign_messages sig_algo id pub;
  _auth_accept load sign_messages version enc_algo sig_algo id pub key.

Definition _auth (load : PyVal) (sign_messages : bool) (version : PyVal)
  : State -> Res PyVal * State :=
  method (_auth_body load sign_messages version).

(** [k in payload] after [isinstance(payload, dict)] *)
Definition has_key (payload : PyVal) (k : string) : bool :=
  match payload with PDict d => dict_has k d | _ => false end.

(** Lines 192-227: what the dispatcher checks on an ["aes"] payload; hands
    on the nonce taken out of the load and the payload the handler sees.  The
    warning of an expired ttl reads [payload["load"]["id"]] for its text. *)
Definition check_aes (payload version : PyVal) : M State PyVal (PyVal * PyVal) :=
  v2 ← lift (py_gt version 1);
  '(nonce, payload) ←
    (if v2 then
       load ← lift (subscript payload "load");
       '(nonce, load) ← lift (pop_default load "nonce" PNone);
       payload ← lift (setitem payload "load" load);
       next (nonce, payload)
     else next (PNone, payload));
  v3 ← lift (py_gt version 2);
  if v3 then
    load ← lift (subscript payload "load");
    when (0 <? request_server_ttl O)
         (now ← gets clock;
          ts ← lift (subscript load "ts");
          ts ← lift (as_int ts);
          when (request_server_ttl O <? now - ts)
               (lift (subscript load "id");;
                return_ (PStr "bad load")));;
    outer ← lift (subscript payload "id");
    inner ← lift (subscript load "id");
    when (negb (pyeq outer inner)) (return_ (PStr "bad load"));;
    when (negb (valid_id_val inner)) (return_ (PStr "bad load"));;
    '(ok, payload) ← call (validate_token payload true);
    when (negb ok) (return_ (PStr "bad load"));;
    next (nonce, payload)
  else
    '(ok, payload) ← call (validate_token payload false);
    when (negb ok) (return_ (PStr "bad load"));;
    next (nonce, payload).

(** Lines 239-265: the reply is encoded as [req_opts["fun"]] asks;
    [nonce] is [None] when the name was never bound. *)
Definition encode_reply (payload version id_ : PyVal) (nonce : option PyVal)
           (sign_messages : bool) (ret req_opts : PyVal) : M State PyVal PyVal :=
  let bound_nonce : M State PyVal PyVal :=
    match nonce with
    | Some n => next n
    | None => throw (UnboundLocalError "nonce")
    end in
  req_fun ← lift (get_default req_opts "fun" (PStr "send"));
  if pyeq req_fun (PStr "send_clear") then return_ ret
  else if pyeq req_fun (PStr "send") then
    v3 ← lift (py_gt version 2);
    if v3 then
      sk ← call (session_key id_);
      nonce ← bound_nonce;
      r ← dumps sk ret nonce;
      return_ r
    else
      ck ← gets crypticle_key;
      nonce ← bound_nonce;
      r ← dumps ck ret nonce;
      return_ r
  else if pyeq req_fun (PStr "send_private") then
    dictkey ← lift (subscript req_opts "key");
    tgt ← lift (subscript req_opts "tgt");
    nonce ← bound_nonce;
    enc_algo ← lift (get_default payload "enc_algo" (OAEP_SHA1 E));
    sig_algo ← lift (get_default payload "sig_algo" (PKCS1v15_SHA1 E));
    r ← call (_encrypt_private ret dictkey tgt nonce sign_messages enc_algo sig_algo);
    return_ r
  else return_ (PStr "Server-side exception handling payload").

(** Lines 140-227: everything the dispatcher does before it calls the
    payload handler.  Hands on the payload the handler is given, the
    version, [id_], the nonce ([None] when the name is unbound) and
    [sign_messages]. *)
Definition handle_message_checks (payload : PyVal)
  : M State PyVal (PyVal * PyVal * PyVal * option PyVal * bool) :=
  when (negb (is_dict payload) || negb (has_key payload "enc")
        || negb (has_key payload "load"))
       (return_ (PStr "bad load"));;
  version ← lift (get_default payload "version" (PInt 0));
  payload ← try_except (call (_decode_payload payload version))
              (any_exception (return_ (PStr "bad load")));
  load ← lift (get_default payload "load" PNone);
  when (negb (is_dict payload) || negb (is_dict load))
       (return_ (PStr "payload and load must be a dict"));;
  id_ ← lift (get_default load "id" (PStr ""));
  try_except
    (nul ← lift (str_in NUL id_);
     when nul (return_ (PStr "bad load: id contains a null byte")))
    (fun e => match e with
              | TypeError =>
                  Some (return_ (PStr ("bad load: id " ++ py_format E id_
                                       ++ " is not a string")))
              | _ => None
              end);;
  sign_messages ← lift (py_gt version 1);
  enc ← lift (subscript payload "enc");
  cmd ← lift (get_default load "cmd" PNone);
  when (pyeq enc (PStr "clear") && pyeq cmd (PStr "_auth"))
       (r ← call (_auth load sign_messages version);
        return_ r);;
  if pyeq enc (PStr "aes") then
    '(nonce, payload) ← check_aes payload version;
    next (payload, version, id_, Some nonce, sign_messages)
  else next (payload, version, id_, None, sign_messages).

Definition handle_message_body (payload : PyVal) : M State PyVal PyVal :=
  '(payload, version, id_, nonce, sign_messages) ← handle_message_checks payload;
  '(ret, req_opts) ←
    try_except
      (lift (payload_handler E payload))
      (any_exception (return_ (PStr "Some exception handling minion payload")));
  encode_reply payload version id_ nonce sign_messages ret req_opts.

Definition handle_message (payload : PyVal) : State -> Res PyVal * State :=
  method (handle_message_body payload).

End Methods.

(** *** Vocabulary for the properties of the methods *)
Section Readings.
Variable O : Opts.
Variable E : Env.

(** The value the recurring reply tail of [_auth] returns. *)
Definition reply_value (load : PyVal) (sign_messages : bool) (sig_algo v : PyVal)
  : Res PyVal :=
  if sign_messages then
    match subscript load "nonce" with
    | Ok nonce => _clear_signed E (PDict [("ret", v); ("nonce", nonce)]) sig_algo
    | Raise e => Raise e
    end
  else Ok (clear_reply v).

(** What [_clear_signed] returns when the signature [sg] of the serialized
    [body] is at hand. *)
Definition signed (body sg : PyVal) : PyVal :=
  PDict [("enc", PStr "clear"); ("load", payload_dumps E body); ("sig", sg)].

(** How a request is answered with the plain reply [plain], case by case.
    Messages not signed: [plain] itself.  Messages signed: [KeyError] when the
    load has no [nonce]; otherwise, with [body] the reply to sign (it holds the
    nonce), the signed [body] when [master_key.sign] gives a signature,
    [{"ret": "bad sig algo"}] in clear when it raises [UnsupportedAlgorithm],
    and any other exception of [master_key.sign] as it is. *)
Definition sent_back (l : list (string * PyVal)) (sign_messages : bool)
           (sig_algo plain : PyVal) (body : PyVal → PyVal) (res : Res PyVal)
  : Prop :=
  (sign_messages = false → res = Ok plain)
  ∧ (sign_messages = true → dict_get "nonce" l = None →
     res = Raise (KeyError "nonce"))
  ∧ (sign_messages = true → ∀ nonce, dict_get "nonce" l = Some nonce →
       (∀ sg, master_sign E (payload_dumps E (body nonce)) sig_algo = Ok sg →
              res = Ok (signed (body nonce) sg))
       ∧ (master_sign E (payload_dumps E (body nonce)) sig_algo
          = Raise UnsupportedAlgorithm →
          res = Ok (clear_reply (PStr "bad sig algo")))
       ∧ (∀ e, master_sign E (payload_dumps E (body nonce)) sig_algo = Raise e →
               e ≠ UnsupportedAlgorithm → res = Raise e)).

(** The outcome [res] answers the request of load [l] with [{"ret": v}]:
    in clear, or signed as [{"ret": v, "nonce": nonce}]. *)
Definition answers (l : list (string * PyVal)) (sign_messages : bool)
           (sig_algo v : PyVal) (res : Res PyVal) : Prop :=
  sent_back l sign_messages sig_algo (clear_reply v)
            (fun nonce => PDict [("ret", v); ("nonce", nonce)]) res.

(** The outcome [res] answers the request of load [l] with the accept reply
    [ret]: as it is, or signed with the nonce added to it. *)
Definition accepts (l : list (string * PyVal)) (sign_messages : bool)
           (sig_algo : PyVal) (ret : list (string * PyVal)) (res : Res PyVal)
  : Prop :=
  sent_back l sign_messages sig_algo (PDict ret)
            (fun nonce => PDict (dict_set "nonce" nonce ret)) res.

Definition flow_of {A} (r : Res PyVal) : Flow PyVal A :=
  match r with Ok v => Return v | Raise e => Throw e end.

(** The list the [max_minions] gate counts. *)
Definition minions (st : State) : list PyVal :=
  (if con_cache O then con_cached else connected_ids) st.

(** The state after the audit event of a branch, when events are enabled. *)
Definition fired (eload : PyVal) (st : State) : State :=
  if auth_events O then log (FireEvent eload) st else st.

(** The signing algorithm a load asks for. *)
Definition sig_algo_of (l : list (string * PyVal)) : PyVal :=
  default (PKCS1v15_SHA1 E) (dict_get "sig_algo" l).

Definition enc_algo_of (l : list (string * PyVal)) : PyVal :=
  default (OAEP_SHA1 E) (dict_get "enc_algo" l).

(** The keys already denied for an identity, as [_auth] reads them:
    [self.cache.fetch("denied_keys", id) or []]. *)
Definition denied_keys (st : State) (i : string) : option (list PyVal) :=
  match cache st !! ("denied_keys", i) with
  | None | Some PNone => Some []
  | Some (PList dl) => Some dl
  | Some _ => None
  end.

(** What recording a denied key does to the state. *)
Definition with_denied (i : string) (pub : PyVal) (dl : list PyVal) (st : State)
  : State :=
  if list_contains pub dl then st
  else log (CacheStore "denied_keys" i (PList (dl ++ [pub])%list))
           (set_cache (<[("denied_keys", i) := PList (dl ++ [pub])%list]>) st).

(** What storing the KeyRecord [rec] of identity [i] does to the state. *)
Definition with_record (i : string) (rec : PyVal) (st : State) : State :=
  log (CacheStore "keys" i rec) (set_cache (<[("keys", i) := rec]>) st).

(** [{"pub": pub, "state": state}] *)
Definition record (pub : PyVal) (state : string) : PyVal :=
  PDict [("pub", pub); ("state", PStr state)].

(** The auth events: [{"result": .., "id": .., "pub": ..}] and
    [{"result": .., "act": .., "id": .., "pub": ..}]. *)
Definition auth_event (result : bool) (i : string) (pub : PyVal) : PyVal :=
  PDict [("result", PBool result); ("id", PStr i); ("pub", pub)].

Definition auth_act_event (result : bool) (act : string) (i : string) (pub : PyVal)
  : PyVal :=
  PDict [("result", PBool result); ("act", PStr act); ("id", PStr i); ("pub", pub)].

(** The [max_minions] gate lets identity [i] through. *)
Definition gate_passes (i : string) (st : State) : Prop :=
  max_minions O ≤ 0
  ∨ Z.of_nat (List.length (minions st)) ≤ max_minions O
  ∨ list_contains (PStr i) (minions st) = true.

(** The state once the con cache has been told of identity [i]. *)
Definition fed (i : string) (st : State) : State :=
  log (PutCache [PStr i])
      (set_con_cached (put_cache E [PStr i] (con_cached st)) st).

(** Effects other than a store into the key cache. *)
Definition no_store (e : Effect) : Prop :=
  match e with CacheStore _ _ _ => False | _ => True end.

(** [st'] differs from [st] at most in the session keys, the random draws
    made, what the con cache was told and the effects recorded, none of which
    is a store. *)
Definition frame (st st' : State) : Prop :=
  cache st' = cache st
  ∧ secrets_aes st' = secrets_aes st
  ∧ secrets_cluster_aes st' = secrets_cluster_aes st
  ∧ connected_ids st' = connected_ids st
  ∧ ∃ evs, trace st' = (trace st ++ evs)%list ∧ Forall no_store evs.

(** Effects other than a store into the ["keys"] bucket. *)
Definition no_key_store (e : Effect) : Prop :=
  match e with CacheStore bucket _ _ => bucket ≠ "keys" | _ => True end.

(** No KeyRecord differs between [st] and [st'], and no store into the
    ["keys"] bucket was recorded in between. *)
Definition keys_kept (st st' : State) : Prop :=
  (∀ j, cache st' !! ("keys", j) = cache st !! ("keys", j))
  ∧ ∃ evs, trace st' = (trace st ++ evs)%list ∧ Forall no_key_store evs.

(** A body that keeps the KeyRecords whatever state it starts from and
    however it ends. *)
Definition keeps {R A} (m : M State R A) : Prop :=
  ∀ st, keys_kept st (snd (m st)).

(** A body that relates by [P] the state it starts from and the state it
    ends in, however it ends. *)
Definition preserves {R A} (P : State → State → Prop) (m : M State R A) : Prop :=
  ∀ st, P st (snd (m st)).

(** [st'] differs from [st] at most in what belongs to identity [i]: its
    KeyRecord, its denied keys and its session key; besides, random draws were
    made and effects recorded.  The crypticle's key, the shared secrets, the
    clock, what the con cache answers and the connected minions are the
    same. *)
Definition confined_strict (i : string) (st st' : State) : Prop :=
  (∀ b j, (b, j) ≠ ("keys", i) → (b, j) ≠ ("denied_keys", i) →
          cache st' !! (b, j) = cache st !! (b, j))
  ∧ (∀ j, j ≠ i → sessions st' !! j = sessions st !! j)
  ∧ (∀ j, j ≠ i → session_files st' !! j = session_files st !! j)
  ∧ crypticle_key st' = crypticle_key st
  ∧ secrets_aes st' = secrets_aes st
  ∧ secrets_cluster_aes st' = secrets_cluster_aes st
  ∧ clock st' = clock st
  ∧ con_cached st' = con_cached st
  ∧ connected_ids st' = connected_ids st
  ∧ ∃ evs, trace st' = (trace st ++ evs)%list.

(** The same, but for the con cache, which may have been told of [i], once,
    by [put_cache([i])] (only when the con cache is enabled). *)
Definition confined (i : string) (st st' : State) : Prop :=
  (∀ b j, (b, j) ≠ ("keys", i) → (b, j) ≠ ("denied_keys", i) →
          cache st' !! (b, j) = cache st !! (b, j))
  ∧ (∀ j, j ≠ i → sessions st' !! j = sessions st !! j)
  ∧ (∀ j, j ≠ i → session_files st' !! j = session_files st !! j)
  ∧ crypticle_key st' = crypticle_key st
  ∧ secrets_aes st' = secrets_aes st
  ∧ secrets_cluster_aes st' = secrets_cluster_aes st
  ∧ clock st' = clock st
  ∧ (con_cached st' = con_cached st
     ∨ con_cache O = true
       ∧ con_cached st' = put_cache E [PStr i] (con_cached st))
  ∧ connected_ids st' = connected_ids st
  ∧ ∃ evs, trace st' = (trace st ++ evs)%list.

(** The key object encrypts under the algorithm, whatever the data and the
    random draw. *)
Definition encrypts (pk enc_algo : PyVal) : Prop :=
  ∀ n data, ∃ c, pub_encrypt E pk n data enc_algo = Ok c.

(** The value bound to [aes] on the accept path, [None] when the name is
    left unbound. *)
Definition aes_value (token : option PyVal) (enc_algo : PyVal) (st : State)
  : option PyVal :=
  if 2 <=? auth_mode O then
    match token with
    | Some t =>
        match master_decrypt E t enc_algo with
        | Ok m => Some (format_token E (secrets_aes st) m)
        | Raise _ => None
        end
    | None => Some (aes_key O st)
    end
  else Some (aes_key O st).

(** The entries every accept reply starts from. *)
Definition base_shape (ret : list (string * PyVal)) : Prop :=
  dict_get "enc" ret = Some (PStr "pub")
  ∧ dict_get "pub_key" ret = Some (master_pub_str E)
  ∧ dict_get "publish_port" ret = Some (publish_port O).

(** The shape of an accept reply: [enc: "pub"], the master's public key and
    publish port, and the entries [aes], [session] and [sig]. *)
Definition accept_shape (ret : list (string * PyVal)) : Prop :=
  base_shape ret
  ∧ is_Some (dict_get "aes" ret) ∧ is_Some (dict_get "session" ret)
  ∧ is_Some (dict_get "sig" ret).

(** What [_auth] returns for the reply [ret]: [ret] itself, or, when messages
    are signed, what [_clear_signed] makes of [ret] with the request's nonce. *)
Definition accept_value (load : PyVal) (sign_messages : bool) (sig_algo : PyVal)
           (ret : list (string * PyVal)) : Res PyVal :=
  if sign_messages then
    match subscript load "nonce" with
    | Ok nonce => _clear_signed E (PDict (dict_set "nonce" nonce ret)) sig_algo
    | Raise e => Raise e
    end
  else Ok (PDict ret).

(** The material of the reply can be produced: the stored key parses, the
    key object encrypts under the requested algorithm, the master's key
    signature is at hand or can be computed, a token (if any) names a supported
    algorithm and, for [auth_mode >= 2], decrypts, the digest of [aes] can be
    taken and encrypted, and the protocol version is a number. *)
Definition serviceable (l : list (string * PyVal)) (stored : PyVal)
           (version : PyVal) (st : State) : Prop :=
  ∃ pk aes dg sg,
    pubkey_from_str E stored = Ok pk
    ∧ encrypts pk (enc_algo_of l)
    ∧ (master_sign_pubkey O = true → truthy (master_pubkey_signature E) = false →
       ∃ s b64, master_sign_key_sign E (master_pub_str E) (sig_algo_of l) = Ok s
                ∧ b2a_base64 E s = Ok b64)
    ∧ (∀ t, dict_get "token" l = Some t →
            master_decrypt E t (enc_algo_of l) ≠ Raise UnsupportedAlgorithm)
    ∧ aes_value (dict_get "token" l) (enc_algo_of l) st = Some aes
    ∧ sha256_hexdigest E aes = Ok dg
    ∧ master_encrypt E dg = Ok sg
    ∧ ∃ v, as_int version = Ok v.

(** The directory [validate_token] looks the minion keys up in. *)
Definition minion_keys_dir : PyVal :=
  if cluster_id O then cluster_pki_dir O else pki_dir O.

(** The load carries a token and an id, and the token, decrypted with the
    public key on file for that id, is [b"salt"]. *)
Definition token_verifies (l : list (string * PyVal)) : Prop :=
  ∃ tok id path pub plain,
    dict_get "tok" l = Some tok ∧ is_none tok = false
    ∧ dict_get "id" l = Some id ∧ is_none id = false
    ∧ clean_join E minion_keys_dir id = Ok path
    ∧ pubkey_from_file E path = Ok pub
    ∧ pub_decrypt E pub tok = Ok plain
    ∧ pyeq plain (PBytes "salt") = true.

(** The load has no token, or no id, to check. *)
Definition token_absent (l : list (string * PyVal)) : Prop :=
  is_none (default PNone (dict_get "tok" l)) = true
  ∨ is_none (default PNone (dict_get "id" l)) = true.

(** The payload with [tok] popped from its load. *)
Definition without_tok (d l : list (string * PyVal)) : PyVal :=
  PDict (dict_set "load" (PDict (dict_del "tok" l)) d).

(** The [pub] entry of the target's KeyRecord, when the record is a mapping
    that has one. *)
Definition stored_pub (st : State) (target : PyVal) : option PyVal :=
  match target with
  | PStr t =>
      match cache st !! ("keys", t) with
      | Some (PDict d) => dict_get "pub" d
      | _ => None
      end
  | _ => None
  end.

End Readings.

End ReqServerChannel.

(** ** A concrete master: symbolic collaborators to run the methods on

    Ciphertexts and signatures are kept symbolic: an RSA encryption is the
    list [["rsa", key, draw, data]], a Crypticle ciphertext is
    [["aes", key, obj]] and decrypts under that key only. *)
Module Scenario.
Import ReqServerChannel.

Definition supported (algo : PyVal) : bool :=
  pyeq algo (PStr "OAEP-SHA1") || pyeq algo (PStr "OAEP-SHA224")
  || pyeq algo (PStr "PKCS1v15-SHA1") || pyeq algo (PStr "PKCS1v15-SHA224").

Definition env (auto_reject auto_sign : bool) : Env := {|
  OAEP_SHA1 := PStr "OAEP-SHA1";
  PKCS1v15_SHA1 := PStr "PKCS1v15-SHA1";
  valid_id := fun s =>
    negb (String.eqb s "") &&
    negb (str_contains "/" s || str_contains "\" s || str_contains NUL s);
  clean_key := fun v =>
    match v with
    | PStr s => Ok (PStr (strip s))
    | _ => Raise AttributeError
    end;
  check_autoreject := fun _ => auto_reject;
  check_autosign := fun _ _ => auto_sign;
  pubkey_from_str := fun v =>
    match v with
    | PStr s => if String.eqb s "" then Raise InvalidKeyError else Ok (PStr s)
    | _ => Raise InvalidKeyError
    end;
  pubkey_from_file := fun path =>
    if pyeq path (PStr "/pki/minions/minion1") then Ok (PStr "PUB1") else Raise OSError;
  pub_encrypt := fun pub n data algo =>
    if supported algo
    then Ok (PList [PStr "rsa"; pub; PInt (Z.of_nat n); data])
    else Raise UnsupportedAlgorithm;
  pub_decrypt := fun pub tok =>
    match tok with
    | PList [PStr "signed"; k; m] => if pyeq k pub then Ok m else Raise ValueError
    | _ => Raise ValueError
    end;
  master_pub_str := PStr "MASTER-PUB";
  master_pubkey_signature := PNone;
  master_sign := fun data algo =>
    if supported algo then Ok (PList [PStr "sig"; data]) else Raise UnsupportedAlgorithm;
  master_sign_key_sign := fun data algo =>
    if supported algo then Ok (PList [PStr "sig"; data]) else Raise UnsupportedAlgorithm;
  master_decrypt := fun tok algo =>
    if supported algo then
      match tok with
      | PList [PStr "rsa"; PStr "MASTER-PUB"; _; m] => Ok m
      | _ => Raise ValueError
      end
    else Raise UnsupportedAlgorithm;
  master_encrypt := fun d => Ok (PList [PStr "priv"; d]);
  payload_dumps := fun v => PList [PStr "msgpack"; v];
  crypticle_loads := fun key data =>
    match data with
    | PList [PStr "aes"; k; obj] => if pyeq k key then Ok obj else Raise AuthenticationError
    | _ => Raise AuthenticationError
    end;
  crypticle_dumps := fun key n obj nonce =>
    match nonce with
    | PNone | PStr _ => Ok (PList [PStr "aes"; key; obj])
    | _ => Raise AttributeError
    end;
  generate_key_string := fun n => PList [PStr "key"; PInt (Z.of_nat n)];
  sha256_hexdigest := fun v =>
    match v with
    | PBytes _ => Ok (PList [PStr "sha256"; v])
    | _ => Raise TypeError
    end;
  b2a_base64 := fun v => Ok (PList [PStr "b64"; v]);
  format_token := fun a b => PStr "secret_|-token";
  py_format := fun v =>
    match v with
    | PStr s => s
    | PNone => "None"
    | PInt 5 => "5"
    | _ => "<value>"
    end;
  clean_join := fun dir id =>
    match dir, id with
    | PStr d, PStr i => Ok (PStr (d ++ "/minions/" ++ i))
    | _, _ => Raise SaltValidationError
    end;
  (** the con cache takes in the ids it does not hold yet *)
  put_cache := fun ids cached =>
    (cached ++ List.filter (fun x => negb (list_contains x cached)) ids)%list;
  (** the handler answers in clear with the payload it was given *)
  payload_handler := fun payload =>
    Ok (PDict [("seen", payload)], PDict [("fun", PStr "send_clear")])
|}.

Definition opts (max ttl : Z) : Opts := {|
  cluster_id := false;
  pki_dir := PStr "/pki";
  cluster_pki_dir := PStr "/cluster-pki";
  publish_session := 86400;
  request_server_ttl := ttl;
  max_minions := max;
  open_mode := false;
  auth_events := true;
  master_sign_pubkey := false;
  auth_mode := 1;
  publish_port := PInt 4505;
  con_cache := false
|}.

(** A worker whose crypticle holds [ck] while the shared secret is [secret],
    with the given key cache and connected minions. *)
Definition state (keys : list (string * string * PyVal)) (ck secret : PyVal)
           (connected : list PyVal) : State := {|
  cache := list_to_map keys;
  crypticle_key := ck;
  secrets_aes := secret;
  secrets_cluster_aes := PBytes "cluster-secret";
  sessions := ∅;
  session_files := ∅;
  clock := 1000;
  entropy := 0;
  con_cached := [];
  connected_ids := connected;
  trace := []
|}.

Definition key_record (pub state : string) : PyVal :=
  PDict [("pub", PStr pub); ("state", PStr state)].

Definition auth_load (id pub : string) : PyVal :=
  PDict [("cmd", PStr "_auth"); ("id", PStr id); ("pub", PStr pub)].


(** The same options with the con cache enabled. *)
Definition con_opts : Opts := {|
  cluster_id := false;
  pki_dir := PStr "/pki";
  cluster_pki_dir := PStr "/cluster-pki";
  publish_session := 86400;
  request_server_ttl := 0;
  max_minions := 0;
  open_mode := false;
  auth_events := true;
  master_sign_pubkey := false;
  auth_mode := 1;
  publish_port := PInt 4505;
  con_cache := true
|}.

(** The same options with [open_mode] on. *)
Definition open_opts : Opts := {|
  cluster_id := false;
  pki_dir := PStr "/pki";
  cluster_pki_dir := PStr "/cluster-pki";
  publish_session := 86400;
  request_server_ttl := 0;
  max_minions := 0;
  open_mode := true;
  auth_events := true;
  master_sign_pubkey := false;
  auth_mode := 1;
  publish_port := PInt 4505;
  con_cache := false
|}.

(** The collaborators of [E] with a handler that asks for an encrypted reply
    (["send"]) instead of a clear one. *)
Definition sending (E : Env) : Env := {|
  OAEP_SHA1 := OAEP_SHA1 E;
  PKCS1v15_SHA1 := PKCS1v15_SHA1 E;
  valid_id := valid_id E;
  clean_key := clean_key E;
  check_autoreject := check_autoreject E;
  check_autosign := check_autosign E;
  pubkey_from_str := pubkey_from_str E;
  pubkey_from_file := pubkey_from_file E;
  pub_encrypt := pub_encrypt E;
  pub_decrypt := pub_decrypt E;
  master_pub_str := master_pub_str E;
  master_pubkey_signature := master_pubkey_signature E;
  master_sign := master_sign E;
  master_sign_key_sign := master_sign_key_sign E;
  master_decrypt := master_decrypt E;
  master_encrypt := master_encrypt E;
  payload_dumps := payload_dumps E;
  crypticle_loads := crypticle_loads E;
  crypticle_dumps := crypticle_dumps E;
  generate_key_string := generate_key_string E;
  sha256_hexdigest := sha256_hexdigest E;
  b2a_base64 := b2a_base64 E;
  format_token := format_token E;
  py_format := py_format E;
  clean_join := clean_join E;
  put_cache := put_cache E;
  payload_handler := fun payload =>
    Ok (PDict [("seen", payload)], PDict [("fun", PStr "send")])
|}.

(** The token a minion holding the key on file as PUB1 signs. *)
Definition salt_token : PyVal :=
  PList [PStr "signed"; PStr "PUB1"; PBytes "salt"].


(** An [_auth] load as a signed request carries it, with the nonce [n1]. *)
Definition signed_auth_load (id pub : string) : list (string * PyVal) :=
  [("cmd", PStr "_auth"); ("id", PStr id); ("pub", PStr pub);
   ("nonce", PStr "n1")].

(** [{"ret": v, "nonce": "n1"}] as [env] serializes and signs it. *)
Definition signed_ret (v : PyVal) : PyVal :=
  let tosign := PList [PStr "msgpack"; PDict [("ret", v); ("nonce", PStr "n1")]] in
  PDict [("enc", PStr "clear"); ("load", tosign);
         ("sig", PList [PStr "sig"; tosign])].

End Scenario.

(** ** A concrete cluster node, with the same symbolic ciphertexts *)
Module ClusterScenario.
Import MasterPubServerChannel.

Definition env : Env := {|
  opts_id := "master1";
  unpack := fun payload =>
    match payload with
    | PList [PStr tag; data] => Ok (tag, data)
    | _ => Raise ValueError
    end;
  master_key_decrypt := fun aes =>
    match aes with
    | PList [PStr "rsa"; PStr "master1"; k] => Ok k
    | _ => Raise ValueError
    end;
  sha256_hexdigest := fun v => Ok (PList [PStr "sha256"; v]);
  master_key_fetch := fun peer =>
    if String.eqb peer "peer1" then PStr "peer1.pub" else PNone;
  key_decrypt := fun key sig =>
    match sig with
    | PList [PStr "priv"; k; d] => if pyeq k key then Ok d else Raise ValueError
    | _ => Raise ValueError
    end;
  crypticle_loads := fun key data =>
    match data with
    | PList [PStr "aes"; k; obj] => if pyeq k key then Ok obj else Raise AuthenticationError
    | _ => Raise AuthenticationError
    end;
  transport_publish_payload := fun _ _ => Ok tt;
  send_aes_key_event := Ok tt
|}.

(** The state [_publish_daemon] builds for [cluster_peers = ["peer1"]]. *)
Definition init : State := {|
  peer_keys := ∅;
  auth_errors := {["peer1" := []]};
  published := [];
  key_events := 0
|}.

(** An event forwarded by peer1: tag [cluster/event/peer1/salt/job/1], body
    encrypted under peer1's key [k1]. *)
Definition job_event : PyVal :=
  PList [PStr "cluster/event/peer1/salt/job/1";
         PList [PStr "aes"; PBytes "k1";
                PDict [("event_payload", PDict [("jid", PInt 1)])]]].

(** peer1's key-exchange message for this master, carrying [k1]. *)
Definition key_exchange : PyVal :=
  PList [PStr "cluster/peer/peer1";
         PDict [("peer_id", PStr "peer1");
                ("peers",
                 PDict [("master1",
                         PDict [("aes", PList [PStr "rsa"; PStr "master1"; PBytes "k1"]);
                                ("sig", PList [PStr "priv"; PStr "peer1.pub";
                                               PList [PStr "sha256"; PBytes "k1"]])])])]].


(** peer1 as the sender of what [env] receives: its secret is [k1], its only
    peer is master1, whose key it has on file; [tagify] joins base, prefix
    and suffix with ["/"]. *)
Definition sender : Publisher.Env := {|
  Publisher.opts_id := "peer1";
  Publisher.cluster_peers := ["master1"];
  Publisher.master_key_fetch := fun peer =>
    if String.eqb peer "master1" then PStr "master1" else PNone;
  Publisher.secret := PBytes "k1";
  Publisher.sha256_hexdigest := fun v => Ok (PList [PStr "sha256"; v]);
  Publisher.pub_encrypt := fun pub n data => Ok (PList [PStr "rsa"; pub; data]);
  Publisher.master_key_encrypt := fun d =>
    Ok (PList [PStr "priv"; PStr "peer1.pub"; d]);
  Publisher.tagify := fun suffix prefix base => base ++ "/" ++ prefix ++ "/" ++ suffix;
  Publisher.fire_event := fun _ _ => Ok true;
  Publisher.unpack := fun payload =>
    match payload with
    | PList [PStr tag; data] => Ok (tag, data)
    | _ => Raise ValueError
    end;
  Publisher.pack := fun tag data => PList [PStr tag; data];
  Publisher.crypticle_dumps := fun key n obj => Ok (PList [PStr "aes"; key; obj]);
  Publisher.pushers := ["master1.example"]
|}.

(** The state of [sender] before anything was sent. *)
Definition sender_init : Publisher.State :=
  {| Publisher.entropy := 0; Publisher.fired := []; Publisher.tasks := [] |}.

End ClusterScenario.

(** ** A concrete publish server for the presence callback *)
Module PresenceScenario.

(** The master's key is [s0]; a ciphertext is [["aes", key, obj]]. *)
Definition crypticle_loads (ct : PyVal) : Res PyVal :=
  match ct with
  | PList [PStr "aes"; PBytes "s0"; obj] => Ok obj
  | _ => Raise AuthenticationError
  end.

Definition decode_embedded_strs (v : PyVal) : PyVal := v.

(** Only minion1, with the token signed by its key, is verified. *)
Definition verify_minion (i : string) (tok : PyVal) : bool :=
  String.eqb i "minion1" && pyeq tok Scenario.salt_token.

(** What minion1 sends on connecting. *)
Definition hello : PyVal :=
  PDict [("enc", PStr "aes");
         ("load", PList [PStr "aes"; PBytes "s0";
                         PDict [("id", PStr "minion1");
                                ("tok", Scenario.salt_token)]])].

End PresenceScenario.

(** ** A concrete publish server: signing on, a transport with topics *)
Module PublishScenario.
Import PubServerChannel.

Definition env : Publishing.Env := {|
  Publishing.cluster_id := false;
  Publishing.aes_key := PBytes "s0";
  Publishing.get_serial := fun n => PInt (Z.of_nat (S n));
  Publishing.crypticle_dumps := fun key n obj => Ok (PList [PStr "aes"; key; obj]);
  Publishing.sign_pub_messages := true;
  Publishing.publish_signing_algorithm := PStr "PKCS1v15-SHA224";
  Publishing.master_key_sign := fun data algo => Ok (PList [PStr "sig"; data]);
  Publishing.payload_dumps := fun v => PList [PStr "msgpack"; v];
  Publishing.payload_loads := fun v =>
    match v with
    | PList [PStr "msgpack"; x] => Ok x
    | _ => Raise ValueError
    end;
  Publishing.topic_support := true;
  Publishing.check_minions := fun tgt tgt_type =>
    Ok (PDict [("minions", PList [PStr "web1"; PStr "web2"])]);
  Publishing.transport_publish_payload := fun _ _ => Ok PNone
|}.

Definition init : Publishing.State :=
  {| Publishing.serials := 0; Publishing.entropy := 0; Publishing.sent := [] |}.

(** A job for the minions matching [web*]. *)
Definition job : list (string * PyVal) :=
  [("tgt", PStr "web*"); ("tgt_type", PStr "glob"); ("fun", PStr "test.ping")].

End PublishScenario.



(** * Properties *)

(** ** Presence tracking *)
Module PubServerChannelFacts.
Import PubServerChannel.

Section Presence.
Variable presence_events : bool.

Abbreviation add := (_add_client_present presence_events).
Abbreviation remove := (_remove_client_present presence_events).
Abbreviation run := (PubServerChannel.run presence_events).

Lemma no_empty_entry_init : no_empty_entry init.
Proof. intros i clients H. cbn in H. by rewrite lookup_empty in H. Qed.

Lemma add_preserves client st :
  no_empty_entry st → no_empty_entry (add client st).
Proof.
  intros Hinv i clients. unfold _add_client_present.
  destruct (present st !! id_ client) as [cs|] eqn:E; cbn;
    (destruct (decide (id_ client = i)) as [->|Hne];
     [rewrite lookup_insert_eq | rewrite lookup_insert_ne by done]).
  - intros [= <-]. set_solver.
  - apply Hinv.
  - intros [= <-]. set_solver.
  - apply Hinv.
Qed.

Lemma remove_preserves client st :
  no_empty_entry st → no_empty_entry (remove client st).
Proof.
  intros Hinv i clients. unfold _remove_client_present.
  destruct (id_ client) as [s|] eqn:Eid; [|apply Hinv].
  destruct (present st !! Some s) as [cs|] eqn:E; [|apply Hinv].
  destruct (decide (handle client ∈ cs)); [|apply Hinv].
  destruct (size (cs ∖ {[handle client]}) =? 0)%nat eqn:Esz; cbn.
  - destruct (decide (Some s = i)) as [<-|Hne].
    + by rewrite lookup_delete_eq.
    + rewrite lookup_delete_ne by done. apply Hinv.
  - destruct (decide (Some s = i)) as [<-|Hne].
    + rewrite lookup_insert_eq. intros [= <-] Hemp.
      rewrite Hemp, size_empty in Esz. discriminate.
    + rewrite lookup_insert_ne by done. apply Hinv.
Qed.

Lemma run_preserves cs : ∀ st, no_empty_entry st → no_empty_entry (run cs st).
Proof.
  induction cs as [|c cs IH]; intros st Hinv; [done|].
  cbn. apply IH. destruct c; [by apply add_preserves | by apply remove_preserves].
Qed.

Lemma key_iff_handle st i :
  no_empty_entry st → (i ∈ dom (present st) ↔ ∃ h, h ∈ handles st i).
Proof.
  intros Hinv. unfold handles. rewrite elem_of_dom. split.
  - intros [cs Hcs]. rewrite Hcs. cbn.
    apply set_choose_L. by eapply Hinv.
  - intros [h Hh]. destruct (present st !! i); [done|]. set_solver.
Qed.

(** Adding a handle that is already recorded changes nothing, events
    included. *)
Lemma add_existing client st :
  handle client ∈ handles st (id_ client) → add client st = st.
Proof.
  unfold handles, _add_client_present. intros Hin.
  destruct (present st !! id_ client) as [cs|] eqn:E; cbn in Hin; [|set_solver].
  assert (cs ∪ {[handle client]} = cs) as -> by set_solver.
  rewrite insert_id by done. by destruct st.
Qed.

(** Removing for a client without id, with an unknown id, or whose handle
    is not recorded changes nothing, events included. *)
Lemma remove_absent client st :
  handle client ∉ handles st (id_ client) → remove client st = st.
Proof.
  unfold handles, _remove_client_present. intros Hin.
  destruct (id_ client) as [s|]; [|done].
  destruct (present st !! Some s) as [cs|] eqn:E; cbn in Hin; [|done].
  by destruct (decide (handle client ∈ cs)).
Qed.

Lemma remove_no_id client st : id_ client = None → remove client st = st.
Proof. unfold _remove_client_present. by intros ->. Qed.

(** Removing a recorded handle takes it out of the identity's set, and the
    identity stops being a key exactly when that leaves the set empty. *)
Lemma remove_present client st :
  id_ client ≠ None →
  handle client ∈ handles st (id_ client) →
  handles (remove client st) (id_ client)
    = handles st (id_ client) ∖ {[handle client]}
  ∧ (id_ client ∉ dom (present (remove client st))
     ↔ handles st (id_ client) ∖ {[handle client]} = ∅).
Proof.
  unfold handles, _remove_client_present. intros Hid Hin.
  destruct (id_ client) as [s|]; [|done].
  destruct (present st !! Some s) as [cs|] eqn:E; cbn in Hin; [|set_solver].
  destruct (decide (handle client ∈ cs)); [|done]. cbn.
  destruct (size (cs ∖ {[handle client]}) =? 0)%nat eqn:Esz; cbn.
  - apply Nat.eqb_eq, size_empty_iff in Esz. apply leibniz_equiv in Esz.
    rewrite lookup_delete_eq. cbn. split; [done|].
    rewrite dom_delete_L. set_solver.
  - rewrite lookup_insert_eq. cbn. split; [done|].
    rewrite dom_insert_L. split; [set_solver|].
    intros Hemp. rewrite Hemp, size_empty in Esz. discriminate.
Qed.

(** Adding records the handle under the client's identity, whether or not
    the identity was present. *)
Lemma add_records client st :
  handles (add client st) (id_ client)
  = handles st (id_ client) ∪ {[handle client]}.
Proof.
  unfold handles, _add_client_present.
  destruct (present st !! id_ client) as [cs|] eqn:E; cbn;
    rewrite lookup_insert_eq; cbn; [done | set_solver].
Qed.

(** Neither callback touches the handles of another identity. *)
Lemma add_other client st j :
  j ≠ id_ client → handles (add client st) j = handles st j.
Proof.
  unfold handles, _add_client_present. intros Hne.
  destruct (present st !! id_ client) as [cs|] eqn:E; cbn;
    by rewrite lookup_insert_ne.
Qed.

Lemma remove_other client st j :
  j ≠ id_ client → handles (remove client st) j = handles st j.
Proof.
  unfold handles, _remove_client_present. intros Hne.
  destruct (id_ client) as [s|]; [|done].
  destruct (present st !! Some s) as [cs|] eqn:E; [|done].
  destruct (decide (handle client ∈ cs)); [|done].
  destruct (size (cs ∖ {[handle client]}) =? 0)%nat; cbn.
  - by rewrite lookup_delete_ne.
  - by rewrite lookup_insert_ne.
Qed.

(** C7.  After any sequence of add/remove callbacks on a fresh publish
    channel, an identity is a key of the presence map if and only if some
    handle is recorded under it; adding a handle already recorded is a
    no-op; removing for a client whose id is [None] or unknown, or whose
    handle is not recorded, is a no-op; removing a recorded handle takes it
    out of the identity's set and deletes the identity's entry exactly when
    that set becomes empty; adding records the handle under the client's
    identity, next to the handles already there; and neither callback
    changes the handles recorded under another identity. *)
Theorem presence_set_consistency (cs : list Callback) :
  let st := run cs init in
  (∀ i, i ∈ dom (present st) ↔ ∃ h, h ∈ handles st i)
  ∧ (∀ client, handle client ∈ handles st (id_ client) → add client st = st)
  ∧ (∀ client, id_ client = None ∨ handle client ∉ handles st (id_ client) →
               remove client st = st)
  ∧ (∀ client, id_ client ≠ None → handle client ∈ handles st (id_ client) →
       handles (remove client st) (id_ client)
         = handles st (id_ client) ∖ {[handle client]}
       ∧ (id_ client ∉ dom (present (remove client st))
          ↔ handles st (id_ client) ∖ {[handle client]} = ∅))
  ∧ (∀ client,
       handles (add client st) (id_ client)
       = handles st (id_ client) ∪ {[handle client]})
  ∧ (∀ client j, j ≠ id_ client →
       handles (add client st) j = handles st j
       ∧ handles (remove client st) j = handles st j).
Proof.
  intros st. split; [|split; [|split; [|split; [|split]]]].
  - intros i. apply key_iff_handle, run_preserves, no_empty_entry_init.
  - intros client Hin. by apply add_existing.
  - intros client [Hn|Hn]; [by apply remove_no_id | by apply remove_absent].
  - intros client Hid Hin. by apply remove_present.
  - intros client. apply add_records.
  - intros client j Hne. split; [by apply add_other | by apply remove_other].
Qed.

End Presence.

(** The presence map at work, with presence events on: minion1 connects
    twice (handles 1 and 2) and minion2 once (handle 3); then handle 1 goes,
    then handle 2. *)
Lemma presence_set_consistency_witness :
  let m1 := Some "minion1" in
  let m2 := Some "minion2" in
  let c1 := {| handle := 1; id_ := m1 |} in
  let c2 := {| handle := 2; id_ := m1 |} in
  let c3 := {| handle := 3; id_ := m2 |} in
  let s1 := run true [Add c1; Add c3] init in
  let s2 := run true [Add c1; Add c3; Add c2] init in
  let s3 := run true [Add c1; Add c3; Add c2; Remove c1] init in
  let s4 := run true [Add c1; Add c3; Add c2; Remove c1; Remove c2] init in
  handles s2 m1 = handles s1 m1 ∪ {[2%nat]}
  ∧ handles s2 m1 = {[1%nat]} ∪ {[2%nat]}
  ∧ handles s2 m2 = handles s1 m2
  ∧ m1 ∈ dom (present s2)
  ∧ handles s3 m1 = handles s2 m1 ∖ {[1%nat]}
  ∧ m1 ∈ dom (present s3)
  ∧ handles s3 m2 = handles s2 m2
  ∧ (m1 ∉ dom (present s4))
  ∧ m2 ∈ dom (present s4).
Proof.
  intros m1 m2 c1 c2 c3 s1 s2 s3 s4.
  destruct (presence_set_consistency true [Add c1; Add c3])
    as (_ & _ & _ & _ & Hrec1 & Hoth1).
  destruct (presence_set_consistency true [Add c1; Add c3; Add c2])
    as (Hkey2 & _ & _ & Hdel2 & _ & Hoth2).
  destruct (presence_set_consistency true [Add c1; Add c3; Add c2; Remove c1])
    as (Hkey3 & _ & _ & Hdel3 & _ & _).
  destruct (presence_set_consistency true
              [Add c1; Add c3; Add c2; Remove c1; Remove c2])
    as (Hkey4 & _).
  assert (H1 : handles s1 m1 = {[1%nat]}) by (vm_compute; reflexivity).
  assert (H2 : handles s2 m1 = handles s1 m1 ∪ {[2%nat]}) by exact (Hrec1 c2).
  assert (H3 : handles s3 m1 = handles s2 m1 ∖ {[1%nat]}).
  { refine (proj1 (Hdel2 c1 _ _)); [discriminate|].
    change (1%nat ∈ handles s2 m1). rewrite H2, H1. set_solver. }
  split; [exact H2|].
  split; [rewrite H2, H1; set_solver|].
  split; [exact (proj1 (Hoth1 c2 m2 ltac:(discriminate)))|].
  split; [apply Hkey2; exists 1%nat; change (1%nat ∈ handles s2 m1);
          rewrite H2, H1; set_solver|].
  split; [exact H3|].
  split; [apply Hkey3; exists 2%nat; change (2%nat ∈ handles s3 m1);
          rewrite H3, H2, H1; set_solver|].
  split; [exact (proj2 (Hoth2 c1 m2 ltac:(discriminate)))|].
  split.
  - refine (proj2 (proj2 (Hdel3 c2 _ _)) _); [discriminate| |].
    + change (2%nat ∈ handles s3 m1). rewrite H3, H2, H1. set_solver.
    + change (handles s3 m1 ∖ {[2%nat]} = ∅). rewrite H3, H2, H1. set_solver.
  - apply Hkey4. exists 3%nat. vm_compute. set_solver.
Defined.

(** *** Presence events and the presence callback *)
Section PresenceEvents.
Variable presence_events : bool.
Variable crypticle_loads : PyVal → Res PyVal.
Variable decode_embedded_strs : PyVal → PyVal.
Variable verify_minion : string → PyVal → bool.

Abbreviation step := (PubServerChannel.step presence_events).

(** X19.  Presence events follow the keys of the presence map: a callback
    that leaves the set of present identities as it was fires nothing; one
    that makes an identity appear (its first connection) or disappear (its
    last connection gone) fires, when presence events are enabled, one
    [change] event naming that identity as new or lost and one [present]
    event listing exactly the identities present afterwards. *)
Theorem presence_events_track_membership c st :
  let st' := step st c in
  (dom (present st') = dom (present st) → events st' = events st)
  ∧ (∀ i, i ∈ dom (present st') → i ∉ dom (present st) →
       events st'
       = (events st ++ if presence_events
                       then [PresenceChange [i] [];
                             PresencePresent (dom (present st'))]
                       else [])%list)
  ∧ (∀ i, i ∈ dom (present st) → i ∉ dom (present st') →
       events st'
       = (events st ++ if presence_events
                       then [PresenceChange [] [i];
                             PresencePresent (dom (present st'))]
                       else [])%list).
Proof.
  clear crypticle_loads decode_embedded_strs verify_minion.
  intros st'. subst st'.
  destruct c as [client|client]; cbn;
    unfold _add_client_present, _remove_client_present, fire.
  - destruct (present st !! id_ client) as [cs|] eqn:Hl; cbn.
    + assert (Hin : id_ client ∈ dom (present st)) by (by apply elem_of_dom).
      rewrite dom_insert_L. split; [done|]. split; intros i; set_solver.
    + assert (Hnin : id_ client ∉ dom (present st)) by (by apply not_elem_of_dom).
      rewrite dom_insert_L. split; [set_solver|]. split.
      * intros i Hi Hni.
        destruct (decide (i = id_ client)) as [->|Hne]; [done | set_solver].
      * set_solver.
  - destruct (id_ client) as [s|] eqn:Hid; [|split; [done|split; set_solver]].
    destruct (present st !! Some s) as [cs|] eqn:Hl; [|split; [done|split; set_solver]].
    destruct (decide (handle client ∈ cs)); [|split; [done|split; set_solver]].
    assert (Hin : Some s ∈ dom (present st)) by (by apply elem_of_dom).
    destruct (size (cs ∖ {[handle client]}) =? 0)%nat; cbn.
    + rewrite dom_delete_L. split; [set_solver|]. split; [set_solver|].
      intros i Hi Hni. destruct (decide (i = Some s)) as [->|Hne]; [done | set_solver].
    + rewrite dom_insert_L. split; [done|]. split; intros i; set_solver.
Qed.

(** X20.  A connection that comes and goes leaves the presence map as it
    found it: adding a client whose handle was not yet recorded under its id
    and removing it again restores [self.present]. *)
Theorem add_then_remove_restores client st :
  no_empty_entry st →
  id_ client ≠ None →
  handle client ∉ handles st (id_ client) →
  present (_remove_client_present presence_events client
             (_add_client_present presence_events client st))
  = present st.
Proof.
  clear crypticle_loads decode_embedded_strs verify_minion.
  unfold handles, _add_client_present, _remove_client_present, fire.
  intros Hinv Hid Hnin.
  destruct (id_ client) as [s|] eqn:Hi; [|done].
  destruct (present st !! Some s) as [cs|] eqn:Hl; cbn in Hnin |- *.
  - rewrite lookup_insert_eq.
    destruct (decide (handle client ∈ cs ∪ {[handle client]})); [|set_solver].
    assert ((cs ∪ {[handle client]}) ∖ {[handle client]} = cs) as -> by set_solver.
    destruct (size cs =? 0)%nat eqn:Hsz; cbn.
    + apply Nat.eqb_eq, size_empty_iff in Hsz. apply leibniz_equiv in Hsz.
      by destruct (Hinv _ _ Hl).
    + rewrite insert_insert_eq. by apply insert_id.
  - rewrite lookup_insert_eq.
    destruct (decide (handle client ∈ ({[handle client]} : gset nat))); [|set_solver].
    assert (({[handle client]} : gset nat) ∖ {[handle client]} = ∅) as -> by set_solver.
    rewrite size_empty. cbn. rewrite delete_insert_eq. by apply delete_id.
Qed.

(** X21.  The presence callback records a subscriber only when its message
    is ["aes"], its load decrypts under the master's key, and [verify_minion]
    accepts the id and token found in it; the subscriber then carries that id.
    In every other case that returns, the subscriber and the presence map are
    left as they were. *)
Theorem presence_callback_sound subscriber msg st subscriber' st' :
  presence_callback presence_events crypticle_loads decode_embedded_strs
                    verify_minion subscriber msg st
  = Ok (subscriber', st') →
  (subscriber' = subscriber ∧ st' = st)
  ∨ (∃ ct load0 i tok,
       subscript msg "enc" = Ok (PStr "aes")
       ∧ subscript msg "load" = Ok ct
       ∧ crypticle_loads ct = Ok load0
       ∧ subscript (decode_embedded_strs load0) "id" = Ok (PStr i)
       ∧ subscript (decode_embedded_strs load0) "tok" = Ok tok
       ∧ verify_minion i tok = true
       ∧ subscriber' = {| handle := handle subscriber; id_ := Some i |}
       ∧ st' = _add_client_present presence_events subscriber' st).
Proof.
  unfold presence_callback.
  destruct (subscript msg "enc") as [enc|e] eqn:Henc; [|discriminate].
  destruct (pyeq enc (PStr "aes")) eqn:Haes; cbn; [|intros [= <- <-]; by left].
  destruct (subscript msg "load") as [ct|e] eqn:Hct; [|discriminate].
  destruct (crypticle_loads ct) as [load0|e] eqn:Hloads; [|discriminate].
  destruct (subscript (decode_embedded_strs load0) "id") as [id|e] eqn:Hid;
    [|discriminate].
  destruct (subscript (decode_embedded_strs load0) "tok") as [tok|e] eqn:Htok;
    [|destruct id; discriminate].
  destruct id as [| | |i| | |]; try (intros [= <- <-]; by left).
  destruct (verify_minion i tok) eqn:Hv; cbn; [|intros [= <- <-]; by left].
  intros [= <- <-]. right. exists ct, load0, i, tok.
  destruct enc; try discriminate. cbn in Haes. apply String.eqb_eq in Haes as ->.
  done.
Qed.

End PresenceEvents.

(** A second connection of minion1 comes and goes. *)
Lemma add_then_remove_restores_witness :
  let st := {| present := {[Some "minion1" := {[3%nat]}]}; events := [] |} in
  let client := {| handle := 7; id_ := Some "minion1" |} in
  present (_remove_client_present true client (_add_client_present true client st))
  = present st.
Proof.
  intros st client.
  apply (add_then_remove_restores true client st).
  - intros i clients Hl. subst st. cbn in Hl.
    apply lookup_singleton_Some in Hl as [_ <-]. set_solver.
  - discriminate.
  - unfold handles. subst st client. cbn. rewrite lookup_singleton_eq. cbn.
    set_solver.
Defined.

(** minion1 identifies itself on connection 7. *)
Lemma presence_callback_sound_witness :
  let subscriber := {| handle := 7; id_ := None |} in
  let subscriber' := {| handle := 7; id_ := Some "minion1" |} in
  let st' := _add_client_present true subscriber' init in
  (subscriber' = subscriber ∧ st' = init)
  ∨ (∃ ct load0 i tok,
       subscript PresenceScenario.hello "enc" = Ok (PStr "aes")
       ∧ subscript PresenceScenario.hello "load" = Ok ct
       ∧ PresenceScenario.crypticle_loads ct = Ok load0
       ∧ subscript (PresenceScenario.decode_embedded_strs load0) "id" = Ok (PStr i)
       ∧ subscript (PresenceScenario.decode_embedded_strs load0) "tok" = Ok tok
       ∧ PresenceScenario.verify_minion i tok = true
       ∧ subscriber' = {| handle := handle subscriber; id_ := Some i |}
       ∧ st' = _add_client_present true subscriber' init).
Proof.
  intros subscriber subscriber' st'.
  exact (presence_callback_sound true PresenceScenario.crypticle_loads
           PresenceScenario.decode_embedded_strs PresenceScenario.verify_minion
           subscriber PresenceScenario.hello init subscriber' st' eq_refl).
Defined.


End PubServerChannelFacts.

(** ** Cluster relay *)
Module MasterPubServerChannelFacts.
Import MasterPubServerChannel.

Section Relay.
Variable E : Env.

(** Extraction only reads the state. *)
Lemma try_extract_state peer_id data st :
  snd (try_extract E peer_id data st) = st.
Proof.
  unfold try_extract, try_except, call, method, extract_cluster_event,
    bind, gets, lift, next, return_, throw.
  destruct (peer_keys st !! peer_id) as [k|]; cbn; [|done].
  destruct (crypticle_loads E k data) as [loaded|e]; cbn.
  - destruct (subscript loaded "event_payload") as [ev|e]; cbn.
    + destruct (setitem ev "__peer_id" (PStr peer_id)) as [ev'|e]; cbn; [done|].
      by destruct e.
    + by destruct e.
  - by destruct e.
Qed.

(** Every event the loop publishes goes out under the tag parsed from the
    message being handled, whatever tag it was buffered with. *)
Lemma drain_published_tags tag peer queue : ∀ st,
  ∃ evs, published (snd (drain E tag peer queue st)) = (published st ++ evs)%list
         ∧ Forall (fun ev => fst ev = snd (parse_cluster_tag tag)) evs.
Proof.
  induction queue as [|[key data] rest IH]; intros st.
  - exists []. cbn. by rewrite app_nil_r.
  - cbn [drain]. destruct (parse_cluster_tag tag) as [peer_id parsed_tag] eqn:Etag.
    unfold bind at 1. unfold modify at 1. cbn [snd].
    unfold bind at 1.
    pose proof (try_extract_state peer_id data (set_queue peer rest st)) as Hst.
    destruct (try_extract E peer_id data (set_queue peer rest st)) as [[r|r|e] st1];
      cbn in Hst; subst st1; cbn [snd]; try (exists []; cbn; by rewrite app_nil_r).
    destruct r as [event_data|].
    + unfold bind at 1, publish_payload, bind at 1, lift, modify.
      destruct (transport_publish_payload E parsed_tag event_data) as [[]|e]; cbn.
      * destruct (IH (add_published parsed_tag event_data (set_queue peer rest st)))
          as (evs & Heq & Hall).
        exists ((parsed_tag, event_data) :: evs). split.
        -- rewrite Heq. cbn. by rewrite <- app_assoc.
        -- by constructor.
      * exists []. by rewrite app_nil_r.
    + unfold bind at 1, next.
      destruct (IH (set_queue peer rest st)) as (evs & Heq & Hall).
      by exists evs.
Qed.

End Relay.

Import ClusterScenario.

(** C9, the code at a concrete run.  An event from peer1 arrives before
    peer1's key is known and is buffered under its tag
    [cluster/event/peer1/salt/job/1]; when peer1's key then arrives, the queue
    is emptied but the event is not republished: the loop parses the tag of
    the key-exchange message ([cluster/peer/peer1]), not the buffered tag. *)
Theorem buffered_event_lost_on_key_arrival :
  let st1 := snd (handle_pool_publish env job_event init) in
  let st2 := snd (handle_pool_publish env key_exchange st1) in
  auth_errors st1 !! "peer1"
    = Some [("cluster/event/peer1/salt/job/1",
             PList [PStr "aes"; PBytes "k1";
                    PDict [("event_payload", PDict [("jid", PInt 1)])]])]
  ∧ parse_cluster_tag "cluster/event/peer1/salt/job/1" = ("peer1", "salt/job/1")
  ∧ parse_cluster_tag "cluster/peer/peer1" = ("cluster", "cluster/peer/peer1")
  ∧ peer_keys st2 !! "peer1" = Some (PBytes "k1")
  ∧ auth_errors st2 !! "peer1" = Some []
  ∧ published st2 = [].
Proof. vm_compute. repeat split; reflexivity. Qed.

End MasterPubServerChannelFacts.

(** ** Request dispatcher and authentication *)
Module ReqServerChannelFacts.
Import ReqServerChannel.

(** *** Dictionaries *)
Lemma dict_get_set_eq k v d : dict_get k (dict_set k v d) = Some v.
Proof.
  induction d as [|[k' v'] d IH]; cbn.
  - by rewrite String.eqb_refl.
  - destruct (String.eqb k k') eqn:Ek; cbn; rewrite Ek; [done | apply IH].
Qed.

Lemma dict_get_set_ne k k' v d :
  String.eqb k k' = false → dict_get k (dict_set k' v d) = dict_get k d.
Proof.
  intros Hne. induction d as [|[k2 v2] d IH]; cbn.
  - by rewrite Hne.
  - destruct (String.eqb k' k2) eqn:Ek; cbn.
    + apply String.eqb_eq in Ek as <-. by rewrite Hne.
    + destruct (String.eqb k k2); [done | apply IH].
Qed.

Lemma dict_get_del_eq k d : dict_get k (dict_del k d) = None.
Proof.
  induction d as [|[k' v'] d IH]; cbn; [done|].
  destruct (String.eqb k k') eqn:Ek; cbn; [apply IH | by rewrite Ek].
Qed.

Lemma dict_get_del_ne k k' d :
  String.eqb k k' = false → dict_get k (dict_del k' d) = dict_get k d.
Proof.
  intros Hne. induction d as [|[k2 v2] d IH]; cbn; [done|].
  destruct (String.eqb k' k2) eqn:Ek; cbn.
  - apply String.eqb_eq in Ek as <-. by rewrite Hne.
  - destruct (String.eqb k k2); [done | apply IH].
Qed.

Lemma truthy_dict_set k v d : truthy (PDict (dict_set k v d)) = true.
Proof. destruct d as [|[k' v'] d]; cbn; [done|]. by destruct (String.eqb k k'). Qed.

Lemma dict_set_set k v w d : dict_set k v (dict_set k w d) = dict_set k v d.
Proof.
  induction d as [|[k' x] d IH]; cbn.
  - by rewrite String.eqb_refl.
  - destruct (String.eqb k k') eqn:Hk; cbn; rewrite Hk; [done | by rewrite IH].
Qed.

Lemma pyeq_str_true v s : pyeq v (PStr s) = true → v = PStr s.
Proof.
  destruct v; cbn; try discriminate. intros H. by apply String.eqb_eq in H as ->.
Qed.

(** *** Reading a run of a body *)
Lemma bind_next {S R A B} (m : M S R A) (f : A → M S R B) s a s' :
  m s = (Next a, s') → bind m f s = f a s'.
Proof. unfold bind. by intros ->. Qed.

Lemma bind_return {S R A B} (m : M S R A) (f : A → M S R B) s r s' :
  m s = (Return r, s') → bind m f s = (Return r, s').
Proof. unfold bind. by intros ->. Qed.

Lemma bind_throw {S R A B} (m : M S R A) (f : A → M S R B) s e s' :
  m s = (Throw e, s') → bind m f s = (Throw e, s').
Proof. unfold bind. by intros ->. Qed.

Lemma bind_next_inv {S R A B} (m : M S R A) (f : A → M S R B) s b s' :
  bind m f s = (Next b, s') → ∃ a s1, m s = (Next a, s1) ∧ f a s1 = (Next b, s').
Proof.
  unfold bind. destruct (m s) as [[a|r|e] s1]; try discriminate. eauto.
Qed.

Lemma when_next_inv {S R} c (body : M S R unit) s u s' :
  when c body s = (Next u, s') →
  (c = false ∧ s' = s) ∨ (c = true ∧ body s = (Next u, s')).
Proof.
  unfold when, next. destruct c; [by right|]. intros [= <- <-]. by left.
Qed.

Lemma lift_next_inv {S R A} (r : Res A) (s : S) a s' :
  lift (R:=R) r s = (Next a, s') → r = Ok a ∧ s' = s.
Proof. unfold lift. destruct r; intros [= <- <-]; done. Qed.

Lemma call_next_inv {S R A} (f : S → Res A * S) s a s' :
  call (R:=R) f s = (Next a, s') → f s = (Ok a, s').
Proof.
  unfold call. destruct (f s) as [[x|e] s1]; intros [= <- <-]; done.
Qed.

(** Case analysis on the innermost scrutinee of a run kept in [H]. *)
Ltac break_in H :=
  let rec go t :=
    lazymatch t with
    | context [match ?x with _ => _ end] => go x
    | _ => destruct t eqn:?
    end in
  match type of H with
  | context [match ?x with _ => _ end] => go x
  end; cbn in H.

Ltac run_body :=
  unfold bind, next, return_, throw, lift, gets, modify, when, call, method,
    try_except, any_exception; cbn.

Import Scenario.

(** Side conditions of the scenarios below. *)
Ltac scenario_side :=
  first [ reflexivity | discriminate | (left; apply Z.le_refl)
        | (intros; discriminate) | (cbn; lia) ].

(** Reading a reply off [answers] or [accepts]: the request not signed, or
    signed with the nonce [n1]. *)
Ltac answered_clear H :=
  let Hclear := fresh in destruct H as [Hclear _]; exact (Hclear eq_refl).

Ltac answered_signed H :=
  let Hsigned := fresh in
  let Hsg := fresh in
  destruct H as (_ & _ & Hsigned);
  destruct (Hsigned eq_refl (PStr "n1") eq_refl) as [Hsg _];
  exact (Hsg _ eq_refl).

Ltac scenario_serviceable :=
  exists (PStr "PUB1"), (PBytes "s0"),
    (PList [PStr "sha256"; PBytes "s0"]),
    (PList [PStr "priv"; PList [PStr "sha256"; PBytes "s0"]]);
  split; [reflexivity|]; split; [intros n data; eexists; reflexivity|];
  split; [intros H; discriminate H|];
  split; [intros t H; vm_compute in H; discriminate H|];
  split; [reflexivity|]; split; [reflexivity|]; split; [reflexivity|];
  eexists; reflexivity.


(** C4, the code at a concrete payload.  An [_auth] request in clear whose
    load has no [pub] field makes [handle_message] raise [KeyError]: the call
    of [_auth] is outside every [try], and [_auth] reads [load["pub"]]
    unguarded. *)
Theorem auth_without_pub_raises :
  handle_message (opts 0 0) (env false false)
    (PDict [("enc", PStr "clear");
            ("load", PDict [("cmd", PStr "_auth"); ("id", PStr "minion1")])])
    (state [] (PBytes "s0") (PBytes "s0") [])
  = (Raise (KeyError "pub"), state [] (PBytes "s0") (PBytes "s0") []).
Proof. vm_compute. reflexivity. Qed.

(** The same for a signed ([version] 2) request without [nonce], once the
    identity's key is rejected: the reply needs [load["nonce"]]. *)
Lemma auth_without_nonce_raises :
  fst (handle_message (opts 0 0) (env false false)
         (PDict [("enc", PStr "clear"); ("version", PInt 2);
                 ("load", auth_load "minion1" "PUB1")])
         (state [("keys", "minion1", key_record "PUB1" "rejected")]
                (PBytes "s0") (PBytes "s0") []))
  = Raise (KeyError "nonce").
Proof. vm_compute. reflexivity. Qed.

Section Dispatcher.
Variable O : Opts.
Variable E : Env.

(** C5.  A version <= 2 ["aes"] payload whose decryption under the cached
    key fails with [AuthenticationError]: the shared secret is read again;
    if it equals the cached key there is no second decryption (the trace
    holds the one attempt) and the reply is ["bad load"]; if it differs the
    crypticle is rebuilt on it and the decryption is tried exactly once
    more (the trace holds the two attempts), and a failure of the retry,
    whatever its kind, is answered with ["bad load"]. *)
Theorem stale_secret_self_heal d data st :
  dict_get "enc" d = Some (PStr "aes") →
  dict_get "load" d = Some data →
  py_gt (default (PInt 0) (dict_get "version" d)) 2 = Ok false →
  crypticle_loads E (crypticle_key st) data = Raise AuthenticationError →
  let version := default (PInt 0) (dict_get "version" d) in
  let ck := crypticle_key st in
  let cur := aes_key O st in
  let st1 := log (CrypticleLoads ck data) st in
  let st2 := log (CrypticleLoads cur data) (set_crypticle_key cur st1) in
  if pyeq cur ck then
    _decode_payload O E (PDict d) version st = (Raise AuthenticationError, st1)
    ∧ handle_message O E (PDict d) st = (Ok (PStr "bad load"), st1)
  else
    match crypticle_loads E cur data with
    | Ok load =>
        _decode_payload O E (PDict d) version st
        = (Ok (PDict (dict_set "load" load d)), st2)
    | Raise e =>
        _decode_payload O E (PDict d) version st = (Raise e, st2)
        ∧ handle_message O E (PDict d) st = (Ok (PStr "bad load"), st2)
    end.
Proof.
  intros Henc Hload Hver Hfail version ck cur st1 st2. subst version.
  assert (Hdec : _decode_payload O E (PDict d)
                   (default (PInt 0) (dict_get "version" d)) st =
            if pyeq cur ck then (Raise AuthenticationError, st1) else
            match crypticle_loads E cur data with
            | Ok load => (Ok (PDict (dict_set "load" load d)), st2)
            | Raise e => (Raise e, st2)
            end).
  { unfold _decode_payload, _decode_payload_body, _update_aes, _update_aes_body, loads.
    run_body. rewrite Henc. cbn. rewrite Hver. cbn.
    rewrite Hload. cbn. rewrite Hfail. cbn.
    fold ck. change (aes_key O (log (CrypticleLoads ck data) st)) with cur.
    destruct (pyeq cur ck); cbn; [done|].
    fold st1 st2. by destruct (crypticle_loads E cur data). }
  assert (Hmsg : ∀ e s', _decode_payload O E (PDict d)
                           (default (PInt 0) (dict_get "version" d)) st = (Raise e, s') →
            handle_message O E (PDict d) st = (Ok (PStr "bad load"), s')).
  { intros e s' He.
    unfold handle_message, handle_message_body, handle_message_checks.
    run_body. unfold dict_has. rewrite Henc, Hload. cbn.
    by rewrite He. }
  destruct (pyeq cur ck).
  - split; [done | by eapply Hmsg].
  - destruct (crypticle_loads E cur data); [done|].
    split; [done | by eapply Hmsg].
Qed.

End Dispatcher.

#[local] Arguments dict_get : simpl never.
#[local] Arguments dict_set : simpl never.
#[local] Arguments dict_del : simpl never.
#[local] Arguments truthy : simpl never.
#[local] Arguments strip : simpl never.
#[local] Arguments list_contains : simpl never.

(** *** The [_auth] handshake *)
Section Auth.
Variable O : Opts.
Variable E : Env.

Abbreviation reply_value := (ReqServerChannel.reply_value E).
Abbreviation minions := (ReqServerChannel.minions O).
Abbreviation fired := (ReqServerChannel.fired O).
Abbreviation sig_algo_of := (ReqServerChannel.sig_algo_of E).
Abbreviation enc_algo_of := (ReqServerChannel.enc_algo_of E).
Abbreviation encrypts := (ReqServerChannel.encrypts E).
Abbreviation aes_value := (ReqServerChannel.aes_value O E).
Abbreviation base_shape := (ReqServerChannel.base_shape O E).
Abbreviation accept_shape := (ReqServerChannel.accept_shape O E).
Abbreviation accept_value := (ReqServerChannel.accept_value E).
Abbreviation serviceable := (ReqServerChannel.serviceable O E).
Abbreviation fed := (ReqServerChannel.fed E).
Abbreviation answers := (ReqServerChannel.answers E).
Abbreviation accepts := (ReqServerChannel.accepts E).

(** The reply tail of [_auth], case by case. *)
Lemma reply_value_answers l sm sig_algo v :
  answers l sm sig_algo v (reply_value (PDict l) sm sig_algo v).
Proof.
  unfold ReqServerChannel.answers, sent_back, ReqServerChannel.reply_value,
    _clear_signed, signed.
  cbn [subscript].
  split; [by intros ->|]. split; [by intros -> ->|].
  intros -> nonce ->.
  split; [by intros sg ->|]. split; [by intros ->|].
  intros e -> He. by destruct e.
Qed.

Lemma accept_value_accepts l sm sig_algo ret :
  accepts l sm sig_algo ret (accept_value (PDict l) sm sig_algo ret).
Proof.
  unfold ReqServerChannel.accepts, sent_back, ReqServerChannel.accept_value,
    _clear_signed, signed.
  cbn [subscript].
  split; [by intros ->|]. split; [by intros -> ->|].
  intros -> nonce ->.
  split; [by intros sg ->|]. split; [by intros ->|].
  intros e -> He. by destruct e.
Qed.


Lemma reply_run {A} load sm sig_algo v st :
  reply E (A:=A) load sm sig_algo v st = (flow_of (reply_value load sm sig_algo v), st).
Proof.
  unfold reply, reply_value. destruct sm; [|done]. run_body.
  destruct (subscript load "nonce") as [nonce|e]; cbn; [|done].
  by destruct (_clear_signed E _ sig_algo).
Qed.

Lemma reply_value_set_pub l p sm sig_algo v :
  reply_value (PDict (dict_set "pub" p l)) sm sig_algo v
  = reply_value (PDict l) sm sig_algo v.
Proof.
  unfold reply_value. destruct sm; [|done]. cbn.
  by rewrite dict_get_set_ne.
Qed.

Lemma fire_run eload st : fire_auth_event O eload st = (Next tt, fired eload st).
Proof. unfold fire_auth_event, fired, when. by destruct (auth_events O). Qed.

Lemma validate_ok l i p0 p sm st :
  dict_get "id" l = Some (PStr i) → valid_id E i = true →
  dict_get "pub" l = Some p0 → py_strip p0 = Ok p →
  _auth_validate E (PDict l) sm st
  = (Next (PDict (dict_set "pub" p l), enc_algo_of l, sig_algo_of l, PStr i, p), st).
Proof.
  intros Hid Hvalid Hpub Hstrip. unfold _auth_validate. run_body.
  rewrite Hid. cbn. rewrite Hvalid. cbn. rewrite Hpub. cbn. by rewrite Hstrip.
Qed.


(** No cap, not over the cap, or already connected: the gate does nothing. *)
Lemma gate_open load sm sig_algo id pub st :
  max_minions O ≤ 0
  ∨ Z.of_nat (List.length (minions st)) ≤ max_minions O
  ∨ list_contains id (minions st) = true →
  _auth_max_minions O E load sm sig_algo id pub st = (Next tt, st).
Proof.
  intros Hopen. unfold _auth_max_minions.
  unfold when at 1. destruct (0 <? max_minions O) eqn:E0; [|done].
  unfold bind at 1, gets. fold (minions st).
  unfold when at 1.
  destruct (Z.of_nat (List.length (minions st)) <=? max_minions O) eqn:E1; [done|].
  cbn [negb]. unfold when at 1.
  destruct (list_contains id (minions st)) eqn:E2; [done|].
  destruct Hopen as [H|[H|H]]; [lia | lia | done].
Qed.



Lemma denied_keys_read st i dl :
  denied_keys st i = Some dl →
  (let d := default PNone (cache st !! ("denied_keys", i)) in
   if truthy d then d else PList []) = PList dl.
Proof.
  unfold denied_keys. destruct (cache st !! ("denied_keys", i)) as [[]|]; cbn;
    try discriminate; try (by intros [= <-]).
  intros [= <-]. by destruct l.
Qed.

Lemma deny_run {A} load sm sig_algo i pub dl eload st :
  deny O E (A:=A) load sm sig_algo (PStr i) pub (PList dl) eload st
  = (flow_of (reply_value load sm sig_algo (PBool false)),
     fired eload (with_denied i pub dl st)).
Proof.
  unfold deny, record_denied, with_denied, cache_store. run_body.
  destruct (list_contains pub dl); cbn; rewrite fire_run; cbn; by rewrite reply_run.
Qed.





Lemma frame_refl st : frame st st.
Proof.
  repeat split. exists []. split; [by rewrite app_nil_r | constructor].
Qed.

Lemma frame_trans st1 st2 st3 : frame st1 st2 → frame st2 st3 → frame st1 st3.
Proof.
  intros (Hc & Ha & Hca & Hci & evs & Ht & Hall)
         (Hc' & Ha' & Hca' & Hci' & evs' & Ht' & Hall').
  repeat split; try congruence.
  exists (evs ++ evs')%list. split.
  - by rewrite Ht', Ht, <- app_assoc.
  - by apply Forall_app.
Qed.

Lemma frame_fed i st : frame st (fed i st).
Proof.
  repeat split. exists [PutCache [PStr i]]. split; [done|]. by repeat constructor.
Qed.

Lemma frame_entropy n st : frame st (set_entropy n st).
Proof.
  repeat split. exists []. split; [by rewrite app_nil_r | constructor].
Qed.

Lemma frame_log e st : no_store e → frame st (log e st).
Proof.
  intros He. repeat split. exists [e]. split; [done | by constructor].
Qed.

(** A session key is always issued, and issuing it stores nothing. *)
Lemma session_key_total i st :
  ∃ k st', session_key O E (PStr i) st = (Ok k, st') ∧ frame st st'.
Proof.
  unfold session_key, method, session_key_body, write_key, fresh. run_body.
  destruct (sessions st !! i) as [[t k]|] eqn:Hs; cbn.
  - destruct (clock st - t <? publish_session O); cbn.
    { eexists _, _. split; [done | apply frame_refl]. }
    destruct (session_files st !! i) as [[mt fk]|] eqn:Hf; cbn.
    + destruct (publish_session O <? clock st - mt); cbn.
      * rewrite lookup_insert_eq. cbn. eexists _, _. split; [done|].
        repeat split. exists []. split; [by rewrite app_nil_r | constructor].
      * rewrite Hf. cbn. eexists _, _. split; [done|].
        repeat split. exists []. split; [by rewrite app_nil_r | constructor].
    + rewrite lookup_insert_eq. cbn. eexists _, _. split; [done|].
        repeat split. exists []. split; [by rewrite app_nil_r | constructor].
  - destruct (session_files st !! i) as [[mt fk]|] eqn:Hf; cbn.
    + destruct (publish_session O <? clock st - mt); cbn.
      * rewrite lookup_insert_eq. cbn. eexists _, _. split; [done|].
        repeat split. exists []. split; [by rewrite app_nil_r | constructor].
      * rewrite Hf. cbn. eexists _, _. split; [done|].
        repeat split. exists []. split; [by rewrite app_nil_r | constructor].
    + rewrite lookup_insert_eq. cbn. eexists _, _. split; [done|].
        repeat split. exists []. split; [by rewrite app_nil_r | constructor].
Qed.

Lemma encrypt_into_run ret k pk data enc_algo st :
  encrypts pk enc_algo →
  ∃ c, encrypt_into E ret k pk data enc_algo st
       = (Next (dict_set k c ret), set_entropy (S (entropy st)) st).
Proof.
  intros Henc. destruct (Henc (entropy st) data) as [c Hc].
  exists c. unfold encrypt_into, fresh. run_body. by rewrite Hc.
Qed.

Lemma aes_value_frame token enc_algo st st' :
  frame st st' → aes_value token enc_algo st' = aes_value token enc_algo st.
Proof.
  intros (_ & Ha & Hca & _). unfold aes_value, aes_key. by rewrite Ha, Hca.
Qed.

Lemma base_shape_set k v ret :
  String.eqb "enc" k = false → String.eqb "pub_key" k = false →
  String.eqb "publish_port" k = false →
  base_shape ret → base_shape (dict_set k v ret).
Proof.
  intros H1 H2 H3 (He & Hk & Hp). unfold base_shape.
  by rewrite !dict_get_set_ne.
Qed.


Lemma accept_pub_sig_run sig_algo ret st :
  (master_sign_pubkey O = true → truthy (master_pubkey_signature E) = false →
   ∃ sg b64, master_sign_key_sign E (master_pub_str E) sig_algo = Ok sg
             ∧ b2a_base64 E sg = Ok b64) →
  base_shape ret →
  ∃ ret', accept_pub_sig O E sig_algo ret st = (Next ret', st) ∧ base_shape ret'.
Proof.
  intros Hsig Hbase. unfold accept_pub_sig.
  destruct (master_sign_pubkey O); [|by exists ret].
  destruct (truthy (master_pubkey_signature E)).
  - eexists. split; [done|]. by apply base_shape_set.
  - destruct Hsig as (sg & b64 & Hsg & Hb); [done..|].
    run_body. rewrite Hsg. cbn. rewrite Hb. cbn.
    eexists. split; [done|]. by apply base_shape_set.
Qed.

Lemma accept_secrets_run l enc_algo i pk ret aes st :
  encrypts pk enc_algo →
  (∀ t, dict_get "token" l = Some t →
        master_decrypt E t enc_algo ≠ Raise UnsupportedAlgorithm) →
  aes_value (dict_get "token" l) enc_algo st = Some aes →
  base_shape ret →
  ∃ ret' st',
    accept_secrets O E (PDict l) enc_algo (PStr i) pk ret st = (Next (aes, ret'), st')
    ∧ frame st st' ∧ base_shape ret'
    ∧ is_Some (dict_get "aes" ret') ∧ is_Some (dict_get "session" ret').
Proof.
  intros Henc Htok Haes Hbase. unfold aes_value in Haes.
  assert (Htail : ∀ ret0 s0, base_shape ret0 → frame st s0 →
            ∃ ret' st',
              (ret ← encrypt_into E ret0 "aes" pk aes enc_algo;
               sk ← call (session_key O E (PStr i));
               ret ← encrypt_into E ret "session" pk sk enc_algo;
               next (aes, ret)) s0 = (Next (aes, ret'), st')
              ∧ frame st st' ∧ base_shape ret'
              ∧ is_Some (dict_get "aes" ret') ∧ is_Some (dict_get "session" ret')).
  { intros ret0 s0 Hb0 Hf0.
    destruct (encrypt_into_run ret0 "aes" pk aes enc_algo s0 Henc) as [c1 Hc1].
    rewrite (bind_next _ _ _ _ _ Hc1).
    destruct (session_key_total i (set_entropy (S (entropy s0)) s0))
      as (sk & s1 & Hsk & Hf1).
    unfold bind at 1, call. rewrite Hsk.
    destruct (encrypt_into_run (dict_set "aes" c1 ret0) "session" pk sk enc_algo s1 Henc)
      as [c2 Hc2].
    rewrite (bind_next _ _ _ _ _ Hc2). unfold next.
    eexists _, _. split; [done|]. split; [|split; [|split]].
    - eapply frame_trans; [exact Hf0|]. eapply frame_trans; [apply frame_entropy|].
      eapply frame_trans; [exact Hf1 | apply frame_entropy].
    - by repeat apply base_shape_set.
    - rewrite dict_get_set_ne by done. rewrite dict_get_set_eq. eauto.
    - rewrite dict_get_set_eq. eauto. }
  unfold accept_secrets. unfold bind at 1, lift at 1. cbn [py_in]. unfold dict_has.
  destruct (2 <=? auth_mode O).
  - destruct (dict_get "token" l) as [t|] eqn:Ht.
    + destruct (master_decrypt E t enc_algo) as [m|e] eqn:Hm; [|discriminate].
      injection Haes as <-.
      unfold bind at 1, try_except, bind at 1, lift at 1. cbn [subscript]. rewrite Ht.
      unfold bind at 1, lift at 1. rewrite Hm.
      unfold bind at 1, gets, next. unfold bind at 1.
      apply Htail; [done | apply frame_refl].
    + injection Haes as <-.
      unfold bind at 1, bind at 1, gets, next. unfold bind at 1.
      apply Htail; [done | apply frame_refl].
  - injection Haes as <-.
    destruct (dict_get "token" l) as [t|] eqn:Ht.
    + unfold bind at 1, try_except, bind at 1, lift at 1. cbn [subscript]. rewrite Ht.
      unfold bind at 1, lift at 1.
      destruct (master_decrypt E t enc_algo) as [m|e] eqn:Hm.
      * destruct (encrypt_into_run ret "token" pk m enc_algo st Henc) as [c0 Hc0].
        rewrite Hc0. unfold bind at 1, gets.
        apply Htail; [by apply base_shape_set | apply frame_entropy].
      * destruct e; try (unfold next, bind at 1, gets; apply Htail;
                         [done | apply frame_refl]).
        by destruct (Htok t eq_refl).
    + unfold bind at 1, next. unfold bind at 1, gets.
      apply Htail; [done | apply frame_refl].
Qed.












Lemma keeps_modify {R} (f : State → State) :
  (∀ st, keys_kept st (f st)) → keeps (R:=R) (modify f).
Proof. intros Hf st. apply Hf. Qed.
















Lemma keys_kept_log e st : no_key_store e → keys_kept st (log e st).
Proof. intros He. split; [done|]. exists [e]. split; [done | by constructor]. Qed.


(** The id that [_auth_validate] hands on is the [id] of the load. *)
Lemma validate_id l sm st load enc_algo sig_algo id pub s1 :
  _auth_validate E (PDict l) sm st = (Next (load, enc_algo, sig_algo, id, pub), s1) →
  dict_get "id" l = Some id.
Proof.
  unfold _auth_validate. intros H.
  apply bind_next_inv in H as (? & ? & _ & H).
  apply bind_next_inv in H as (? & ? & _ & H).
  apply bind_next_inv in H as (id' & ? & Hid & H).
  apply lift_next_inv in Hid as [Hid _].
  do 4 apply bind_next_inv in H as (? & ? & _ & H).
  injection H as _ _ _ <- _ _.
  cbn in Hid. destruct (dict_get "id" l); [by injection Hid as -> | done].
Qed.






End Auth.



(** *** Private-target encryption and the token check *)
Section Private.
Variable O : Opts.
Variable E : Env.

(** C8, as the code has it.  If the target has no KeyRecord with a [pub]
    entry, or parsing that entry raises (whatever the exception), then
    [_encrypt_private] returns [self.crypticle.dumps({})], the shared-crypticle
    encryption of an empty mapping, and raises nothing. *)
Theorem encrypt_private_degrades ret dictkey target nonce sm enc_algo sig_algo st c :
  stored_pub st target = None
  ∨ (∃ pem e, stored_pub st target = Some pem ∧ pubkey_from_str E pem = Raise e) →
  crypticle_dumps E (crypticle_key st) (S (entropy st)) (PDict []) PNone = Ok c →
  _encrypt_private E ret dictkey target nonce sm enc_algo sig_algo st
  = (Ok c, set_entropy (S (S (entropy st))) st).
Proof.
  intros Hkey Hdumps.
  unfold _encrypt_private, method, _encrypt_private_body.
  unfold bind at 1, try_except, any_exception, dumps, cache_fetch, fresh.
  destruct target as [| | |t| | |]; run_body; rewrite ?Hdumps; try done.
  unfold stored_pub in Hkey.
  destruct (cache st !! ("keys", t)) as [[| | | | | |d]|] eqn:Hrec; cbn;
    rewrite ?Hdumps; try done.
  unfold dict_has.
  destruct Hkey as [Hnone|(pem & e & Hpem & Hparse)].
  - rewrite Hnone. cbn. by rewrite Hdumps.
  - rewrite Hpem. cbn. rewrite Hparse. cbn. by rewrite Hdumps.
Qed.

(** What [validate_token] returns carries the payload it was given with
    [tok] popped from its load, and the state is left as it was. *)
Lemma validate_token_pops payload required st b payload' st' :
  validate_token O E payload required st = (Ok (b, payload'), st') →
  st' = st
  ∧ ∃ d l, payload = PDict d ∧ dict_get "load" d = Some (PDict l)
           ∧ payload' = PDict (dict_set "load" (PDict (dict_del "tok" l)) d).
Proof.
  unfold validate_token, method, validate_token_body. run_body.
  destruct payload as [| | | | | |d]; cbn; try discriminate.
  destruct (dict_get "load" d) as [[| | | | | |l]|] eqn:Hload; cbn; try discriminate.
  intros H.
  repeat break_in H; try discriminate;
    injection H as <- <- <-; (split; [done|]); by exists d, l.
Qed.

(** What [check_aes] hands on has no [tok] in its load. *)
Lemma check_aes_no_tok payload version st nonce payload' st' :
  check_aes O E payload version st = (Next (nonce, payload'), st') →
  ∃ d l, payload' = PDict d ∧ dict_get "load" d = Some (PDict l)
         ∧ dict_get "tok" l = None.
Proof.
  unfold check_aes. intros H.
  apply bind_next_inv in H as (v2 & s1 & _ & H).
  apply bind_next_inv in H as ([n p1] & s2 & _ & H).
  apply bind_next_inv in H as (v3 & s3 & _ & H).
  assert (∀ required s r,
            bind (call (validate_token O E p1 required))
                 (fun '(ok, payload) =>
                    when (negb ok) (return_ (PStr "bad load"));; next (n, payload)) s
            = (Next r, st') →
            ∃ d l, snd r = PDict d ∧ dict_get "load" d = Some (PDict l)
                   ∧ dict_get "tok" l = None) as Htail.
  { intros required s r Hb.
    apply bind_next_inv in Hb as ([ok p2] & s4 & Hcall & Hb).
    apply call_next_inv, validate_token_pops in Hcall as (_ & d & l & -> & Hl & ->).
    apply bind_next_inv in Hb as (u & s5 & _ & Hb).
    unfold next in Hb. injection Hb as <- _. cbn.
    exists (dict_set "load" (PDict (dict_del "tok" l)) d), (dict_del "tok" l).
    split; [done|]. split; [apply dict_get_set_eq | apply dict_get_del_eq]. }
  destruct v3.
  - apply bind_next_inv in H as (load & s4 & _ & H).
    apply bind_next_inv in H as (u1 & s5 & _ & H).
    apply bind_next_inv in H as (outer & s6 & _ & H).
    apply bind_next_inv in H as (inner & s7 & _ & H).
    apply bind_next_inv in H as (u2 & s8 & _ & H).
    apply bind_next_inv in H as (u3 & s9 & _ & H).
    by apply (Htail true s9 (nonce, payload')) in H.
  - by apply (Htail false s3 (nonce, payload')) in H.
Qed.

(** Decoding changes nothing of a payload but its load. *)
Lemma decode_keeps_enc d version st payload' st' :
  _decode_payload O E (PDict d) version st = (Ok payload', st') →
  ∃ d', payload' = PDict d' ∧ dict_get "enc" d' = dict_get "enc" d.
Proof.
  unfold _decode_payload, method, _decode_payload_body, loads. run_body.
  intros H.
  repeat break_in H; try discriminate; injection H as <- _;
    eexists; (split; [done|]); by rewrite ?dict_get_set_ne.
Qed.

(** C10, as the code has it.  Every call of [validate_token] that returns
    hands back the payload with [tok] popped from its load, whatever the
    token, [required] and the outcome of the check; consequently, whenever
    [handle_message] reaches the payload handler for an ["aes"] payload, the
    load the handler is given has no [tok] entry. *)
Theorem handler_never_sees_tok :
  (∀ payload required st b payload' st',
     validate_token O E payload required st = (Ok (b, payload'), st') →
     ∃ d l, payload = PDict d ∧ dict_get "load" d = Some (PDict l)
            ∧ payload' = PDict (dict_set "load" (PDict (dict_del "tok" l)) d)
            ∧ dict_get "tok" (dict_del "tok" l) = None)
  ∧ (∀ d enc st payload' version id_ nonce sm st',
       dict_get "enc" d = Some enc → pyeq enc (PStr "aes") = true →
       handle_message_checks O E (PDict d) st
       = (Next (payload', version, id_, nonce, sm), st') →
       ∃ d' l', payload' = PDict d' ∧ dict_get "load" d' = Some (PDict l')
                ∧ dict_get "tok" l' = None).
Proof.
  split.
  - intros payload required st b payload' st' H.
    apply validate_token_pops in H as (_ & d & l & -> & Hl & ->).
    exists d, l. repeat split; try done. apply dict_get_del_eq.
  - intros d enc st payload' version id_ nonce sm st' Henc Haes H.
    apply pyeq_str_true in Haes as ->.
    unfold handle_message_checks in H.
    apply bind_next_inv in H as (u0 & s0 & _ & H).
    apply bind_next_inv in H as (v & s1 & _ & H).
    apply bind_next_inv in H as (p1 & s2 & Hdec & H).
    assert (∃ d1, p1 = PDict d1 ∧ dict_get "enc" d1 = Some (PStr "aes"))
      as (d1 & -> & Henc1).
    { unfold try_except, any_exception, call, return_ in Hdec.
      destruct (_decode_payload O E (PDict d) v s1) as [[p|e] s] eqn:Hrun;
        [|discriminate].
      injection Hdec as <- <-.
      apply decode_keeps_enc in Hrun as (d1 & -> & Heq).
      exists d1. by rewrite Heq. }
    apply bind_next_inv in H as (load & s3 & _ & H).
    apply bind_next_inv in H as (u1 & s4 & _ & H).
    apply bind_next_inv in H as (id0 & s5 & _ & H).
    apply bind_next_inv in H as (u2 & s6 & _ & H).
    apply bind_next_inv in H as (sm0 & s7 & _ & H).
    apply bind_next_inv in H as (enc1 & s8 & Hread & H).
    apply lift_next_inv in Hread as [Hread _]. cbn in Hread.
    rewrite Henc1 in Hread. injection Hread as <-.
    apply bind_next_inv in H as (cmd & s9 & _ & H).
    apply bind_next_inv in H as (u3 & s10 & _ & H).
    cbn [pyeq String.eqb Ascii.eqb Bool.eqb] in H.
    apply bind_next_inv in H as ([n p2] & s11 & Hcheck & H).
    unfold next in H. injection H as <- _ _ _ _ _.
    by apply check_aes_no_tok in Hcheck.
Qed.


End Private.

(** C8 as stated fails after the key is parsed: the target's key is on file
    but the request names an encryption algorithm the key object does not
    support; [pub.encrypt] raises outside the [try] and [_encrypt_private]
    raises too. *)
Lemma encrypt_private_raises :
  let st := state [("keys", "minion1", key_record "PUB1" "accepted")]
                  (PBytes "s0") (PBytes "s0") [] in
  stored_pub st (PStr "minion1") = Some (PStr "PUB1")
  ∧ pubkey_from_str (env false false) (PStr "PUB1") = Ok (PStr "PUB1")
  ∧ fst (_encrypt_private (env false false) (PDict [("a", PInt 1)]) (PStr "pillar")
           (PStr "minion1") PNone false (PStr "ROT13") (PStr "PKCS1v15-SHA1") st)
    = Raise UnsupportedAlgorithm.
Proof. vm_compute. repeat split; reflexivity. Qed.

(** The degraded reply at work: minion1 has no KeyRecord. *)
Lemma encrypt_private_degrades_witness :
  let st := state [] (PBytes "s0") (PBytes "s0") [] in
  _encrypt_private (env false false) (PDict [("a", PInt 1)]) (PStr "pillar")
    (PStr "minion1") PNone false (PStr "OAEP-SHA1") (PStr "PKCS1v15-SHA1") st
  = (Ok (PList [PStr "aes"; PBytes "s0"; PDict []]), set_entropy 2 st).
Proof.
  exact (encrypt_private_degrades (env false false) (PDict [("a", PInt 1)])
           (PStr "pillar") (PStr "minion1") PNone false (PStr "OAEP-SHA1")
           (PStr "PKCS1v15-SHA1") (state [] (PBytes "s0") (PBytes "s0") [])
           (PList [PStr "aes"; PBytes "s0"; PDict []])
           (or_introl eq_refl) eq_refl).
Defined.

(** C10 as stated fails off the ["aes"] path: a clear payload that is not an
    [_auth] request reaches the handler without passing [validate_token], and
    the handler is given the load with its [tok] entry. *)
Lemma clear_payload_keeps_tok :
  let payload :=
    PDict [("enc", PStr "clear");
           ("load", PDict [("cmd", PStr "ping"); ("tok", PStr "T")])] in
  let st := state [] (PBytes "s0") (PBytes "s0") [] in
  handle_message_checks (opts 0 0) (env false false) payload st
  = (Next (payload, PInt 0, PStr "", None, false), st)
  ∧ payload_handler (env false false) payload
    = Ok (PDict [("seen", payload)], PDict [("fun", PStr "send_clear")])
  ∧ handle_message (opts 0 0) (env false false) payload st
    = (Ok (PDict [("seen", payload)]), st)
  ∧ (∃ load, subscript payload "load" = Ok load
             ∧ subscript load "tok" = Ok (PStr "T")).
Proof.
  vm_compute. repeat split; try reflexivity.
  eexists. split; reflexivity.
Qed.


(** With a request ttl configured, the same mismatch on a load without [ts]
    is not answered at all: the lookup of [ts] comes before the comparison of
    the ids and raises. *)
Lemma id_mismatch_without_ts_raises :
  let payload :=
    PDict [("enc", PStr "aes"); ("version", PInt 3); ("id", PStr "minion1");
           ("load", PList [PStr "aes"; PList [PStr "key"; PInt 0];
                           PDict [("id", PStr "minion2"); ("cmd", PStr "ping")]])] in
  let st := state [] (PBytes "s0") (PBytes "s0") [] in
  fst (handle_message (opts 0 15) (env false false) payload st) = Raise (KeyError "ts").
Proof. vm_compute. reflexivity. Qed.






(** The self-heal at work: with the secret unchanged ([s0]) a ciphertext under
    [s1] is answered "bad load" after one attempt; once the secret is [s1] the
    same ciphertext decrypts on the retry. *)
Lemma stale_secret_self_heal_witness :
  (let d := [("enc", PStr "aes");
             ("load", PList [PStr "aes"; PBytes "s1"; PDict [("cmd", PStr "ping")]])] in
   let st := state [] (PBytes "s0") (PBytes "s0") [] in
   handle_message (opts 0 0) (env false false) (PDict d) st
   = (Ok (PStr "bad load"),
      log (CrypticleLoads (PBytes "s0")
             (PList [PStr "aes"; PBytes "s1"; PDict [("cmd", PStr "ping")]])) st))
  ∧
  (let d := [("enc", PStr "aes");
             ("load", PList [PStr "aes"; PBytes "s1"; PDict [("cmd", PStr "ping")]])] in
   let st := state [] (PBytes "s0") (PBytes "s1") [] in
   _decode_payload (opts 0 0) (env false false) (PDict d) (PInt 0) st
   = (Ok (PDict [("enc", PStr "aes"); ("load", PDict [("cmd", PStr "ping")])]),
      log (CrypticleLoads (PBytes "s1")
             (PList [PStr "aes"; PBytes "s1"; PDict [("cmd", PStr "ping")]]))
        (set_crypticle_key (PBytes "s1")
           (log (CrypticleLoads (PBytes "s0")
                   (PList [PStr "aes"; PBytes "s1"; PDict [("cmd", PStr "ping")]])) st)))).
Proof.
  split.
  - exact (proj2 (stale_secret_self_heal (opts 0 0) (env false false)
             [("enc", PStr "aes");
              ("load", PList [PStr "aes"; PBytes "s1"; PDict [("cmd", PStr "ping")]])]
             (PList [PStr "aes"; PBytes "s1"; PDict [("cmd", PStr "ping")]])
             (state [] (PBytes "s0") (PBytes "s0") [])
             eq_refl eq_refl eq_refl eq_refl)).
  - exact (stale_secret_self_heal (opts 0 0) (env false false)
             [("enc", PStr "aes");
              ("load", PList [PStr "aes"; PBytes "s1"; PDict [("cmd", PStr "ping")]])]
             (PList [PStr "aes"; PBytes "s1"; PDict [("cmd", PStr "ping")]])
             (state [] (PBytes "s0") (PBytes "s1") [])
             eq_refl eq_refl eq_refl eq_refl).
Defined.

(** *** What [_auth] leaves alone *)
Section Preserved.
Variable P : State → State → Prop.
Hypothesis P_refl : ∀ st, P st st.
Hypothesis P_trans : ∀ st1 st2 st3, P st1 st2 → P st2 st3 → P st1 st3.

Lemma preserves_next {R A} (a : A) : preserves (R:=R) P (next a).
Proof. intros st. apply P_refl. Qed.

Lemma preserves_return {R A} (r : R) : preserves (A:=A) P (return_ r).
Proof. intros st. apply P_refl. Qed.

Lemma preserves_throw {R A} e : preserves (R:=R) (A:=A) P (throw e).
Proof. intros st. apply P_refl. Qed.

Lemma preserves_lift {R A} (r : Res A) : preserves (R:=R) P (lift r).
Proof. intros st. unfold lift. destruct r; apply P_refl. Qed.

Lemma preserves_gets {R A} (f : State → A) : preserves (R:=R) P (gets f).
Proof. intros st. apply P_refl. Qed.

Lemma preserves_modify {R} (f : State → State) :
  (∀ st, P st (f st)) → preserves (R:=R) P (modify f).
Proof. intros Hf st. apply Hf. Qed.

Lemma preserves_bind {R A B} (m : M State R A) (f : A → M State R B) :
  preserves P m → (∀ a, preserves P (f a)) → preserves P (bind m f).
Proof.
  intros Hm Hf st. unfold bind. specialize (Hm st).
  destruct (m st) as [[a|r|e] s1]; cbn in *; [|done..].
  eapply P_trans; [exact Hm | apply Hf].
Qed.

Lemma preserves_at_bind {R A B} (m : M State R A) (f : A → M State R B) st :
  P st (snd (m st)) →
  (∀ a s1, m st = (Next a, s1) → P s1 (snd (f a s1))) →
  P st (snd (bind m f st)).
Proof.
  intros Hm Hf. unfold bind.
  destruct (m st) as [[a|r|e] s1] eqn:Hrun; cbn in *; [|done..].
  eapply P_trans; [exact Hm | by apply Hf].
Qed.

Lemma preserves_when {R} c (body : M State R unit) :
  preserves P body → preserves P (when c body).
Proof. intros Hb. unfold when. destruct c; [done | apply preserves_next]. Qed.

Lemma preserves_try_except {R A} (body : M State R A) handler :
  preserves P body → (∀ e h, handler e = Some h → preserves P h) →
  preserves P (try_except body handler).
Proof.
  intros Hb Hh st. unfold try_except. specialize (Hb st).
  destruct (body st) as [[a|r|e] s1]; cbn in *; [done..|].
  destruct (handler e) as [h|] eqn:He; [|done].
  eapply P_trans; [exact Hb | by eapply Hh].
Qed.

Lemma preserves_method {R} (body : M State R R) :
  preserves P body → ∀ st, P st (snd (method body st)).
Proof.
  intros Hb st. specialize (Hb st). unfold method.
  by destruct (body st) as [[a|r|e] s1].
Qed.

Lemma preserves_call {R A} (f : State → Res A * State) :
  (∀ st, P st (snd (f st))) → preserves (R:=R) P (call f).
Proof.
  intros Hf st. unfold call. specialize (Hf st).
  by destruct (f st) as [[a|e] s1].
Qed.

End Preserved.

Ltac preserve_with refl trans :=
  repeat match goal with
  | |- preserves _ (bind _ _) => apply (preserves_bind _ trans); [|intros ?]
  | |- preserves _ (next _) => apply (preserves_next _ refl)
  | |- preserves _ (return_ _) => apply (preserves_return _ refl)
  | |- preserves _ (throw _) => apply (preserves_throw _ refl)
  | |- preserves _ (lift _) => apply (preserves_lift _ refl)
  | |- preserves _ (gets _) => apply (preserves_gets _ refl)
  | |- preserves _ (when _ _) => apply (preserves_when _ refl)
  | |- preserves _ ((fun _ => _) _) => cbn beta
  | |- preserves _ (let _ := _ in _) => cbv zeta
  | |- preserves _ (if ?c then _ else _) => destruct c
  | |- preserves _ (match ?x with _ => _ end) => destruct x
  end.

Section Confined.
Variable O : Opts.
Variable E : Env.
Variable i : string.

Lemma confined_refl st : confined_strict i st st.
Proof. repeat split. exists []. by rewrite app_nil_r. Qed.

Lemma confined_trans st1 st2 st3 :
  confined_strict i st1 st2 → confined_strict i st2 st3 → confined_strict i st1 st3.
Proof.
  intros (Hc & Hs & Hf & Hk & Ha & Hca & Hcl & Hcc & Hci & evs & Ht)
         (Hc' & Hs' & Hf' & Hk' & Ha' & Hca' & Hcl' & Hcc' & Hci' & evs' & Ht').
  repeat split; try congruence.
  - intros b j H1 H2. by rewrite Hc', Hc.
  - intros j Hj. by rewrite Hs', Hs.
  - intros j Hj. by rewrite Hf', Hf.
  - exists (evs ++ evs')%list. by rewrite Ht', Ht, <- app_assoc.
Qed.

Ltac confine := preserve_with confined_refl confined_trans.

Lemma confined_fresh {R} : preserves (R:=R) (confined_strict i) fresh.
Proof.
  unfold fresh. confine. apply preserves_modify. intros st.
  repeat split. exists []. by rewrite app_nil_r.
Qed.

Lemma confined_log {R} e : preserves (R:=R) (confined_strict i) (modify (log e)).
Proof. apply preserves_modify. intros st. repeat split. by exists [e]. Qed.

Lemma confined_store {R} bucket v :
  bucket = "keys" ∨ bucket = "denied_keys" →
  preserves (R:=R) (confined_strict i) (cache_store bucket (PStr i) v).
Proof.
  intros Hb. unfold cache_store. confine; [|apply confined_log].
  apply preserves_modify. intros st. repeat split; [|exists []; by rewrite app_nil_r].
  intros b j H1 H2. cbn. rewrite lookup_insert_ne; [done|].
  destruct Hb as [->| ->]; congruence.
Qed.

Lemma confined_reply {A} load sm sig_algo v :
  preserves (confined_strict i) (reply E (A:=A) load sm sig_algo v).
Proof. unfold reply. confine. Qed.

Lemma confined_fire eload : preserves (confined_strict i) (fire_auth_event O eload).
Proof. unfold fire_auth_event. confine. apply confined_log. Qed.

Lemma confined_deny {A} load sm sig_algo pub denied eload :
  preserves (confined_strict i) (deny O E (A:=A) load sm sig_algo (PStr i) pub denied eload).
Proof.
  unfold deny, record_denied. confine;
    first [apply confined_fire | apply confined_reply | apply confined_store; by right].
Qed.

Lemma confined_session_key {R} : preserves (R:=R) (confined_strict i) (call (session_key O E (PStr i))).
Proof.
  apply preserves_call, preserves_method.
  assert (Hw : preserves (R:=PyVal) (confined_strict i) (write_key E i)).
  { unfold write_key. confine; [apply confined_fresh|].
    apply preserves_modify. intros st. repeat split; [|exists []; by rewrite app_nil_r].
    intros j Hj. cbn. by rewrite lookup_insert_ne. }
  unfold session_key_body. confine; try apply Hw.
  apply preserves_modify. intros st. repeat split; [|exists []; by rewrite app_nil_r].
  intros j Hj. cbn. by rewrite lookup_insert_ne.
Qed.

Lemma confined_encrypt_into ret k pk data enc_algo :
  preserves (confined_strict i) (encrypt_into E ret k pk data enc_algo).
Proof. unfold encrypt_into. confine. apply confined_fresh. Qed.

Lemma confined_validate load sm : preserves (confined_strict i) (_auth_validate E load sm).
Proof. unfold _auth_validate. confine. apply confined_reply. Qed.

Lemma confined_max_minions load sm sig_algo id pub :
  preserves (confined_strict i) (_auth_max_minions O E load sm sig_algo id pub).
Proof.
  unfold _auth_max_minions. confine; first [apply confined_fire | apply confined_reply].
Qed.

Lemma confined_policy load sm sig_algo pub :
  preserves (confined_strict i) (_auth_policy O E load sm sig_algo (PStr i) pub).
Proof.
  unfold _auth_policy, cache_fetch, key_state_is. confine;
    first [ apply confined_fire | apply confined_reply | apply confined_deny
          | apply confined_store; by left ].
Qed.

Lemma confined_accept_store load sm sig_algo pub key :
  preserves (confined_strict i) (accept_store O E load sm sig_algo (PStr i) pub key).
Proof.
  unfold accept_store. confine;
    first [apply confined_reply | apply confined_store; by left].
Qed.

(** Mixing the two relations: a strict step before or after a step that may
    tell the con cache of [i]. *)
Lemma strict_confined st st' : confined_strict i st st' → confined O E i st st'.
Proof.
  intros (Hc & Hs & Hf & Hk & Ha & Hca & Hcl & Hcc & Hci & Ht).
  repeat split; try done. by left.
Qed.

Lemma strict_then_confined st1 st2 st3 :
  confined_strict i st1 st2 → confined O E i st2 st3 → confined O E i st1 st3.
Proof.
  intros (Hc & Hs & Hf & Hk & Ha & Hca & Hcl & Hcc & Hci & evs & Ht)
         (Hc' & Hs' & Hf' & Hk' & Ha' & Hca' & Hcl' & Hcc' & Hci' & evs' & Ht').
  repeat split; try congruence.
  - intros b j H1 H2. by rewrite Hc', Hc.
  - intros j Hj. by rewrite Hs', Hs.
  - intros j Hj. by rewrite Hf', Hf.
  - exists (evs ++ evs')%list. by rewrite Ht', Ht, <- app_assoc.
Qed.

Lemma confined_then_strict st1 st2 st3 :
  confined O E i st1 st2 → confined_strict i st2 st3 → confined O E i st1 st3.
Proof.
  intros (Hc & Hs & Hf & Hk & Ha & Hca & Hcl & Hcc & Hci & evs & Ht)
         (Hc' & Hs' & Hf' & Hk' & Ha' & Hca' & Hcl' & Hcc' & Hci' & evs' & Ht').
  repeat split; try congruence.
  - intros b j H1 H2. by rewrite Hc', Hc.
  - intros j Hj. by rewrite Hs', Hs.
  - intros j Hj. by rewrite Hf', Hf.
  - exists (evs ++ evs')%list. by rewrite Ht', Ht, <- app_assoc.
Qed.

Lemma bind_strict_confined {R A B} (m : M State R A) (f : A → M State R B) :
  preserves (confined_strict i) m → (∀ a, preserves (confined O E i) (f a)) →
  preserves (confined O E i) (bind m f).
Proof.
  intros Hm Hf st. unfold bind. specialize (Hm st).
  destruct (m st) as [[a|r|e] s1]; cbn in *; try by apply strict_confined.
  eapply strict_then_confined; [exact Hm | apply Hf].
Qed.

Lemma bind_confined_strict {R A B} (m : M State R A) (f : A → M State R B) :
  preserves (confined O E i) m → (∀ a, preserves (confined_strict i) (f a)) →
  preserves (confined O E i) (bind m f).
Proof.
  intros Hm Hf st. unfold bind. specialize (Hm st).
  destruct (m st) as [[a|r|e] s1]; cbn in *; try done.
  eapply confined_then_strict; [exact Hm | apply Hf].
Qed.

Lemma confined_cache_put :
  con_cache O = true → preserves (confined O E i) (cache_put E (PStr i)).
Proof.
  intros Hon st. unfold cache_put, bind, modify. cbn.
  repeat split; [by right | by exists [PutCache [PStr i]]].
Qed.

Lemma confined_accept load sm version enc_algo sig_algo pub key :
  preserves (confined O E i)
            (_auth_accept O E load sm version enc_algo sig_algo (PStr i) pub key).
Proof.
  unfold _auth_accept.
  apply bind_strict_confined; [apply confined_accept_store | intros key'].
  apply bind_confined_strict.
  { unfold when. destruct (con_cache O) eqn:Hon; [by apply confined_cache_put|].
    intros st. apply strict_confined, confined_refl. }
  intros _. unfold accept_pub_sig, accept_secrets.
  confine;
    first [ apply confined_fire | apply confined_reply | apply confined_log
          | apply confined_encrypt_into
          | apply confined_session_key
          | apply (preserves_try_except _ confined_trans); [|intros e h He] ].
  all: try (destruct e; try discriminate; injection He as <-); confine;
    first [apply confined_reply | apply confined_encrypt_into].
Qed.

(** X1.  Whatever an [_auth] request for identity [i] carries and however it
    ends (a reply or an exception), the only cache entries it can change are
    the KeyRecord and the denied keys of [i], the only session key it can
    issue is the one of [i], and the only thing the con cache can be told is
    [i], once, and only when the con cache is enabled; the crypticle's key,
    the shared secrets, the clock and the minions [ckminions] reports as
    connected are left as they were. *)
Theorem auth_confined l sm version st :
  dict_get "id" l = Some (PStr i) →
  confined O E i st (snd (_auth O E (PDict l) sm version st)).
Proof.
  intros Hid. unfold _auth. apply preserves_method. clear st. intros st.
  unfold _auth_body. unfold bind at 1.
  pose proof (confined_validate (PDict l) sm st) as Hv0.
  destruct (_auth_validate E (PDict l) sm st)
    as [[[[[[load enc_algo] sig_algo] id] pub]|r|e] s1] eqn:Hv; cbn in Hv0 |- *;
    try by apply strict_confined.
  pose proof (validate_id _ _ _ _ _ _ _ _ _ _ Hv) as Hid'.
  rewrite Hid in Hid'. injection Hid' as <-.
  eapply strict_then_confined; [exact Hv0|].
  revert s1 Hv Hv0. intros s1 _ _. revert s1.
  change (preserves (confined O E i)
            (_auth_max_minions O E load sm sig_algo (PStr i) pub;;
             key ← _auth_policy O E load sm sig_algo (PStr i) pub;
             _auth_accept O E load sm version enc_algo sig_algo (PStr i) pub key)).
  apply bind_strict_confined; [apply confined_max_minions | intros _].
  apply bind_strict_confined; [apply confined_policy | intros key].
  apply confined_accept.
Qed.

End Confined.

(** The confinement at work, with the con cache enabled and autosign on:
    minion1, unknown to the master, asks with PUB1 while minion2 is on
    record. *)
Lemma auth_confined_witness :
  let st := state [("keys", "minion2", key_record "PUB2" "accepted")]
                  (PBytes "s0") (PBytes "s0") [] in
  confined con_opts (env false true) "minion1" st
    (snd (_auth con_opts (env false true) (auth_load "minion1" "PUB1")
                false (PInt 0) st)).
Proof.
  intros st.
  exact (auth_confined con_opts (env false true) "minion1"
           [("cmd", PStr "_auth"); ("id", PStr "minion1"); ("pub", PStr "PUB1")]
           false (PInt 0) st eq_refl).
Defined.


(** *** The decision [_auth] takes on a KeyRecord *)
Section Decisions.
Variable O : Opts.
Variable E : Env.

Abbreviation reply_value := (ReqServerChannel.reply_value E).
Abbreviation fired := (ReqServerChannel.fired O).
Abbreviation sig_algo_of := (ReqServerChannel.sig_algo_of E).
Abbreviation enc_algo_of := (ReqServerChannel.enc_algo_of E).
Abbreviation gate_passes := (ReqServerChannel.gate_passes O).
Abbreviation accept_shape := (ReqServerChannel.accept_shape O E).
Abbreviation accept_value := (ReqServerChannel.accept_value E).
Abbreviation serviceable := (ReqServerChannel.serviceable O E).
Abbreviation fed := (ReqServerChannel.fed E).
Abbreviation answers := (ReqServerChannel.answers E).
Abbreviation accepts := (ReqServerChannel.accepts E).

(** A request with a valid id and a key, let through by the gate, is decided
    by the policy and accept phases on the load with its key stripped. *)
Lemma auth_past_gate l i K sm version st :
  dict_get "id" l = Some (PStr i) → valid_id E i = true →
  dict_get "pub" l = Some (PStr K) → gate_passes i st →
  _auth O E (PDict l) sm version st
  = method (key ← _auth_policy O E (PDict (dict_set "pub" (PStr (strip K)) l)) sm
                    (sig_algo_of l) (PStr i) (PStr (strip K));
            _auth_accept O E (PDict (dict_set "pub" (PStr (strip K)) l)) sm version
                         (enc_algo_of l) (sig_algo_of l) (PStr i) (PStr (strip K)) key) st.
Proof.
  intros Hid Hvalid Hpub Hgate. unfold _auth, method, _auth_body.
  rewrite (bind_next _ _ _ _ _
             (validate_ok E l i (PStr K) (PStr (strip K)) sm st Hid Hvalid Hpub eq_refl)).
  unfold bind at 1. by rewrite gate_open.
Qed.

(** The policy phase answers [v]: so does [_auth]. *)
Lemma auth_decided l i K sm version st v st' :
  dict_get "id" l = Some (PStr i) → valid_id E i = true →
  dict_get "pub" l = Some (PStr K) → gate_passes i st →
  _auth_policy O E (PDict (dict_set "pub" (PStr (strip K)) l)) sm
               (sig_algo_of l) (PStr i) (PStr (strip K)) st
  = (flow_of (reply_value (PDict (dict_set "pub" (PStr (strip K)) l)) sm
                          (sig_algo_of l) v), st') →
  _auth O E (PDict l) sm version st = (reply_value (PDict l) sm (sig_algo_of l) v, st').
Proof.
  intros Hid Hvalid Hpub Hgate Hpol.
  rewrite (auth_past_gate l i K sm version st) by done.
  unfold method, bind. rewrite Hpol, reply_value_set_pub.
  by destruct (reply_value (PDict l) sm (sig_algo_of l) v).
Qed.

Lemma policy_refused l0 sm sig_algo i pub kd K1 s st :
  open_mode O = false →
  cache st !! ("keys", i) = Some (PDict kd) →
  dict_get "state" kd = Some (PStr s) → s ≠ "accepted" → s ≠ "pending" →
  dict_get "pub" kd = Some (PStr K1) →
  _auth_policy O E (PDict l0) sm sig_algo (PStr i) pub st
  = (flow_of (reply_value (PDict l0) sm sig_algo (PBool false)),
     fired (auth_event false i pub) st).
Proof.
  intros Hopen Hkey Hstate Hna Hnp Hkpub.
  assert (Htruthy : truthy (PDict kd) = true) by (by destruct kd).
  apply String.eqb_neq in Hna, Hnp.
  unfold _auth_policy, cache_fetch, key_state_is. run_body.
  rewrite Hkey. cbn. rewrite Htruthy. cbn.
  unfold dict_has. rewrite Hkpub. cbn.
  rewrite Hopen. rewrite !truthy_dict_set. cbn.
  rewrite dict_get_set_ne by done. rewrite Hstate. cbn.
  destruct (String.eqb s "rejected"); cbn.
  - rewrite fire_run. cbn. rewrite reply_run.
    by destruct (reply_value (PDict l0) sm sig_algo (PBool false)).
  - rewrite Hna. cbn. rewrite Hnp. cbn. rewrite fire_run. cbn. rewrite reply_run.
    by destruct (reply_value (PDict l0) sm sig_algo (PBool false)).
Qed.

(** One run of [_auth] on a KeyRecord that is neither accepted nor pending. *)
Lemma other_state_refused_run l i K kd K1 s sm version st :
  open_mode O = false →
  dict_get "id" l = Some (PStr i) → valid_id E i = true →
  dict_get "pub" l = Some (PStr K) → gate_passes i st →
  cache st !! ("keys", i) = Some (PDict kd) →
  dict_get "state" kd = Some (PStr s) → s ≠ "accepted" → s ≠ "pending" →
  dict_get "pub" kd = Some (PStr K1) →
  _auth O E (PDict l) sm version st
  = (reply_value (PDict l) sm (sig_algo_of l) (PBool false),
     fired (auth_event false i (PStr (strip K))) st).
Proof.
  intros Hopen Hid Hvalid Hpub Hgate Hkey Hstate Hna Hnp Hkpub.
  apply (auth_decided l i K); try done.
  by eapply policy_refused.
Qed.

(** X2. A KeyRecord whose state is neither accepted nor pending (rejected, or a
    state the code does not know) is refused, whatever key is sent and whatever
    autosign and autoreject say (open mode off, a valid id, the [max_minions]
    gate passed): the request is answered with [False], the auth event reports
    [result: False], and nothing is stored. Answered with a value [v] means:
    [{"enc": "clear", "load": {"ret": v}}] when messages are not signed; when
    they are signed and the load has a nonce, the signed [{"ret": v, "nonce":
    nonce}], or [{"ret": "bad sig algo"}] when the signing algorithm is not
    supported (any other error of the signer is raised as it is); a signed
    request without nonce raises [KeyError], after the state has been changed as
    said. *)
Theorem other_state_refused l i K kd K1 s sm version st :
  open_mode O = false →
  dict_get "id" l = Some (PStr i) → valid_id E i = true →
  dict_get "pub" l = Some (PStr K) → gate_passes i st →
  cache st !! ("keys", i) = Some (PDict kd) →
  dict_get "state" kd = Some (PStr s) → s ≠ "accepted" → s ≠ "pending" →
  dict_get "pub" kd = Some (PStr K1) →
  let r := _auth O E (PDict l) sm version st in
  answers l sm (sig_algo_of l) (PBool false) (fst r)
  ∧ snd r = fired (auth_event false i (PStr (strip K))) st.
Proof.
  intros Hopen Hid Hvalid Hpub Hgate Hkey Hstate Hna Hnp Hkpub. cbv zeta.
  rewrite (other_state_refused_run l i K kd K1 s sm version st) by done.
  split; [apply reply_value_answers | done].
Qed.

Lemma policy_new l0 sm sig_algo i pub st :
  open_mode O = false →
  cache st !! ("keys", i) = None →
  let grains := default PNone (dict_get "autosign_grains" l0) in
  _auth_policy O E (PDict l0) sm sig_algo (PStr i) pub st
  = if check_autoreject E (PStr i) then
      (flow_of (reply_value (PDict l0) sm sig_algo (PBool false)),
       fired (auth_act_event false "reject" i pub)
             (with_record i (record pub "rejected") st))
    else if negb (check_autosign E (PStr i) grains) then
      (flow_of (reply_value (PDict l0) sm sig_algo (PBool true)),
       fired (auth_act_event true "pend" i pub)
             (with_record i (record pub "pending") st))
    else (Next PNone, st).
Proof.
  intros Hopen Hkey grains. subst grains.
  unfold _auth_policy, cache_fetch, key_state_is, cache_store. run_body.
  rewrite Hkey. cbn. change (truthy PNone) with false. cbn.
  rewrite Hopen. cbn. change (truthy PNone) with false. cbn.
  destruct (check_autoreject E (PStr i)); cbn.
  - rewrite fire_run. cbn. rewrite reply_run.
    by destruct (reply_value (PDict l0) sm sig_algo (PBool false)).
  - destruct (check_autosign E (PStr i) _); cbn; [done|].
    rewrite fire_run. cbn. rewrite reply_run.
    by destruct (reply_value (PDict l0) sm sig_algo (PBool true)).
Qed.

(** One run of [_auth] for an identity with no KeyRecord. *)
Lemma new_minion_decided_run l i K sm version st :
  open_mode O = false →
  dict_get "id" l = Some (PStr i) → valid_id E i = true →
  dict_get "pub" l = Some (PStr K) → gate_passes i st →
  cache st !! ("keys", i) = None →
  (check_autoreject E (PStr i) = true →
   _auth O E (PDict l) sm version st
   = (reply_value (PDict l) sm (sig_algo_of l) (PBool false),
      fired (auth_act_event false "reject" i (PStr (strip K)))
            (with_record i (record (PStr (strip K)) "rejected") st)))
  ∧ (check_autoreject E (PStr i) = false →
     check_autosign E (PStr i) (default PNone (dict_get "autosign_grains" l)) = false →
     _auth O E (PDict l) sm version st
     = (reply_value (PDict l) sm (sig_algo_of l) (PBool true),
        fired (auth_act_event true "pend" i (PStr (strip K)))
              (with_record i (record (PStr (strip K)) "pending") st))).
Proof.
  intros Hopen Hid Hvalid Hpub Hgate Hkey.
  pose proof (policy_new (dict_set "pub" (PStr (strip K)) l) sm (sig_algo_of l) i
                (PStr (strip K)) st Hopen Hkey) as Hpol.
  cbn zeta in Hpol. rewrite dict_get_set_ne in Hpol by done.
  split.
  - intros Hrej. rewrite Hrej in Hpol. by apply (auth_decided l i K).
  - intros Hrej Hsign. rewrite Hrej, Hsign in Hpol. by apply (auth_decided l i K).
Qed.

(** X3. An identity with no KeyRecord (open mode off, a valid id, the
    [max_minions] gate passed): when autoreject names it, its key is stored as
    rejected, the auth event names the act [reject] and the request is answered
    with [False]; otherwise, unless autosign accepts it, its key is stored as
    pending, the auth event names the act [pend] and the request is answered
    with [True]. The key stored is the key sent, stripped of surrounding
    whitespace. Answered with a value [v] means: [{"enc": "clear", "load":
    {"ret": v}}] when messages are not signed; when they are signed and the load
    has a nonce, the signed [{"ret": v, "nonce": nonce}], or [{"ret": "bad sig
    algo"}] when the signing algorithm is not supported (any other error of the
    signer is raised as it is); a signed request without nonce raises
    [KeyError], after the state has been changed as said. *)
Theorem new_minion_decided l i K sm version st :
  open_mode O = false →
  dict_get "id" l = Some (PStr i) → valid_id E i = true →
  dict_get "pub" l = Some (PStr K) → gate_passes i st →
  cache st !! ("keys", i) = None →
  let r := _auth O E (PDict l) sm version st in
  (check_autoreject E (PStr i) = true →
   answers l sm (sig_algo_of l) (PBool false) (fst r)
   ∧ snd r = fired (auth_act_event false "reject" i (PStr (strip K)))
                   (with_record i (record (PStr (strip K)) "rejected") st))
  ∧ (check_autoreject E (PStr i) = false →
     check_autosign E (PStr i) (default PNone (dict_get "autosign_grains" l)) = false →
     answers l sm (sig_algo_of l) (PBool true) (fst r)
     ∧ snd r = fired (auth_act_event true "pend" i (PStr (strip K)))
                     (with_record i (record (PStr (strip K)) "pending") st)).
Proof.
  intros Hopen Hid Hvalid Hpub Hgate Hkey. cbv zeta.
  destruct (new_minion_decided_run l i K sm version st) as [Hrej Hpend]; try done.
  split.
  - intros Har. rewrite (Hrej Har). split; [apply reply_value_answers | done].
  - intros Har Has. rewrite (Hpend Har Has).
    split; [apply reply_value_answers | done].
Qed.

Lemma policy_pending l0 sm sig_algo i pub kd K1 dl st :
  open_mode O = false →
  cache st !! ("keys", i) = Some (PDict kd) →
  dict_get "state" kd = Some (PStr "pending") →
  dict_get "pub" kd = Some (PStr K1) →
  denied_keys st i = Some dl →
  let grains := default PNone (dict_get "autosign_grains" l0) in
  let kd' := dict_set "pub" (PStr (strip K1)) kd in
  _auth_policy O E (PDict l0) sm sig_algo (PStr i) pub st
  = if check_autoreject E (PStr i) then
      (flow_of (reply_value (PDict l0) sm sig_algo (PBool false)),
       fired (auth_act_event false "reject" i pub)
             (with_record i (PDict (dict_set "state" (PStr "rejected") kd')) st))
    else
      match compare_keys E (PStr (strip K1)) pub with
      | Raise e => (Throw e, st)
      | Ok true =>
          if negb (check_autosign E (PStr i) grains) then
            (flow_of (reply_value (PDict l0) sm sig_algo (PBool true)),
             fired (auth_act_event true "pend" i pub) st)
          else (Next (PDict kd'), st)
      | Ok false =>
          (flow_of (reply_value (PDict l0) sm sig_algo (PBool false)),
           fired (if negb (check_autosign E (PStr i) grains)
                  then PDict [("result", PBool false); ("id", PStr i);
                              ("act", PStr "denied"); ("pub", pub)]
                  else auth_event false i pub)
                 (with_denied i pub dl st))
      end.
Proof.
  intros Hopen Hkey Hstate Hkpub Hden grains kd'. subst grains kd'.
  assert (Htruthy : truthy (PDict kd) = true) by (by destruct kd).
  pose proof (denied_keys_read st i dl Hden) as Hread. cbn zeta in Hread.
  unfold _auth_policy, cache_fetch, key_state_is, cache_store. run_body.
  rewrite Hkey. cbn. rewrite Htruthy. cbn.
  unfold dict_has. rewrite Hkpub. cbn.
  rewrite Hread. rewrite Hopen. rewrite !truthy_dict_set. cbn.
  rewrite dict_get_set_ne by done. rewrite Hstate. cbn.
  destruct (check_autoreject E (PStr i)); cbn.
  - rewrite fire_run. cbn. rewrite reply_run.
    by destruct (reply_value (PDict l0) sm sig_algo (PBool false)).
  - destruct (check_autosign E (PStr i) _); cbn;
      rewrite dict_get_set_eq; cbn;
      destruct (compare_keys E (PStr (strip K1)) pub) as [[]|e]; cbn; try done;
      rewrite ?deny_run, ?fire_run; cbn; rewrite ?reply_run;
      try (by destruct (reply_value (PDict l0) sm sig_algo (PBool false)));
      by destruct (reply_value (PDict l0) sm sig_algo (PBool true)).
Qed.

(** One run of [_auth] on a pending KeyRecord. *)
Lemma pending_decided_run l i K kd K1 dl sm version st :
  open_mode O = false →
  dict_get "id" l = Some (PStr i) → valid_id E i = true →
  dict_get "pub" l = Some (PStr K) → gate_passes i st →
  cache st !! ("keys", i) = Some (PDict kd) →
  dict_get "state" kd = Some (PStr "pending") →
  dict_get "pub" kd = Some (PStr K1) →
  denied_keys st i = Some dl →
  (check_autoreject E (PStr i) = true →
   _auth O E (PDict l) sm version st
   = (reply_value (PDict l) sm (sig_algo_of l) (PBool false),
      fired (auth_act_event false "reject" i (PStr (strip K)))
            (with_record i (PDict (dict_set "state" (PStr "rejected")
                                            (dict_set "pub" (PStr (strip K1)) kd))) st)))
  ∧ (check_autoreject E (PStr i) = false →
     check_autosign E (PStr i) (default PNone (dict_get "autosign_grains" l)) = false →
     compare_keys E (PStr (strip K1)) (PStr (strip K)) = Ok true →
     _auth O E (PDict l) sm version st
     = (reply_value (PDict l) sm (sig_algo_of l) (PBool true),
        fired (auth_act_event true "pend" i (PStr (strip K))) st)).
Proof.
  intros Hopen Hid Hvalid Hpub Hgate Hkey Hstate Hkpub Hden.
  pose proof (policy_pending (dict_set "pub" (PStr (strip K)) l) sm (sig_algo_of l) i
                (PStr (strip K)) kd K1 dl st Hopen Hkey Hstate Hkpub Hden) as Hpol.
  cbn zeta in Hpol. rewrite dict_get_set_ne in Hpol by done.
  split.
  - intros Hrej. rewrite Hrej in Hpol. by apply (auth_decided l i K).
  - intros Hrej Hsign Hcmp. rewrite Hrej, Hsign, Hcmp in Hpol.
    by apply (auth_decided l i K).
Qed.

(** X4. A pending KeyRecord (open mode off, a valid id, the [max_minions] gate
    passed): when autoreject names the identity, the record is stored again with
    state rejected (and its key stripped), the auth event names the act [reject]
    and the request is answered with [False], whatever key is sent; when neither
    autoreject nor autosign names it and the key sent compares equal to the
    pending one, the auth event names the act [pend], the request is answered
    with [True] and nothing is stored. Answered with a value [v] means: [{"enc":
    "clear", "load": {"ret": v}}] when messages are not signed; when they are
    signed and the load has a nonce, the signed [{"ret": v, "nonce": nonce}], or
    [{"ret": "bad sig algo"}] when the signing algorithm is not supported (any
    other error of the signer is raised as it is); a signed request without
    nonce raises [KeyError], after the state has been changed as said. *)
Theorem pending_decided l i K kd K1 dl sm version st :
  open_mode O = false →
  dict_get "id" l = Some (PStr i) → valid_id E i = true →
  dict_get "pub" l = Some (PStr K) → gate_passes i st →
  cache st !! ("keys", i) = Some (PDict kd) →
  dict_get "state" kd = Some (PStr "pending") →
  dict_get "pub" kd = Some (PStr K1) →
  denied_keys st i = Some dl →
  let r := _auth O E (PDict l) sm version st in
  (check_autoreject E (PStr i) = true →
   answers l sm (sig_algo_of l) (PBool false) (fst r)
   ∧ snd r = fired (auth_act_event false "reject" i (PStr (strip K)))
                   (with_record i (PDict (dict_set "state" (PStr "rejected")
                                            (dict_set "pub" (PStr (strip K1)) kd))) st))
  ∧ (check_autoreject E (PStr i) = false →
     check_autosign E (PStr i) (default PNone (dict_get "autosign_grains" l)) = false →
     compare_keys E (PStr (strip K1)) (PStr (strip K)) = Ok true →
     answers l sm (sig_algo_of l) (PBool true) (fst r)
     ∧ snd r = fired (auth_act_event true "pend" i (PStr (strip K))) st).
Proof.
  intros Hopen Hid Hvalid Hpub Hgate Hkey Hstate Hkpub Hden. cbv zeta.
  destruct (pending_decided_run l i K kd K1 dl sm version st) as [Hrej Hpend];
    try done.
  split.
  - intros Har. rewrite (Hrej Har). split; [apply reply_value_answers | done].
  - intros Har Has Hcmp. rewrite (Hpend Har Has Hcmp).
    split; [apply reply_value_answers | done].
Qed.

(** One run of [_auth] on a pending KeyRecord with another key. *)
Lemma pending_key_mismatch_denied_run l i K kd K1 dl sm version st :
  open_mode O = false →
  dict_get "id" l = Some (PStr i) → valid_id E i = true →
  dict_get "pub" l = Some (PStr K) → gate_passes i st →
  cache st !! ("keys", i) = Some (PDict kd) →
  dict_get "state" kd = Some (PStr "pending") →
  dict_get "pub" kd = Some (PStr K1) →
  denied_keys st i = Some dl →
  check_autoreject E (PStr i) = false →
  compare_keys E (PStr (strip K1)) (PStr (strip K)) = Ok false →
  let r := _auth O E (PDict l) sm version st in
  fst r = reply_value (PDict l) sm (sig_algo_of l) (PBool false)
  ∧ denied_keys (snd r) i
    = Some (if list_contains (PStr (strip K)) dl then dl
            else (dl ++ [PStr (strip K)])%list)
  ∧ ∀ j, cache (snd r) !! ("keys", j) = cache st !! ("keys", j).
Proof.
  intros Hopen Hid Hvalid Hpub Hgate Hkey Hstate Hkpub Hden Hrej Hcmp r.
  pose proof (policy_pending (dict_set "pub" (PStr (strip K)) l) sm (sig_algo_of l) i
                (PStr (strip K)) kd K1 dl st Hopen Hkey Hstate Hkpub Hden) as Hpol.
  cbn zeta in Hpol. rewrite Hrej, Hcmp in Hpol.
  apply (auth_decided l i K sm version) in Hpol; try done.
  subst r. rewrite Hpol. cbn [fst snd]. split; [done|].
  unfold ReqServerChannel.fired, with_denied, denied_keys.
  destruct (auth_events O), (negb _), (list_contains (PStr (strip K)) dl) eqn:Hin; cbn;
    rewrite ?lookup_insert_eq; (split; [by (done || apply Hden)|]); intros j;
    by rewrite ?lookup_insert_ne.
Qed.

(** X5. A pending KeyRecord and a key that does not compare equal to it (open
    mode off, a valid id, the [max_minions] gate passed, the identity not named
    by autoreject): whether or not autosign names the identity, the key sent is
    appended to the identity's denied keys unless it is already among them, no
    KeyRecord changes, and the request is answered with [False]. Answered with a
    value [v] means: [{"enc": "clear", "load": {"ret": v}}] when messages are
    not signed; when they are signed and the load has a nonce, the signed
    [{"ret": v, "nonce": nonce}], or [{"ret": "bad sig algo"}] when the signing
    algorithm is not supported (any other error of the signer is raised as it
    is); a signed request without nonce raises [KeyError], after the state has
    been changed as said. *)
Theorem pending_key_mismatch_denied l i K kd K1 dl sm version st :
  open_mode O = false →
  dict_get "id" l = Some (PStr i) → valid_id E i = true →
  dict_get "pub" l = Some (PStr K) → gate_passes i st →
  cache st !! ("keys", i) = Some (PDict kd) →
  dict_get "state" kd = Some (PStr "pending") →
  dict_get "pub" kd = Some (PStr K1) →
  denied_keys st i = Some dl →
  check_autoreject E (PStr i) = false →
  compare_keys E (PStr (strip K1)) (PStr (strip K)) = Ok false →
  let r := _auth O E (PDict l) sm version st in
  answers l sm (sig_algo_of l) (PBool false) (fst r)
  ∧ denied_keys (snd r) i
    = Some (if list_contains (PStr (strip K)) dl then dl
            else (dl ++ [PStr (strip K)])%list)
  ∧ ∀ j, cache (snd r) !! ("keys", j) = cache st !! ("keys", j).
Proof.
  intros Hopen Hid Hvalid Hpub Hgate Hkey Hstate Hkpub Hden Har Hcmp.
  destruct (pending_key_mismatch_denied_run l i K kd K1 dl sm version st)
    as (Hr & Hd & Hk); try done.
  cbv zeta. rewrite Hr. split; [apply reply_value_answers | done].
Qed.

Lemma accept_store_new load sm sig_algo i pub key st :
  open_mode O = false →
  key = PNone
  ∨ (∃ kd s, key = PDict kd ∧ dict_get "state" kd = Some (PStr s) ∧ s ≠ "accepted") →
  accept_store O E load sm sig_algo (PStr i) pub key st
  = (Next (record pub "accepted"), with_record i (record pub "accepted") st).
Proof.
  intros Hopen Hkey. unfold accept_store, cache_store. run_body.
  destruct Hkey as [->|(kd & s & -> & Hstate & Hs)].
  - change (truthy PNone) with false. cbn. by rewrite Hopen.
  - assert (Htruthy : truthy (PDict kd) = true).
    { destruct kd; [discriminate Hstate | done]. }
    rewrite Htruthy. cbn. rewrite Hstate. cbn.
    apply String.eqb_neq in Hs. rewrite Hs. cbn. by rewrite Hopen.
Qed.

(** The accept path once the KeyRecord is settled: the reply is built from
    the key of the record. *)
Lemma accept_from_store l sm version i pub key kd stored st s0 :
  accept_store O E (PDict (dict_set "pub" pub l)) sm (sig_algo_of l) (PStr i) pub key st
  = (Next (PDict kd), s0) →
  dict_get "pub" kd = Some stored →
  serviceable l stored version s0 →
  ∃ ret st',
    _auth_accept O E (PDict (dict_set "pub" pub l)) sm version
                 (enc_algo_of l) (sig_algo_of l) (PStr i) pub key st
    = (flow_of (accept_value (PDict l) sm (sig_algo_of l) ret), st')
    ∧ accept_shape ret ∧ frame s0 st'.
Proof.
  intros Hstore Hpub
    (pk & aes & dg & sg & Hpk & Henc & Hsig & Htok & Haes & Hdg & Hsg & v & Hv).
  unfold _auth_accept.
  rewrite (bind_next _ _ _ _ _ Hstore).
  set (st1 := if con_cache O then fed i s0 else s0).
  assert (Hf1 : frame s0 st1).
  { subst st1. destruct (con_cache O); [apply frame_fed | apply frame_refl]. }
  assert (Hwhen : when (R:=PyVal) (con_cache O) (cache_put E (PStr i)) s0
                  = (Next tt, st1)).
  { subst st1. unfold when. by destruct (con_cache O). }
  rewrite (bind_next _ _ _ _ _ Hwhen).
  unfold bind at 1, try_except, bind at 1, lift at 1. cbn [subscript]. rewrite Hpub.
  unfold lift at 1. rewrite Hpk.
  destruct (accept_pub_sig_run O E (sig_algo_of l)
              [("enc", PStr "pub"); ("pub_key", master_pub_str E);
               ("publish_port", publish_port O)] st1 Hsig)
    as (ret1 & Hrun1 & Hb1); [done|].
  rewrite (bind_next _ _ _ _ _ Hrun1).
  destruct (accept_secrets_run O E (dict_set "pub" pub l) (enc_algo_of l) i pk ret1 aes st1)
    as (ret2 & st2 & Hrun2 & Hf2 & Hb2 & Ha2 & Hs2); try done.
  { intros t. rewrite dict_get_set_ne by done. apply Htok. }
  { rewrite dict_get_set_ne by done. by rewrite (aes_value_frame O E _ _ _ _ Hf1). }
  rewrite (bind_next _ _ _ _ _ Hrun2).
  unfold bind at 1, lift at 1, py_lt. rewrite Hv.
  unfold bind at 1, lift at 1. rewrite Hdg.
  unfold bind at 1, lift at 1. rewrite Hsg.
  unfold bind at 1. rewrite fire_run.
  exists (dict_set "sig" sg ret2),
         (fired (PDict [("result", PBool true); ("act", PStr "accept");
                        ("id", PStr i); ("pub", pub)]) st2).
  split; [|split].
  - unfold ReqServerChannel.accept_value. destruct sm; [|done].
    unfold bind at 1, lift at 1. cbn [subscript].
    rewrite dict_get_set_ne by done.
    destruct (dict_get "nonce" l); [|done].
    unfold bind, lift, return_.
    by destruct (_clear_signed E _ (sig_algo_of l)).
  - split; [by apply base_shape_set|]. split; [|split].
    + by rewrite dict_get_set_ne.
    + by rewrite dict_get_set_ne.
    + rewrite dict_get_set_eq. eauto.
  - eapply frame_trans; [exact Hf1|]. eapply frame_trans; [exact Hf2|].
    unfold ReqServerChannel.fired.
    destruct (auth_events O); [by apply frame_log | apply frame_refl].
Qed.

Lemma serviceable_with_record l stored version i rec st :
  serviceable l stored version st → serviceable l stored version (with_record i rec st).
Proof.
  intros (pk & aes & dg & sg & H1 & H2 & H3 & H4 & H5 & H6).
  exists pk, aes, dg, sg. do 4 (split; [done|]). split; [|done]. exact H5.
Qed.

Lemma policy_pending_autosign l0 sm sig_algo i pub kd K1 st :
  open_mode O = false →
  cache st !! ("keys", i) = Some (PDict kd) →
  dict_get "state" kd = Some (PStr "pending") →
  dict_get "pub" kd = Some (PStr K1) →
  check_autoreject E (PStr i) = false →
  check_autosign E (PStr i) (default PNone (dict_get "autosign_grains" l0)) = true →
  compare_keys E (PStr (strip K1)) pub = Ok true →
  _auth_policy O E (PDict l0) sm sig_algo (PStr i) pub st
  = (Next (PDict (dict_set "pub" (PStr (strip K1)) kd)), st).
Proof.
  intros Hopen Hkey Hstate Hkpub Hrej Hsign Hcmp.
  assert (Htruthy : truthy (PDict kd) = true) by (by destruct kd).
  unfold _auth_policy, cache_fetch, key_state_is, cache_store. run_body.
  rewrite Hkey. cbn. rewrite Htruthy. cbn.
  unfold dict_has. rewrite Hkpub. cbn.
  rewrite Hopen. rewrite !truthy_dict_set. cbn.
  rewrite dict_get_set_ne by done. rewrite Hstate. cbn.
  rewrite Hrej, Hsign. cbn. rewrite dict_get_set_eq. cbn. by rewrite Hcmp.
Qed.

(** One run of [_auth] for an identity that autosign accepts. *)
Lemma autosign_accepts_run l i K sm version st :
  open_mode O = false →
  dict_get "id" l = Some (PStr i) → valid_id E i = true →
  dict_get "pub" l = Some (PStr K) → gate_passes i st →
  check_autoreject E (PStr i) = false →
  check_autosign E (PStr i) (default PNone (dict_get "autosign_grains" l)) = true →
  cache st !! ("keys", i) = None
  ∨ (∃ kd K1, cache st !! ("keys", i) = Some (PDict kd)
              ∧ dict_get "state" kd = Some (PStr "pending")
              ∧ dict_get "pub" kd = Some (PStr K1)
              ∧ compare_keys E (PStr (strip K1)) (PStr (strip K)) = Ok true) →
  serviceable l (PStr (strip K)) version st →
  ∃ ret st',
    _auth O E (PDict l) sm version st
    = (accept_value (PDict l) sm (sig_algo_of l) ret, st')
    ∧ accept_shape ret
    ∧ frame (with_record i (record (PStr (strip K)) "accepted") st) st'.
Proof.
  intros Hopen Hid Hvalid Hpub Hgate Hrej Hsign Hrec Hserv.
  set (l' := dict_set "pub" (PStr (strip K)) l).
  assert (Hpol : ∃ key,
             _auth_policy O E (PDict l') sm (sig_algo_of l) (PStr i) (PStr (strip K)) st
             = (Next key, st)
             ∧ (key = PNone
                ∨ ∃ kd s, key = PDict kd ∧ dict_get "state" kd = Some (PStr s)
                          ∧ s ≠ "accepted")).
  { destruct Hrec as [Hnone|(kd & K1 & Hkey & Hstate & Hkpub & Hcmp)].
    - exists PNone. split; [|by left].
      pose proof (policy_new l' sm (sig_algo_of l) i (PStr (strip K)) st Hopen Hnone)
        as Hpol.
      cbn zeta in Hpol. subst l'. rewrite dict_get_set_ne in Hpol by done.
      by rewrite Hrej, Hsign in Hpol.
    - exists (PDict (dict_set "pub" (PStr (strip K1)) kd)). split.
      + apply (policy_pending_autosign l' sm (sig_algo_of l) i _ kd K1 st); try done.
        subst l'. by rewrite dict_get_set_ne.
      + right. exists (dict_set "pub" (PStr (strip K1)) kd), "pending".
        split; [done|]. split; [|done]. by rewrite dict_get_set_ne. }
  destruct Hpol as (key & Hpol & Hkey).
  destruct (accept_from_store l sm version i (PStr (strip K)) key
              [("pub", PStr (strip K)); ("state", PStr "accepted")] (PStr (strip K)) st
              (with_record i (record (PStr (strip K)) "accepted") st))
    as (ret & st' & Hrun & Hshape & Hf).
  { by apply accept_store_new. }
  { done. }
  { by apply serviceable_with_record. }
  exists ret, st'. split; [|done].
  rewrite (auth_past_gate l i K sm version st) by done.
  subst l'. unfold method. rewrite (bind_next _ _ _ _ _ Hpol), Hrun.
  by destruct (accept_value (PDict l) sm (sig_algo_of l) ret).
Qed.

(** X6. Autosign (open mode off, a valid id, the [max_minions] gate passed, the
    identity not named by autoreject): an identity with no KeyRecord, or with a
    pending one whose key compares equal to the key sent, is accepted at once
    when the reply material can be produced. The KeyRecord stored is [{"pub":
    key sent, "state": "accepted"}], an accept reply is built ([enc: "pub"], the
    master's public key and publish port, [aes], [session], [sig]) and nothing
    else is stored. The accept reply is returned as it is when messages are not
    signed; when they are signed and the load has a nonce it is returned signed,
    with the nonce added to it, or replaced by [{"ret": "bad sig algo"}] when
    the signing algorithm is not supported (any other error of the signer is
    raised as it is); a signed request without nonce raises [KeyError], after
    the record has been stored. *)
Theorem autosign_accepts l i K sm version st :
  open_mode O = false →
  dict_get "id" l = Some (PStr i) → valid_id E i = true →
  dict_get "pub" l = Some (PStr K) → gate_passes i st →
  check_autoreject E (PStr i) = false →
  check_autosign E (PStr i) (default PNone (dict_get "autosign_grains" l)) = true →
  cache st !! ("keys", i) = None
  ∨ (∃ kd K1, cache st !! ("keys", i) = Some (PDict kd)
              ∧ dict_get "state" kd = Some (PStr "pending")
              ∧ dict_get "pub" kd = Some (PStr K1)
              ∧ compare_keys E (PStr (strip K1)) (PStr (strip K)) = Ok true) →
  serviceable l (PStr (strip K)) version st →
  let r := _auth O E (PDict l) sm version st in
  ∃ ret,
    accepts l sm (sig_algo_of l) ret (fst r)
    ∧ accept_shape ret
    ∧ frame (with_record i (record (PStr (strip K)) "accepted") st) (snd r).
Proof.
  intros Hopen Hid Hvalid Hpub Hgate Har Has Hkey Hserv. cbv zeta.
  destruct (autosign_accepts_run l i K sm version st)
    as (ret & st' & Hrun & Hshape & Hf); try done.
  exists ret. rewrite Hrun. split; [apply accept_value_accepts | done].
Qed.

Lemma policy_open l0 sm sig_algo i pub st :
  open_mode O = true →
  (cache st !! ("keys", i) = None →
   _auth_policy O E (PDict l0) sm sig_algo (PStr i) pub st = (Next PNone, st))
  ∧ (∀ kd K1, cache st !! ("keys", i) = Some (PDict kd) →
              dict_get "pub" kd = Some (PStr K1) →
              _auth_policy O E (PDict l0) sm sig_algo (PStr i) pub st
              = (Next (PDict (dict_set "pub" (PStr (strip K1)) kd)), st)).
Proof.
  intros Hopen. split.
  - intros Hkey. unfold _auth_policy, cache_fetch. run_body.
    rewrite Hkey. cbn. change (truthy PNone) with false. cbn. by rewrite Hopen.
  - intros kd K1 Hkey Hkpub.
    assert (Htruthy : truthy (PDict kd) = true) by (by destruct kd).
    unfold _auth_policy, cache_fetch. run_body.
    rewrite Hkey. cbn. rewrite Htruthy. cbn.
    unfold dict_has. rewrite Hkpub. cbn. by rewrite Hopen.
Qed.

Lemma accept_store_open load sm sig_algo i pub st :
  open_mode O = true →
  (truthy pub = true →
   accept_store O E load sm sig_algo (PStr i) pub PNone st
   = (Next (record pub "accepted"), with_record i (record pub "accepted") st))
  ∧ (∀ kd sv kp, truthy pub = true →
       dict_get "state" kd = Some sv → dict_get "pub" kd = Some kp →
       accept_store O E load sm sig_algo (PStr i) pub (PDict kd) st
       = if pyeq pub kp then (Next (PDict kd), st)
         else (Next (record pub "accepted"), with_record i (record pub "accepted") st))
  ∧ (∀ key, truthy pub = false →
       key = PNone ∨ (∃ kd sv, key = PDict kd ∧ dict_get "state" kd = Some sv) →
       accept_store O E load sm sig_algo (PStr i) pub key st
       = (flow_of (reply_value load sm sig_algo (PBool false)), st)).
Proof.
  intros Hopen. split; [|split].
  - intros Hpub. unfold accept_store, cache_store. run_body.
    change (truthy PNone) with false. cbn. by rewrite Hopen, Hpub.
  - intros kd sv kp Hpub Hstate Hkp.
    assert (Htruthy : truthy (PDict kd) = true).
    { destruct kd; [discriminate Hstate | done]. }
    unfold accept_store, cache_store. run_body.
    rewrite Htruthy. cbn. rewrite Hstate. cbn. rewrite Hopen, Bool.andb_false_r, Hpub.
    rewrite ?Htruthy. cbn. rewrite Hkp. cbn. by destruct (pyeq pub kp).
  - intros key Hpub Hkey. unfold accept_store. run_body.
    destruct Hkey as [->|(kd & sv & -> & Hstate)].
    + change (truthy PNone) with false. cbn. rewrite Hopen, Hpub. cbn.
      rewrite reply_run. by destruct (reply_value load sm sig_algo (PBool false)).
    + assert (Htruthy : truthy (PDict kd) = true).
      { destruct kd; [discriminate Hstate | done]. }
      rewrite Htruthy. cbn. rewrite Hstate. cbn.
      rewrite Hopen, Bool.andb_false_r, Hpub.
      rewrite reply_run. by destruct (reply_value load sm sig_algo (PBool false)).
Qed.

(** One run of [_auth] in open mode with a key that is not empty. *)
Lemma open_mode_accepts_run l i K sm version st :
  open_mode O = true →
  dict_get "id" l = Some (PStr i) → valid_id E i = true →
  dict_get "pub" l = Some (PStr K) → gate_passes i st →
  strip K ≠ "" →
  serviceable l (PStr (strip K)) version st →
  (cache st !! ("keys", i) = None →
   ∃ ret st',
     _auth O E (PDict l) sm version st
     = (accept_value (PDict l) sm (sig_algo_of l) ret, st')
     ∧ accept_shape ret
     ∧ frame (with_record i (record (PStr (strip K)) "accepted") st) st')
  ∧ (∀ kd K1 sv,
       cache st !! ("keys", i) = Some (PDict kd) →
       dict_get "state" kd = Some sv → dict_get "pub" kd = Some (PStr K1) →
       ∃ ret st',
         _auth O E (PDict l) sm version st
         = (accept_value (PDict l) sm (sig_algo_of l) ret, st')
         ∧ accept_shape ret
         ∧ frame (if String.eqb (strip K) (strip K1) then st
                  else with_record i (record (PStr (strip K)) "accepted") st) st').
Proof.
  intros Hopen Hid Hvalid Hpub Hgate Hne Hserv.
  assert (Htruthy : truthy (PStr (strip K)) = true).
  { unfold truthy. apply String.eqb_neq in Hne. by rewrite Hne. }
  set (l' := dict_set "pub" (PStr (strip K)) l).
  destruct (policy_open l' sm (sig_algo_of l) i (PStr (strip K)) st Hopen)
    as [Hpnew Hprec].
  destruct (accept_store_open (PDict l') sm (sig_algo_of l) i (PStr (strip K)) st Hopen)
    as (Hsnew & Hsrec & _).
  split.
  - intros Hnone.
    destruct (accept_from_store l sm version i (PStr (strip K)) PNone
                [("pub", PStr (strip K)); ("state", PStr "accepted")] (PStr (strip K)) st
                (with_record i (record (PStr (strip K)) "accepted") st))
      as (ret & st' & Hrun & Hshape & Hf).
    { by apply Hsnew. }
    { done. }
    { by apply serviceable_with_record. }
    exists ret, st'. split; [|done].
    rewrite (auth_past_gate l i K sm version st) by done.
    subst l'. unfold method. rewrite (bind_next _ _ _ _ _ (Hpnew Hnone)), Hrun.
    by destruct (accept_value (PDict l) sm (sig_algo_of l) ret).
  - intros kd K1 sv Hkey Hstate Hkpub.
    assert (Hstore := Hsrec (dict_set "pub" (PStr (strip K1)) kd) sv
                             (PStr (strip K1)) Htruthy).
    rewrite dict_get_set_ne, dict_get_set_eq in Hstore by done.
    specialize (Hstore Hstate eq_refl). cbn [pyeq] in Hstore.
    set (kd' := dict_set "pub" (PStr (strip K1)) kd) in *.
    destruct (String.eqb (strip K) (strip K1)) eqn:Heq.
    + apply String.eqb_eq in Heq.
      destruct (accept_from_store l sm version i (PStr (strip K)) (PDict kd')
                  kd' (PStr (strip K)) st st)
        as (ret & st' & Hrun & Hshape & Hf); try done.
      { subst kd'. rewrite Heq. apply dict_get_set_eq. }
      exists ret, st'. split; [|done].
      rewrite (auth_past_gate l i K sm version st) by done.
      subst l'. unfold method. rewrite (bind_next _ _ _ _ _ (Hprec kd K1 Hkey Hkpub)).
      fold kd'. rewrite Hrun.
      by destruct (accept_value (PDict l) sm (sig_algo_of l) ret).
    + destruct (accept_from_store l sm version i (PStr (strip K)) (PDict kd')
                  [("pub", PStr (strip K)); ("state", PStr "accepted")]
                  (PStr (strip K)) st
                  (with_record i (record (PStr (strip K)) "accepted") st))
        as (ret & st' & Hrun & Hshape & Hf);
        [done | done | by apply serviceable_with_record |].
      exists ret, st'. split; [|done].
      rewrite (auth_past_gate l i K sm version st) by done.
      subst l'. unfold method. rewrite (bind_next _ _ _ _ _ (Hprec kd K1 Hkey Hkpub)).
      fold kd'. rewrite Hrun.
      by destruct (accept_value (PDict l) sm (sig_algo_of l) ret).
Qed.

(** X7. Open mode skips the decision on the KeyRecord: a request with a valid id
    that the [max_minions] gate lets through and a key that is not empty once
    stripped is accepted when the reply material can be produced, whatever the
    state of the record (rejected included). With no record, or a record holding
    another key, the record is overwritten with [{"pub": key sent, "state":
    "accepted"}]; with a record holding the same key, nothing is stored and the
    record keeps the state it had. The accept reply is returned as it is when
    messages are not signed; when they are signed and the load has a nonce it is
    returned signed, with the nonce added to it, or replaced by [{"ret": "bad
    sig algo"}] when the signing algorithm is not supported (any other error of
    the signer is raised as it is); a signed request without nonce raises
    [KeyError], after the record, if any, has been stored. *)
Theorem open_mode_accepts l i K sm version st :
  open_mode O = true →
  dict_get "id" l = Some (PStr i) → valid_id E i = true →
  dict_get "pub" l = Some (PStr K) → gate_passes i st →
  strip K ≠ "" →
  serviceable l (PStr (strip K)) version st →
  let r := _auth O E (PDict l) sm version st in
  (cache st !! ("keys", i) = None →
   ∃ ret,
     accepts l sm (sig_algo_of l) ret (fst r)
     ∧ accept_shape ret
     ∧ frame (with_record i (record (PStr (strip K)) "accepted") st) (snd r))
  ∧ (∀ kd K1 sv,
       cache st !! ("keys", i) = Some (PDict kd) →
       dict_get "state" kd = Some sv → dict_get "pub" kd = Some (PStr K1) →
       ∃ ret,
         accepts l sm (sig_algo_of l) ret (fst r)
         ∧ accept_shape ret
         ∧ frame (if String.eqb (strip K) (strip K1) then st
                  else with_record i (record (PStr (strip K)) "accepted") st)
                 (snd r)).
Proof.
  intros Hopen Hid Hvalid Hpub Hgate Hne Hserv. cbv zeta.
  destruct (open_mode_accepts_run l i K sm version st) as [Hnew Hold]; try done.
  split.
  - intros Hkey. destruct (Hnew Hkey) as (ret & st' & Hrun & Hshape & Hf).
    exists ret. rewrite Hrun. split; [apply accept_value_accepts | done].
  - intros kd K1 sv Hkey Hstate Hkpub.
    destruct (Hold kd K1 sv Hkey Hstate Hkpub) as (ret & st' & Hrun & Hshape & Hf).
    exists ret. rewrite Hrun. split; [apply accept_value_accepts | done].
Qed.

(** One run of [_auth] in open mode with an empty key. *)
Lemma open_mode_empty_key_run l i K sm version st :
  open_mode O = true →
  dict_get "id" l = Some (PStr i) → valid_id E i = true →
  dict_get "pub" l = Some (PStr K) → gate_passes i st →
  strip K = "" →
  cache st !! ("keys", i) = None
  ∨ (∃ kd K1 sv, cache st !! ("keys", i) = Some (PDict kd)
                 ∧ dict_get "state" kd = Some sv
                 ∧ dict_get "pub" kd = Some (PStr K1)) →
  _auth O E (PDict l) sm version st
  = (reply_value (PDict l) sm (sig_algo_of l) (PBool false), st).
Proof.
  intros Hopen Hid Hvalid Hpub Hgate Hempty Hrec.
  assert (Hfalsy : truthy (PStr (strip K)) = false) by (by rewrite Hempty).
  set (l' := dict_set "pub" (PStr (strip K)) l).
  destruct (policy_open l' sm (sig_algo_of l) i (PStr (strip K)) st Hopen)
    as [Hpnew Hprec].
  destruct (accept_store_open (PDict l') sm (sig_algo_of l) i (PStr (strip K)) st Hopen)
    as (_ & _ & Hsempty).
  rewrite (auth_past_gate l i K sm version st) by done. fold l'.
  assert (Hpol : ∃ key,
             _auth_policy O E (PDict l') sm (sig_algo_of l) (PStr i) (PStr (strip K)) st
             = (Next key, st)
             ∧ (key = PNone
                ∨ ∃ kd sv, key = PDict kd ∧ dict_get "state" kd = Some sv)).
  { destruct Hrec as [Hnone|(kd & K1 & sv & Hkey & Hstate & Hkpub)].
    - exists PNone. split; [by apply Hpnew | by left].
    - exists (PDict (dict_set "pub" (PStr (strip K1)) kd)).
      split; [by apply Hprec|]. right. eexists _, sv. split; [done|].
      by rewrite dict_get_set_ne. }
  destruct Hpol as (key & Hpol & Hkey).
  unfold method. rewrite (bind_next _ _ _ _ _ Hpol).
  unfold _auth_accept, bind. rewrite (Hsempty key Hfalsy Hkey).
  subst l'. rewrite reply_value_set_pub.
  by destruct (reply_value (PDict l) sm (sig_algo_of l) (PBool false)).
Qed.

(** X8. Open mode and an empty key: a request with a valid id that the
    [max_minions] gate lets through and whose key is empty once stripped is
    answered with [False]; nothing is stored and no auth event is fired: the
    state is left exactly as it was. Answered with a value [v] means: [{"enc":
    "clear", "load": {"ret": v}}] when messages are not signed; when they are
    signed and the load has a nonce, the signed [{"ret": v, "nonce": nonce}], or
    [{"ret": "bad sig algo"}] when the signing algorithm is not supported (any
    other error of the signer is raised as it is); a signed request without
    nonce raises [KeyError]. *)
Theorem open_mode_empty_key_refused l i K sm version st :
  open_mode O = true →
  dict_get "id" l = Some (PStr i) → valid_id E i = true →
  dict_get "pub" l = Some (PStr K) → gate_passes i st →
  strip K = "" →
  cache st !! ("keys", i) = None
  ∨ (∃ kd K1 sv, cache st !! ("keys", i) = Some (PDict kd)
                 ∧ dict_get "state" kd = Some sv
                 ∧ dict_get "pub" kd = Some (PStr K1)) →
  let r := _auth O E (PDict l) sm version st in
  answers l sm (sig_algo_of l) (PBool false) (fst r) ∧ snd r = st.
Proof.
  intros Hopen Hid Hvalid Hpub Hgate Hempty Hkey. cbv zeta.
  rewrite (open_mode_empty_key_run l i K sm version st) by done.
  split; [apply reply_value_answers | done].
Qed.

(** One run of [_auth] on an id that is not valid. *)
Lemma invalid_id_refused_run l id sm version st :
  dict_get "id" l = Some id → valid_id_val E id = false →
  _auth O E (PDict l) sm version st
  = (reply_value (PDict l) sm (sig_algo_of l) (PBool false), st).
Proof.
  intros Hid Hinv. unfold _auth, method, _auth_body, _auth_validate. run_body.
  rewrite Hid. cbn. rewrite Hinv. cbn. rewrite reply_run.
  unfold ReqServerChannel.sig_algo_of.
  by destruct (ReqServerChannel.reply_value E (PDict l) sm _ (PBool false)).
Qed.

(** X9. An [_auth] request whose id is not a valid minion id (or not a string)
    is refused before anything else is looked at, whether or not the load has a
    key: it is answered with [False] and the state is left exactly as it was.
    Answered with a value [v] means: [{"enc": "clear", "load": {"ret": v}}] when
    messages are not signed; when they are signed and the load has a nonce, the
    signed [{"ret": v, "nonce": nonce}], or [{"ret": "bad sig algo"}] when the
    signing algorithm is not supported (any other error of the signer is raised
    as it is); a signed request without nonce raises [KeyError]. *)
Theorem invalid_id_refused l id sm version st :
  dict_get "id" l = Some id → valid_id_val E id = false →
  let r := _auth O E (PDict l) sm version st in
  answers l sm (sig_algo_of l) (PBool false) (fst r) ∧ snd r = st.
Proof.
  intros Hid Hinv. cbv zeta.
  rewrite (invalid_id_refused_run l id sm version st) by done.
  split; [apply reply_value_answers | done].
Qed.

End Decisions.

(** A rejected identity asks again with the key on record, while autosign
    would accept it, in a request that is not signed and in one that is. *)
Lemma other_state_refused_witness :
  let st := state [("keys", "minion1", key_record "PUB1" "rejected")]
                  (PBytes "s0") (PBytes "s0") [] in
  let r := _auth (opts 0 0) (env false true) (auth_load "minion1" "PUB1")
                 false (PInt 0) st in
  let r' := _auth (opts 0 0) (env false true)
                  (PDict (signed_auth_load "minion1" "PUB1")) true (PInt 2) st in
  (fst r = Ok (clear_reply (PBool false))
   ∧ snd r = log (FireEvent (auth_event false "minion1" (PStr "PUB1"))) st)
  ∧ (fst r' = Ok (signed_ret (PBool false))
     ∧ snd r' = log (FireEvent (auth_event false "minion1" (PStr "PUB1"))) st).
Proof.
  intros st r r'. split.
  - destruct (other_state_refused (opts 0 0) (env false true)
                [("cmd", PStr "_auth"); ("id", PStr "minion1"); ("pub", PStr "PUB1")]
                "minion1" "PUB1" [("pub", PStr "PUB1"); ("state", PStr "rejected")]
                "PUB1" "rejected" false (PInt 0) st) as [Ha Hs]; [scenario_side..|].
    split; [answered_clear Ha | exact Hs].
  - destruct (other_state_refused (opts 0 0) (env false true)
                (signed_auth_load "minion1" "PUB1")
                "minion1" "PUB1" [("pub", PStr "PUB1"); ("state", PStr "rejected")]
                "PUB1" "rejected" true (PInt 2) st) as [Ha Hs]; [scenario_side..|].
    split; [answered_signed Ha | exact Hs].
Defined.

(** A new identity, named by neither autoreject nor autosign, sends [" PUB1 "]
    in a request that is not signed and in one that is: PUB1 is put in
    pending. *)
Lemma new_minion_decided_witness :
  let st := state [] (PBytes "s0") (PBytes "s0") [] in
  let st' := log (FireEvent (auth_act_event true "pend" "minion1" (PStr "PUB1")))
               (with_record "minion1" (key_record "PUB1" "pending") st) in
  let r := _auth (opts 0 0) (env false false) (auth_load "minion1" " PUB1 ")
                 false (PInt 0) st in
  let r' := _auth (opts 0 0) (env false false)
                  (PDict (signed_auth_load "minion1" " PUB1 ")) true (PInt 2) st in
  (fst r = Ok (clear_reply (PBool true)) ∧ snd r = st')
  ∧ (fst r' = Ok (signed_ret (PBool true)) ∧ snd r' = st').
Proof.
  intros st st' r r'. split.
  - destruct (new_minion_decided (opts 0 0) (env false false)
                [("cmd", PStr "_auth"); ("id", PStr "minion1"); ("pub", PStr " PUB1 ")]
                "minion1" " PUB1 " false (PInt 0) st) as [_ H]; [scenario_side..|].
    destruct (H eq_refl eq_refl) as [Ha Hs].
    split; [answered_clear Ha | exact Hs].
  - destruct (new_minion_decided (opts 0 0) (env false false)
                (signed_auth_load "minion1" " PUB1 ")
                "minion1" " PUB1 " true (PInt 2) st) as [_ H]; [scenario_side..|].
    destruct (H eq_refl eq_refl) as [Ha Hs].
    split; [answered_signed Ha | exact Hs].
Defined.

(** A pending identity named by autoreject, in a request that is not signed
    and in one that is: its record is stored as rejected. *)
Lemma pending_decided_witness :
  let st := state [("keys", "minion1", key_record "PUB1" "pending")]
                  (PBytes "s0") (PBytes "s0") [] in
  let st' := log (FireEvent (auth_act_event false "reject" "minion1" (PStr "PUB2")))
               (with_record "minion1" (key_record "PUB1" "rejected") st) in
  let r := _auth (opts 0 0) (env true false) (auth_load "minion1" "PUB2")
                 false (PInt 0) st in
  let r' := _auth (opts 0 0) (env true false)
                  (PDict (signed_auth_load "minion1" "PUB2")) true (PInt 2) st in
  (fst r = Ok (clear_reply (PBool false)) ∧ snd r = st')
  ∧ (fst r' = Ok (signed_ret (PBool false)) ∧ snd r' = st').
Proof.
  intros st st' r r'. split.
  - destruct (pending_decided (opts 0 0) (env true false)
                [("cmd", PStr "_auth"); ("id", PStr "minion1"); ("pub", PStr "PUB2")]
                "minion1" "PUB2" [("pub", PStr "PUB1"); ("state", PStr "pending")]
                "PUB1" [] false (PInt 0) st) as [H _]; [scenario_side..|].
    destruct (H eq_refl) as [Ha Hs].
    split; [answered_clear Ha | exact Hs].
  - destruct (pending_decided (opts 0 0) (env true false)
                (signed_auth_load "minion1" "PUB2")
                "minion1" "PUB2" [("pub", PStr "PUB1"); ("state", PStr "pending")]
                "PUB1" [] true (PInt 2) st) as [H _]; [scenario_side..|].
    destruct (H eq_refl) as [Ha Hs].
    split; [answered_signed Ha | exact Hs].
Defined.

(** A pending identity sends another key, with autosign on, in a request
    that is not signed and in one that is: refused, the key sent recorded as
    denied and the pending record left alone. *)
Lemma pending_key_mismatch_denied_witness :
  let st := state [("keys", "minion1", key_record "PUB1" "pending")]
                  (PBytes "s0") (PBytes "s0") [] in
  let r := _auth (opts 0 0) (env false true) (auth_load "minion1" "PUB2")
                 false (PInt 0) st in
  let r' := _auth (opts 0 0) (env false true)
                  (PDict (signed_auth_load "minion1" "PUB2")) true (PInt 2) st in
  (fst r = Ok (clear_reply (PBool false))
   ∧ denied_keys (snd r) "minion1" = Some [PStr "PUB2"]
   ∧ ∀ j, cache (snd r) !! ("keys", j) = cache st !! ("keys", j))
  ∧ (fst r' = Ok (signed_ret (PBool false))
     ∧ denied_keys (snd r') "minion1" = Some [PStr "PUB2"]
     ∧ ∀ j, cache (snd r') !! ("keys", j) = cache st !! ("keys", j)).
Proof.
  intros st r r'. split.
  - destruct (pending_key_mismatch_denied (opts 0 0) (env false true)
                [("cmd", PStr "_auth"); ("id", PStr "minion1"); ("pub", PStr "PUB2")]
                "minion1" "PUB2" [("pub", PStr "PUB1"); ("state", PStr "pending")]
                "PUB1" [] false (PInt 0) st) as (Ha & Hd & Hk); [scenario_side..|].
    split; [answered_clear Ha | split; [exact Hd | exact Hk]].
  - destruct (pending_key_mismatch_denied (opts 0 0) (env false true)
                (signed_auth_load "minion1" "PUB2")
                "minion1" "PUB2" [("pub", PStr "PUB1"); ("state", PStr "pending")]
                "PUB1" [] true (PInt 2) st) as (Ha & Hd & Hk); [scenario_side..|].
    split; [answered_signed Ha | split; [exact Hd | exact Hk]].
Defined.

(** Autosign at work: a new identity is accepted at once, in a request
    that is not signed and in one that is. *)
Lemma autosign_accepts_witness :
  let O := opts 0 0 in
  let E := env false true in
  let l := [("cmd", PStr "_auth"); ("id", PStr "minion1"); ("pub", PStr "PUB1")] in
  let l' := signed_auth_load "minion1" "PUB1" in
  let st := state [] (PBytes "s0") (PBytes "s0") [] in
  let r := _auth O E (PDict l) false (PInt 0) st in
  let r' := _auth O E (PDict l') true (PInt 2) st in
  (∃ ret,
     fst r = Ok (PDict ret) ∧ accept_shape O E ret
     ∧ frame (with_record "minion1" (key_record "PUB1" "accepted") st) (snd r))
  ∧ (∃ ret sg,
       fst r' = Ok (signed E (PDict (dict_set "nonce" (PStr "n1") ret)) sg)
       ∧ accept_shape O E ret
       ∧ frame (with_record "minion1" (key_record "PUB1" "accepted") st) (snd r')).
Proof.
  intros O E l l' st r r'. split.
  - destruct (autosign_accepts O E l "minion1" "PUB1" false (PInt 0) st)
      as (ret & Ha & Hshape & Hf);
      [scenario_side.. | by left | scenario_serviceable |].
    exists ret. split; [answered_clear Ha | done].
  - destruct (autosign_accepts O E l' "minion1" "PUB1" true (PInt 2) st)
      as (ret & Ha & Hshape & Hf);
      [scenario_side.. | by left | scenario_serviceable |].
    exists ret. eexists. split; [answered_signed Ha | done].
Defined.

(** Open mode at work: a rejected identity sending the key on record is
    accepted, and its record stays as it is, in a request that is not signed
    and in one that is. *)
Lemma open_mode_accepts_witness :
  let E := env false false in
  let l := [("cmd", PStr "_auth"); ("id", PStr "minion1"); ("pub", PStr "PUB1")] in
  let l' := signed_auth_load "minion1" "PUB1" in
  let st := state [("keys", "minion1", key_record "PUB1" "rejected")]
                  (PBytes "s0") (PBytes "s0") [] in
  let r := _auth open_opts E (PDict l) false (PInt 0) st in
  let r' := _auth open_opts E (PDict l') true (PInt 2) st in
  (∃ ret,
     fst r = Ok (PDict ret) ∧ accept_shape open_opts E ret ∧ frame st (snd r))
  ∧ (∃ ret sg,
       fst r' = Ok (signed E (PDict (dict_set "nonce" (PStr "n1") ret)) sg)
       ∧ accept_shape open_opts E ret ∧ frame st (snd r')).
Proof.
  intros E l l' st r r'. split.
  - destruct (open_mode_accepts open_opts E l "minion1" "PUB1" false (PInt 0) st)
      as [_ H]; [scenario_side.. | scenario_serviceable |].
    destruct (H [("pub", PStr "PUB1"); ("state", PStr "rejected")] "PUB1"
                (PStr "rejected")) as (ret & Ha & Hshape & Hf); [reflexivity..|].
    exists ret. split; [answered_clear Ha | done].
  - destruct (open_mode_accepts open_opts E l' "minion1" "PUB1" true (PInt 2) st)
      as [_ H]; [scenario_side.. | scenario_serviceable |].
    destruct (H [("pub", PStr "PUB1"); ("state", PStr "rejected")] "PUB1"
                (PStr "rejected")) as (ret & Ha & Hshape & Hf); [reflexivity..|].
    exists ret. eexists. split; [answered_signed Ha | done].
Defined.

(** Open mode and a key of blanks only, in a request that is not signed and
    in one that is. *)
Lemma open_mode_empty_key_refused_witness :
  let st := state [] (PBytes "s0") (PBytes "s0") [] in
  let r := _auth open_opts (env false false) (auth_load "minion1" "  ")
                 false (PInt 0) st in
  let r' := _auth open_opts (env false false)
                  (PDict (signed_auth_load "minion1" "  ")) true (PInt 2) st in
  (fst r = Ok (clear_reply (PBool false)) ∧ snd r = st)
  ∧ (fst r' = Ok (signed_ret (PBool false)) ∧ snd r' = st).
Proof.
  intros st r r'. split.
  - destruct (open_mode_empty_key_refused open_opts (env false false)
                [("cmd", PStr "_auth"); ("id", PStr "minion1"); ("pub", PStr "  ")]
                "minion1" "  " false (PInt 0) st) as [Ha Hs];
      [scenario_side.. | by left |].
    split; [answered_clear Ha | exact Hs].
  - destruct (open_mode_empty_key_refused open_opts (env false false)
                (signed_auth_load "minion1" "  ")
                "minion1" "  " true (PInt 2) st) as [Ha Hs];
      [scenario_side.. | by left |].
    split; [answered_signed Ha | exact Hs].
Defined.

(** An id with a path separator, and no key in the load, in a request that
    is not signed and in one that is. *)
Lemma invalid_id_refused_witness :
  let st := state [] (PBytes "s0") (PBytes "s0") [] in
  let l := [("cmd", PStr "_auth"); ("id", PStr "../minion1")] in
  let l' := [("cmd", PStr "_auth"); ("id", PStr "../minion1");
             ("nonce", PStr "n1")] in
  let r := _auth (opts 0 0) (env false false) (PDict l) false (PInt 0) st in
  let r' := _auth (opts 0 0) (env false false) (PDict l') true (PInt 2) st in
  (fst r = Ok (clear_reply (PBool false)) ∧ snd r = st)
  ∧ (fst r' = Ok (signed_ret (PBool false)) ∧ snd r' = st).
Proof.
  intros st l l' r r'. split.
  - destruct (invalid_id_refused (opts 0 0) (env false false) l
                (PStr "../minion1") false (PInt 0) st) as [Ha Hs];
      [reflexivity..|].
    split; [answered_clear Ha | exact Hs].
  - destruct (invalid_id_refused (opts 0 0) (env false false) l'
                (PStr "../minion1") true (PInt 2) st) as [Ha Hs];
      [reflexivity..|].
    split; [answered_signed Ha | exact Hs].
Defined.


(** *** The dispatcher before and after the payload handler *)
Section Dispatch.
Variable O : Opts.
Variable E : Env.

Lemma malformed_bad_load payload st :
  is_dict payload = false ∨ has_key payload "enc" = false
  ∨ has_key payload "load" = false →
  handle_message O E payload st = (Ok (PStr "bad load"), st).
Proof.
  intros H.
  unfold handle_message, method, handle_message_body, handle_message_checks.
  run_body.
  destruct H as [->|[->| ->]]; cbn; rewrite ?Bool.orb_true_r; done.
Qed.

Lemma decode_failure_bad_load d e st st' :
  is_Some (dict_get "enc" d) → is_Some (dict_get "load" d) →
  _decode_payload O E (PDict d) (default (PInt 0) (dict_get "version" d)) st
  = (Raise e, st') →
  handle_message O E (PDict d) st = (Ok (PStr "bad load"), st').
Proof.
  intros [enc Henc] [data Hdata] Hdec.
  unfold handle_message, method, handle_message_body, handle_message_checks.
  run_body. unfold dict_has. rewrite Henc, Hdata. cbn. by rewrite Hdec.
Qed.

Lemma v3_invalid_id_bad_load d z st :
  dict_get "enc" d = Some (PStr "aes") →
  is_Some (dict_get "load" d) →
  as_int (default (PInt 0) (dict_get "version" d)) = Ok z → 2 < z →
  dict_get "id" d = None
  ∨ (∃ id, dict_get "id" d = Some id ∧ valid_id_val E id = false) →
  handle_message O E (PDict d) st = (Ok (PStr "bad load"), st).
Proof.
  intros Henc [data Hdata] Hver Hz Hid.
  unfold handle_message, method, handle_message_body, handle_message_checks,
    _decode_payload, _decode_payload_body.
  run_body. unfold dict_has. rewrite Henc, Hdata. cbn.
  unfold py_gt. rewrite Hver. cbn.
  assert ((2 <? z) = true) as -> by lia. cbn.
  destruct Hid as [->|(id & -> & Hinv)]; cbn; [done|]. by rewrite Hinv.
Qed.

(** X10.  A payload that is not a mapping holding both [enc] and [load] is
    answered ["bad load"] and nothing is touched.  A payload whose decoding
    raises, whatever the exception, is answered ["bad load"] as well:
    [handle_message] does not let a decoding failure through.  In particular
    an ["aes"] envelope of version > 2 whose outer [id] is missing or is not
    a valid minion id is answered ["bad load"] without any attempt at
    decryption: no session key is issued and the state is left as it was. *)
Theorem undecodable_is_bad_load :
  (∀ payload st,
     is_dict payload = false ∨ has_key payload "enc" = false
     ∨ has_key payload "load" = false →
     handle_message O E payload st = (Ok (PStr "bad load"), st))
  ∧ (∀ d e st st',
       is_Some (dict_get "enc" d) → is_Some (dict_get "load" d) →
       _decode_payload O E (PDict d) (default (PInt 0) (dict_get "version" d)) st
       = (Raise e, st') →
       handle_message O E (PDict d) st = (Ok (PStr "bad load"), st'))
  ∧ (∀ d z st,
       dict_get "enc" d = Some (PStr "aes") →
       is_Some (dict_get "load" d) →
       as_int (default (PInt 0) (dict_get "version" d)) = Ok z → 2 < z →
       dict_get "id" d = None
       ∨ (∃ id, dict_get "id" d = Some id ∧ valid_id_val E id = false) →
       handle_message O E (PDict d) st = (Ok (PStr "bad load"), st)).
Proof.
  split; [apply malformed_bad_load|].
  split; [apply decode_failure_bad_load | apply v3_invalid_id_bad_load].
Qed.

(** X11.  Once decoded, a payload whose [load] is not a mapping is answered
    ["payload and load must be a dict"]; a load whose [id] holds a NUL is
    answered ["bad load: id contains a null byte"], and one whose [id] cannot
    be searched for a NUL (a number, [None], bytes) is answered
    ["bad load: id ... is not a string"].  This comes before the [_auth]
    interception, so it holds for [_auth] requests too. *)
Theorem load_prevalidation d p' st st' :
  is_Some (dict_get "enc" d) → is_Some (dict_get "load" d) →
  _decode_payload O E (PDict d) (default (PInt 0) (dict_get "version" d)) st
  = (Ok (PDict p'), st') →
  (is_dict (default PNone (dict_get "load" p')) = false →
   handle_message O E (PDict d) st
   = (Ok (PStr "payload and load must be a dict"), st'))
  ∧ (∀ l, dict_get "load" p' = Some (PDict l) →
       let id_ := default (PStr "") (dict_get "id" l) in
       (str_in NUL id_ = Ok true →
        handle_message O E (PDict d) st
        = (Ok (PStr "bad load: id contains a null byte"), st'))
       ∧ (str_in NUL id_ = Raise TypeError →
          handle_message O E (PDict d) st
          = (Ok (PStr ("bad load: id " ++ py_format E id_ ++ " is not a string")),
             st'))).
Proof.
  intros [enc Henc] [data Hdata] Hdec.
  split; [intros Hnd | intros l Hl id_; subst id_; split; intros Hin];
    unfold handle_message, method, handle_message_body, handle_message_checks;
    run_body; unfold dict_has; rewrite Henc, Hdata; cbn; rewrite Hdec; cbn.
  - by rewrite Hnd.
  - rewrite Hl. cbn. by rewrite Hin.
  - rewrite Hl. cbn. by rewrite Hin.
Qed.

Lemma decode_clear d enc version st :
  dict_get "enc" d = Some enc → pyeq enc (PStr "aes") = false →
  _decode_payload O E (PDict d) version st = (Ok (PDict d), st).
Proof.
  intros Henc Hne. unfold _decode_payload, method, _decode_payload_body. run_body.
  by rewrite Henc, Hne.
Qed.

(** X12.  An [_auth] request in clear is answered by [_auth] itself and the
    payload handler is not consulted: [handle_message] returns, or raises, what
    [_auth] does on the load, with [sign_messages] on exactly when the
    payload's version is above 1. *)
Theorem auth_intercepted d l z st :
  dict_get "enc" d = Some (PStr "clear") →
  dict_get "load" d = Some (PDict l) →
  dict_get "cmd" l = Some (PStr "_auth") →
  str_in NUL (default (PStr "") (dict_get "id" l)) = Ok false →
  as_int (default (PInt 0) (dict_get "version" d)) = Ok z →
  handle_message O E (PDict d) st
  = _auth O E (PDict l) (1 <? z) (default (PInt 0) (dict_get "version" d)) st.
Proof.
  intros Henc Hload Hcmd Hnul Hver.
  pose proof (decode_clear d (PStr "clear") (default (PInt 0) (dict_get "version" d))
                st Henc eq_refl) as Hdec.
  unfold handle_message, method, handle_message_body, handle_message_checks.
  run_body. unfold dict_has. rewrite Henc, Hload. cbn. rewrite Hdec. cbn.
  rewrite Hload. cbn. rewrite Hnul. cbn. unfold py_gt. rewrite Hver. cbn.
  rewrite Hcmd. cbn. rewrite Henc. cbn.
  by destruct (_auth O E (PDict l) (1 <? z) _ st) as [[r|e] s].
Qed.

(** What the dispatcher hands on for a payload that is not ["aes"] and not
    an [_auth] request in clear: the payload as it came, and no nonce. *)
Lemma checks_clear d enc l z st :
  dict_get "enc" d = Some enc → pyeq enc (PStr "aes") = false →
  dict_get "load" d = Some (PDict l) →
  str_in NUL (default (PStr "") (dict_get "id" l)) = Ok false →
  as_int (default (PInt 0) (dict_get "version" d)) = Ok z →
  pyeq enc (PStr "clear") && pyeq (default PNone (dict_get "cmd" l)) (PStr "_auth")
  = false →
  handle_message_checks O E (PDict d) st
  = (Next (PDict d, default (PInt 0) (dict_get "version" d),
           default (PStr "") (dict_get "id" l), None, 1 <? z), st).
Proof.
  intros Henc Hne Hload Hnul Hver Hcmd.
  pose proof (decode_clear d enc (default (PInt 0) (dict_get "version" d))
                st Henc Hne) as Hdec.
  unfold handle_message_checks.
  run_body. unfold dict_has. rewrite Henc, Hload. cbn. rewrite Hdec. cbn.
  rewrite Hload. cbn. rewrite Hnul. cbn. unfold py_gt. rewrite Hver. cbn.
  rewrite Henc. cbn. rewrite Hcmd. cbn. by rewrite Hne.
Qed.

(** X13.  Whenever the dispatcher reaches the payload handler: an exception
    of the handler, whatever it is, is answered
    ["Some exception handling minion payload"]; a result for ["send_clear"] is
    returned as it is, unencrypted; a result whose [fun] is none of
    ["send_clear"], ["send"], ["send_private"] is answered
    ["Server-side exception handling payload"].  In the three cases nothing is
    written after the checks. *)
Theorem handler_outcomes payload p' version id_ nonce sm st st' :
  handle_message_checks O E payload st = (Next (p', version, id_, nonce, sm), st') →
  (∀ e, payload_handler E p' = Raise e →
        handle_message O E payload st
        = (Ok (PStr "Some exception handling minion payload"), st'))
  ∧ (∀ ret ro, payload_handler E p' = Ok (ret, PDict ro) →
       let req_fun := default (PStr "send") (dict_get "fun" ro) in
       (pyeq req_fun (PStr "send_clear") = true →
        handle_message O E payload st = (Ok ret, st'))
       ∧ (pyeq req_fun (PStr "send_clear") = false →
          pyeq req_fun (PStr "send") = false →
          pyeq req_fun (PStr "send_private") = false →
          handle_message O E payload st
          = (Ok (PStr "Server-side exception handling payload"), st'))).
Proof.
  intros Hchecks. split; [intros e Hh | intros ret ro Hh req_fun; subst req_fun; split;
                                         [intros H1 | intros H1 H2 H3]];
    unfold handle_message, method, handle_message_body;
    rewrite (bind_next _ _ _ _ _ Hchecks);
    unfold encode_reply; run_body; rewrite Hh; cbn; [done|..].
  - by rewrite H1.
  - by rewrite H1, H2, H3.
Qed.

(** X14.  A payload that is not ["aes"] (and not an [_auth] request in clear)
    reaches the handler with no nonce bound.  If the handler asks for
    ["send"], the default, [handle_message] raises [UnboundLocalError]: the
    name [nonce] is read by the encrypting branch but was only ever assigned
    on the ["aes"] branch. *)
Theorem send_without_aes_raises d enc l z i ret ro st :
  dict_get "enc" d = Some enc → pyeq enc (PStr "aes") = false →
  dict_get "load" d = Some (PDict l) →
  default (PStr "") (dict_get "id" l) = PStr i → str_contains NUL i = false →
  as_int (default (PInt 0) (dict_get "version" d)) = Ok z →
  pyeq enc (PStr "clear") && pyeq (default PNone (dict_get "cmd" l)) (PStr "_auth")
  = false →
  payload_handler E (PDict d) = Ok (ret, PDict ro) →
  pyeq (default (PStr "send") (dict_get "fun" ro)) (PStr "send") = true →
  fst (handle_message O E (PDict d) st) = Raise (UnboundLocalError "nonce").
Proof.
  intros Henc Hne Hload Hid Hnul Hver Hcmd Hh Hfun.
  assert (Hchecks := checks_clear d enc l z st Henc Hne Hload).
  rewrite Hid in Hchecks. cbn [str_in] in Hchecks.
  specialize (Hchecks (f_equal Ok Hnul) Hver Hcmd).
  unfold handle_message, method, handle_message_body.
  rewrite (bind_next _ _ _ _ _ Hchecks).
  unfold encode_reply. run_body. rewrite Hh. cbn.
  apply pyeq_str_true in Hfun. rewrite Hfun. cbn.
  unfold py_gt. rewrite Hver. cbn.
  destruct (2 <? z); cbn; [|done].
  destruct (session_key_total O E i st) as (k & s1 & -> & _). done.
Qed.

End Dispatch.

(** A request in clear whose load carries a number for id. *)
Lemma load_prevalidation_witness :
  let d := [("enc", PStr "clear");
            ("load", PDict [("cmd", PStr "ping"); ("id", PInt 5)])] in
  let st := state [] (PBytes "s0") (PBytes "s0") [] in
  handle_message (opts 0 0) (env false false) (PDict d) st
  = (Ok (PStr "bad load: id 5 is not a string"), st).
Proof.
  intros d st.
  destruct (load_prevalidation (opts 0 0) (env false false) d d st st) as [_ H];
    [by eexists | by eexists | reflexivity |].
  destruct (H [("cmd", PStr "ping"); ("id", PInt 5)] eq_refl) as [_ H'].
  apply H'. reflexivity.
Defined.

(** An [_auth] request in clear, with no version: [_auth] answers it, with
    [sign_messages] off. *)
Lemma auth_intercepted_witness :
  let d := [("enc", PStr "clear"); ("load", auth_load "minion1" "PUB1")] in
  let st := state [] (PBytes "s0") (PBytes "s0") [] in
  handle_message (opts 0 0) (env false false) (PDict d) st
  = _auth (opts 0 0) (env false false) (auth_load "minion1" "PUB1") false (PInt 0) st.
Proof.
  intros d st.
  exact (auth_intercepted (opts 0 0) (env false false) d
           [("cmd", PStr "_auth"); ("id", PStr "minion1"); ("pub", PStr "PUB1")]
           0 st eq_refl eq_refl eq_refl eq_refl eq_refl).
Defined.

(** A request in clear that the handler answers for ["send_clear"]: the
    result goes back as it is. *)
Lemma handler_outcomes_witness :
  let payload := PDict [("enc", PStr "clear");
                        ("load", PDict [("cmd", PStr "ping"); ("id", PStr "minion1")])] in
  let st := state [] (PBytes "s0") (PBytes "s0") [] in
  handle_message (opts 0 0) (env false false) payload st
  = (Ok (PDict [("seen", payload)]), st).
Proof.
  intros payload st.
  edestruct (handler_outcomes (opts 0 0) (env false false) payload) as [_ H];
    [vm_compute; reflexivity|].
  edestruct H as [H' _]; [reflexivity|].
  apply H'. reflexivity.
Defined.

(** A request in clear that the handler answers for ["send"]. *)
Lemma send_without_aes_raises_witness :
  let d := [("enc", PStr "clear");
            ("load", PDict [("cmd", PStr "ping"); ("id", PStr "minion1")])] in
  let st := state [] (PBytes "s0") (PBytes "s0") [] in
  fst (handle_message (opts 0 0) (sending (env false false)) (PDict d) st)
  = Raise (UnboundLocalError "nonce").
Proof.
  intros d st.
  exact (send_without_aes_raises (opts 0 0) (sending (env false false)) d
           (PStr "clear") [("cmd", PStr "ping"); ("id", PStr "minion1")] 0
           "minion1" (PDict [("seen", PDict d)]) [("fun", PStr "send")] st
           eq_refl eq_refl eq_refl eq_refl eq_refl eq_refl eq_refl eq_refl eq_refl).
Defined.

(** *** Session keys *)
Section Sessions.
Variable O : Opts.
Variable E : Env.

(** A minion whose session key is on file and in [self.sessions], and not
    older than the publish session: the key is returned and nothing changes. *)
Lemma session_key_settled m t k st :
  sessions st !! m = Some (t, k) → session_files st !! m = Some (t, k) →
  clock st - t ≤ publish_session O →
  session_key O E (PStr m) st = (Ok k, st).
Proof.
  intros Hs Hf Hage.
  unfold session_key, method, session_key_body, write_key, fresh. run_body.
  rewrite Hs. cbn.
  destruct (clock st - t <? publish_session O); cbn; [done|].
  rewrite Hf. cbn.
  assert ((publish_session O <? clock st - t) = false) as -> by lia. cbn.
  rewrite Hf. cbn. f_equal.
  destruct st. unfold set_sessions. cbn in *. f_equal. by apply insert_id.
Qed.

(** What a call of [session_key] leaves behind: either the key was still
    fresh in [self.sessions], or it is now on file and in [self.sessions]
    with the same time stamp, not older than the publish session. *)
Lemma session_key_result m k st st1 :
  0 ≤ publish_session O →
  session_key O E (PStr m) st = (Ok k, st1) →
  clock st1 = clock st
  ∧ ((st1 = st ∧ ∃ t, sessions st !! m = Some (t, k)
                      ∧ clock st - t < publish_session O)
     ∨ ∃ t, sessions st1 !! m = Some (t, k) ∧ session_files st1 !! m = Some (t, k)
            ∧ clock st1 - t ≤ publish_session O).
Proof.
  intros Hps H.
  unfold session_key, method, session_key_body, write_key, fresh in H.
  revert H. run_body. intros H.
  assert (Hwritten : ∀ s,
            sessions s !! m = None ∨ (∃ t k0, sessions s !! m = Some (t, k0)) →
            let e := (clock st, generate_key_string E (entropy st)) in
            let s1 := set_sessions <[m:=e]>
                        (set_session_files <[m:=e]> (set_entropy (S (entropy st)) st)) in
            ∃ t, sessions s1 !! m = Some (t, e.2) ∧ session_files s1 !! m = Some (t, e.2)
                 ∧ clock s1 - t ≤ publish_session O).
  { intros s _ e s1. exists (clock st). subst s1 e. cbn.
    rewrite !lookup_insert_eq. repeat split. lia. }
  assert (Hkept : ∀ mt fk,
            session_files st !! m = Some (mt, fk) →
            (publish_session O <? clock st - mt) = false →
            let s1 := set_sessions <[m:=(mt, fk)]> st in
            ∃ t, sessions s1 !! m = Some (t, fk) ∧ session_files s1 !! m = Some (t, fk)
                 ∧ clock s1 - t ≤ publish_session O).
  { intros mt fk Hf Hold s1. exists mt. subst s1. cbn.
    rewrite lookup_insert_eq. repeat split; [done | lia]. }
  destruct (sessions st !! m) as [[t k0]|] eqn:Hs; cbn in H.
  - destruct (clock st - t <? publish_session O) eqn:Hlt; cbn in H.
    { injection H as <- <-. split; [done|]. left. split; [done|].
      exists t. split; [done | lia]. }
    destruct (session_files st !! m) as [[mt fk]|] eqn:Hf; cbn in H.
    + destruct (publish_session O <? clock st - mt) eqn:Hold; cbn in H.
      * rewrite lookup_insert_eq in H. cbn in H. injection H as <- <-.
        split; [done|]. right. apply (Hwritten st). right. eauto.
      * rewrite Hf in H. cbn in H. injection H as <- <-.
        split; [done|]. right. by apply Hkept.
    + rewrite lookup_insert_eq in H. cbn in H. injection H as <- <-.
      split; [done|]. right. apply (Hwritten st). right. eauto.
  - destruct (session_files st !! m) as [[mt fk]|] eqn:Hf; cbn in H.
    + destruct (publish_session O <? clock st - mt) eqn:Hold; cbn in H.
      * rewrite lookup_insert_eq in H. cbn in H. injection H as <- <-.
        split; [done|]. right. apply (Hwritten st). by left.
      * rewrite Hf in H. cbn in H. injection H as <- <-.
        split; [done|]. right. by apply Hkept.
    + rewrite lookup_insert_eq in H. cbn in H. injection H as <- <-.
      split; [done|]. right. apply (Hwritten st). by left.
Qed.

(** X15.  Session keys are stable: with a publish session that is not
    negative, asking again for the session key of a minion, with no time
    passed in between, returns the same key and changes nothing; no new key
    is drawn. *)
Theorem session_key_stable m k st st1 :
  0 ≤ publish_session O →
  session_key O E (PStr m) st = (Ok k, st1) →
  session_key O E (PStr m) st1 = (Ok k, st1).
Proof.
  intros Hps H.
  destruct (session_key_result m k st st1 Hps H) as [Hclock [[-> _]|(t & Hs & Hf & Hage)]].
  - exact H.
  - by apply (session_key_settled m t).
Qed.

Lemma session_key_fresh m t k st :
  sessions st !! m = Some (t, k) → clock st - t < publish_session O →
  session_key O E (PStr m) st = (Ok k, st).
Proof.
  intros Hs Hage.
  unfold session_key, method, session_key_body. run_body. rewrite Hs. cbn.
  by assert ((clock st - t <? publish_session O) = true) as -> by lia.
Qed.

(** Recording an effect in between does not change the key asked again. *)
Lemma session_key_again m k st st1 e :
  0 ≤ publish_session O →
  session_key O E (PStr m) st = (Ok k, st1) →
  session_key O E (PStr m) (log e st1) = (Ok k, log e st1).
Proof.
  intros Hps H.
  destruct (session_key_result m k st st1 Hps H)
    as [Hclock [[-> (t & Hs & Hage)]|(t & Hs & Hf & Hage)]].
  - by apply (session_key_fresh m t).
  - by apply (session_key_settled m t).
Qed.

End Sessions.

(** The first call draws the session key of minion1; the second returns it. *)
Lemma session_key_stable_witness :
  let st := state [] (PBytes "s0") (PBytes "s0") [] in
  let st1 := snd (session_key (opts 0 0) (env false false) (PStr "minion1") st) in
  session_key (opts 0 0) (env false false) (PStr "minion1") st1
  = (Ok (PList [PStr "key"; PInt 0]), st1).
Proof.
  intros st st1.
  apply (session_key_stable (opts 0 0) (env false false) "minion1"
           (PList [PStr "key"; PInt 0]) st st1); [cbn; lia | reflexivity].
Defined.


(** *** The token check *)
Section Token.
Variable O : Opts.
Variable E : Env.

Abbreviation token_verifies := (ReqServerChannel.token_verifies O E).

Lemma validate_token_accepts d l required st :
  dict_get "load" d = Some (PDict l) → token_verifies l →
  validate_token O E (PDict d) required st = (Ok (true, without_tok d l), st).
Proof.
  intros Hload (tok & id & path & pub & plain & Htok & Htn & Hid & Hin & Hpath
                & Hpub & Hdec & Hsalt).
  unfold ReqServerChannel.minion_keys_dir in Hpath.
  unfold validate_token, method, validate_token_body. run_body.
  rewrite Hload. cbn. rewrite Htok. cbn.
  destruct (String.eqb_spec "id" "tok") as [|_]; [done|].
  rewrite dict_get_del_ne by done. rewrite Hid. cbn. rewrite Htn, Hin. cbn.
  rewrite Hpath. cbn. rewrite Hpub. cbn. rewrite Hdec. cbn. by rewrite Hsalt.
Qed.

Lemma validate_token_absent d l required st :
  dict_get "load" d = Some (PDict l) → token_absent l →
  validate_token O E (PDict d) required st = (Ok (negb required, without_tok d l), st).
Proof.
  intros Hload Habs.
  unfold validate_token, method, validate_token_body. run_body.
  rewrite Hload. cbn. rewrite dict_get_del_ne by done.
  destruct Habs as [H|H]; rewrite H; rewrite ?Bool.andb_false_r; cbn;
    by destruct required.
Qed.

(** X16.  [validate_token] answers [True] for a load whose token, decrypted
    with the public key on file for the load's id, is [b"salt"]; when the
    check is not required it also answers [True] for a load with no token or
    no id, and when it is required it answers [False] for such a load.
    Conversely an answer [True] means exactly that: the token verified, or
    the check was not required and there was nothing to check.  In every case
    the payload handed back has [tok] popped from its load and the state is
    untouched. *)
Theorem validate_token_sound d l required st :
  dict_get "load" d = Some (PDict l) →
  (token_verifies l →
   validate_token O E (PDict d) required st = (Ok (true, without_tok d l), st))
  ∧ (token_absent l →
     validate_token O E (PDict d) required st
     = (Ok (negb required, without_tok d l), st))
  ∧ (∀ p' st', validate_token O E (PDict d) required st = (Ok (true, p'), st') →
       p' = without_tok d l ∧ st' = st
       ∧ (token_verifies l ∨ (required = false ∧ token_absent l))).
Proof.
  intros Hload. split; [by apply validate_token_accepts|].
  split; [by apply validate_token_absent|].
  intros p' st'.
  unfold validate_token, method, validate_token_body. run_body.
  rewrite Hload. cbn. rewrite dict_get_del_ne by done.
  unfold ReqServerChannel.token_verifies, token_absent,
    ReqServerChannel.minion_keys_dir, without_tok.
  destruct (dict_get "tok" l) as [tok|] eqn:Htok; cbn;
    destruct (dict_get "id" l) as [id|] eqn:Hid; cbn.
  - destruct (is_none tok) eqn:Htn; cbn.
    { destruct required; intros [= <- <-]. repeat split; right; split; auto. }
    destruct (is_none id) eqn:Hin; cbn.
    { destruct required; intros [= <- <-]. repeat split; right; split; auto. }
    intros H. repeat break_in H; try discriminate.
    all: injection H as <- <-; repeat split; left;
      exists tok, id; eexists _, _, _; repeat split; try done; eauto;
      by apply Bool.negb_false_iff.
  - rewrite Bool.andb_false_r.
    destruct required; intros [= <- <-]. repeat split; right; split; auto.
  - destruct required; intros [= <- <-]. repeat split; right; split; auto.
  - destruct required; intros [= <- <-]. repeat split; right; split; auto.
Qed.

End Token.

(** A load whose token was signed with the key on file for minion1. *)
Lemma validate_token_sound_witness :
  let l := [("cmd", PStr "ping"); ("id", PStr "minion1"); ("tok", salt_token)] in
  let d := [("enc", PStr "aes"); ("load", PDict l)] in
  let st := state [] (PBytes "s0") (PBytes "s0") [] in
  validate_token (opts 0 0) (env false false) (PDict d) true st
  = (Ok (true, PDict [("enc", PStr "aes");
                      ("load", PDict [("cmd", PStr "ping"); ("id", PStr "minion1")])]),
     st).
Proof.
  intros l d st.
  destruct (validate_token_sound (opts 0 0) (env false false) d l true st eq_refl)
    as [H _].
  apply H.
  exists salt_token, (PStr "minion1"), (PStr "/pki/minions/minion1"), (PStr "PUB1"),
    (PBytes "salt").
  repeat split; reflexivity.
Defined.


(** *** A request of version 3 from end to end *)
Section RoundTrip.
Variable O : Opts.
Variable E : Env.

Lemma decode_v3 d ct z i k load st st1 :
  dict_get "enc" d = Some (PStr "aes") →
  dict_get "load" d = Some ct →
  as_int (default (PInt 0) (dict_get "version" d)) = Ok z → 2 < z →
  dict_get "id" d = Some (PStr i) → valid_id E i = true →
  session_key O E (PStr i) st = (Ok k, st1) →
  crypticle_loads E k ct = Ok load →
  _decode_payload O E (PDict d) (default (PInt 0) (dict_get "version" d)) st
  = (Ok (PDict (dict_set "load" load d)), log (CrypticleLoads k ct) st1).
Proof.
  intros Henc Hct Hver Hz Hid Hvalid Hsk Hloads.
  unfold _decode_payload, method, _decode_payload_body, loads. run_body.
  rewrite Henc. cbn. unfold py_gt. rewrite Hver. cbn.
  assert ((2 <? z) = true) as -> by lia. cbn.
  rewrite Hid. cbn. rewrite Hvalid. cbn. rewrite Hsk. cbn. rewrite Hct. cbn.
  by rewrite Hloads.
Qed.

(** X17.  A request of version 3 from end to end.  The envelope names a
    valid minion; its load decrypts under that minion's session key to a
    mapping with the same id, a time stamp within the ttl (when one is
    configured) and a token that verifies; the handler answers for ["send"].
    Then the handler is given the payload with [nonce] and [tok] taken out
    of its load, and the reply is the handler's result encrypted under the
    very session key that decrypted the request, with the request's nonce;
    one decryption is recorded and nothing is stored. *)
Theorem v3_reply_under_request_key d ct z i k l ret ro st st1 :
  0 ≤ publish_session O →
  dict_get "enc" d = Some (PStr "aes") →
  dict_get "load" d = Some ct →
  as_int (default (PInt 0) (dict_get "version" d)) = Ok z → 2 < z →
  dict_get "id" d = Some (PStr i) → valid_id E i = true →
  str_contains NUL i = false →
  session_key O E (PStr i) st = (Ok k, st1) →
  crypticle_loads E k ct = Ok (PDict l) →
  dict_get "id" l = Some (PStr i) →
  (0 < request_server_ttl O →
   ∃ ts t, dict_get "ts" l = Some ts ∧ as_int ts = Ok t
           ∧ clock st - t ≤ request_server_ttl O) →
  token_verifies O E l →
  payload_handler E (PDict (dict_set "load"
                              (PDict (dict_del "tok" (dict_del "nonce" l))) d))
  = Ok (ret, PDict ro) →
  pyeq (default (PStr "send") (dict_get "fun" ro)) (PStr "send") = true →
  handle_message O E (PDict d) st
  = (crypticle_dumps E k (entropy st1) ret (default PNone (dict_get "nonce" l)),
     set_entropy (S (entropy st1)) (log (CrypticleLoads k ct) st1)).
Proof.
  intros Hps Henc Hct Hver Hz Hid Hvalid Hnul Hsk Hloads Hinner Hts Htok Hh Hfun.
  assert (Hgt : ∀ n, n ≤ 2 →
            py_gt (default (PInt 0) (dict_get "version" d)) n = Ok true).
  { intros n Hn. unfold py_gt. rewrite Hver. f_equal. lia. }
  pose proof (decode_v3 d ct z i k (PDict l) st st1 Henc Hct Hver Hz Hid Hvalid
                Hsk Hloads) as Hdec.
  unfold handle_message, method, handle_message_body, handle_message_checks,
    check_aes, encode_reply, dumps, fresh.
  run_body. unfold dict_has. rewrite Henc, Hct. cbn.
  rewrite Hdec. cbn. rewrite dict_get_set_eq. cbn. rewrite Hinner. cbn.
  rewrite Hnul. cbn. rewrite (Hgt 1) by lia. cbn.
  rewrite dict_get_set_ne by done. rewrite Henc. cbn.
  rewrite (Hgt 2) by lia. cbn.
  rewrite dict_get_set_eq. cbn.
  assert (Hclock : clock st1 = clock st).
  { by destruct (session_key_result O E i k st st1 Hps Hsk). }
  assert (Htok2 : token_verifies O E (dict_del "nonce" l)).
  { destruct Htok as (tok & id & path & pub & plain & H1 & H2 & H3 & H4 & H5).
    exists tok, id, path, pub, plain. by rewrite !dict_get_del_ne. }
  apply pyeq_str_true in Hfun.
  destruct (0 <? request_server_ttl O) eqn:Hpos; cbn;
    [ destruct Hts as (ts & t & Hts & Ht & Hage); [lia|];
      rewrite dict_get_del_ne by done; rewrite Hts; cbn; rewrite Ht; cbn;
      rewrite ?Hclock;
      assert ((request_server_ttl O <? clock st - t) = false) as -> by lia; cbn
    | ];
    rewrite !dict_get_set_ne by done; rewrite Hid; cbn;
    rewrite dict_get_del_ne by done; rewrite Hinner; cbn;
    rewrite String.eqb_refl; cbn; rewrite Hvalid; cbn;
    rewrite (validate_token_accepts O E _ (dict_del "nonce" l) true _
               (dict_get_set_eq _ _ _) Htok2);
    cbn; unfold without_tok; rewrite !dict_set_set; rewrite Hh; cbn;
    rewrite Hfun; cbn; rewrite (Hgt 2) by lia; cbn;
    rewrite (session_key_again O E i k st st1 _ Hps Hsk); cbn;
    by destruct (crypticle_dumps E k (entropy st1) ret _).
Qed.

End RoundTrip.

(** A request of version 3 from minion1, ten seconds old with a ttl of
    sixty, under the session key the master draws for it. *)
Lemma v3_reply_under_request_key_witness :
  let k := PList [PStr "key"; PInt 0] in
  let l := [("cmd", PStr "ping"); ("id", PStr "minion1"); ("ts", PInt 990);
            ("nonce", PStr "n1"); ("tok", salt_token)] in
  let ct := PList [PStr "aes"; k; PDict l] in
  let d := [("enc", PStr "aes"); ("version", PInt 3); ("id", PStr "minion1");
            ("load", ct)] in
  let st := state [] (PBytes "s0") (PBytes "s0") [] in
  let st1 := snd (session_key (opts 0 60) (env false false) (PStr "minion1") st) in
  let seen := PDict [("enc", PStr "aes"); ("version", PInt 3); ("id", PStr "minion1");
                     ("load", PDict [("cmd", PStr "ping"); ("id", PStr "minion1");
                                     ("ts", PInt 990)])] in
  handle_message (opts 0 60) (sending (env false false)) (PDict d) st
  = (Ok (PList [PStr "aes"; k; PDict [("seen", seen)]]),
     set_entropy 2 (log (CrypticleLoads k ct) st1)).
Proof.
  intros k l ct d st st1 seen.
  apply (v3_reply_under_request_key (opts 0 60) (sending (env false false))
           d ct 3 "minion1" k l (PDict [("seen", seen)]) [("fun", PStr "send")]
           st st1); try first [reflexivity | (cbn; lia)].
  - intros _. exists (PInt 990), 990. repeat split; try reflexivity. cbn. lia.
  - exists salt_token, (PStr "minion1"), (PStr "/pki/minions/minion1"), (PStr "PUB1"),
      (PBytes "salt").
    repeat split; reflexivity.
Defined.

(** *** The worker's key and private replies *)
Section Keys.
Variable O : Opts.
Variable E : Env.

(** X18.  [_encrypt_private] with the target's key at hand: a fresh key is
    drawn, wrapped for the target's public key under [key], and the body goes
    under [dictkey] encrypted with that same fresh key; a result [False] is
    sent as an empty mapping.  When messages are signed, a missing nonce is
    answered [{"error": "Nonce not included in request"}] (nothing raised),
    and otherwise the body is the signed serialization of the wrapped key,
    the result and the nonce. *)
Theorem encrypt_private_wraps_fresh_key ret dk t nonce ea sa pem pub wrapped st :
  stored_pub st (PStr t) = Some pem →
  pubkey_from_str E pem = Ok pub →
  let key := generate_key_string E (entropy st) in
  let pillar := match ret with PBool false => PDict [] | _ => ret end in
  let tosign := payload_dumps E (PDict [("key", wrapped); ("pillar", pillar);
                                        ("nonce", nonce)]) in
  pub_encrypt E pub (S (entropy st)) key ea = Ok wrapped →
  (_encrypt_private E ret (PStr dk) (PStr t) nonce false ea sa st
   = (match crypticle_dumps E key (S (S (entropy st))) pillar PNone with
      | Ok body => Ok (PDict (dict_set dk body [("key", wrapped)]))
      | Raise e => Raise e
      end, set_entropy (S (S (S (entropy st)))) st))
  ∧ (is_none nonce = true →
     _encrypt_private E ret (PStr dk) (PStr t) nonce true ea sa st
     = (Ok (PDict [("error", PStr "Nonce not included in request")]),
        set_entropy (S (S (entropy st))) st))
  ∧ (∀ sig, is_none nonce = false → master_sign E tosign sa = Ok sig →
       _encrypt_private E ret (PStr dk) (PStr t) nonce true ea sa st
       = (match crypticle_dumps E key (S (S (entropy st)))
                  (PDict [("data", tosign); ("sig", sig)]) PNone with
          | Ok body => Ok (PDict (dict_set dk body [("key", wrapped)]))
          | Raise e => Raise e
          end, set_entropy (S (S (S (entropy st)))) st)).
Proof.
  intros Hpem Hpub key pillar tosign Hwrap. subst key pillar tosign.
  unfold stored_pub in Hpem.
  destruct (cache st !! ("keys", t)) as [[| | | | | |rec]|] eqn:Hrec; try discriminate.
  split; [|split]; [|intros Hn|intros sig Hn Hsig];
    unfold _encrypt_private, method, _encrypt_private_body, try_except,
      any_exception, dumps, cache_fetch, fresh;
    run_body; rewrite Hrec; cbn; unfold dict_has; rewrite Hpem; cbn;
    rewrite Hpub; cbn; rewrite Hwrap; cbn.
  - by destruct (crypticle_dumps E _ _ _ PNone).
  - by rewrite Hn.
  - rewrite Hn. cbn. rewrite Hsig. cbn.
    by destruct (crypticle_dumps E _ _ _ PNone).
Qed.

End Keys.

(** A pillar for minion1, whose key PUB1 is on record, unsigned. *)
Lemma encrypt_private_wraps_fresh_key_witness :
  let st := state [("keys", "minion1", key_record "PUB1" "accepted")]
                  (PBytes "s0") (PBytes "s0") [] in
  let ret := PDict [("role", PStr "web")] in
  let key := PList [PStr "key"; PInt 0] in
  _encrypt_private (env false false) ret (PStr "pillar") (PStr "minion1") PNone
                   false (PStr "OAEP-SHA1") (PStr "PKCS1v15-SHA1") st
  = (Ok (PDict [("key", PList [PStr "rsa"; PStr "PUB1"; PInt 1; key]);
                ("pillar", PList [PStr "aes"; key; ret])]),
     set_entropy 3 st).
Proof.
  intros st ret key.
  edestruct (encrypt_private_wraps_fresh_key (env false false) ret "pillar"
               "minion1" PNone (PStr "OAEP-SHA1") (PStr "PKCS1v15-SHA1")
               (PStr "PUB1") (PStr "PUB1")
               (PList [PStr "rsa"; PStr "PUB1"; PInt 1; key]) st)
    as [H _]; [reflexivity..|].
  exact H.
Defined.


End ReqServerChannelFacts.

(** ** Further properties of the cluster relay *)
Module ClusterRelayFacts.
Import MasterPubServerChannel MasterPubServerChannelFacts ReqServerChannelFacts.

Section Peers.
Variable E : Env.

Abbreviation verified_exchange := (MasterPubServerChannel.verified_exchange E).
Abbreviation forged_exchange := (MasterPubServerChannel.forged_exchange E).

(** The loop that empties a queue leaves the peer keys and the count of key
    events alone, and never returns from the method. *)
Lemma drain_keeps tag peer queue : ∀ st,
  peer_keys (snd (drain E tag peer queue st)) = peer_keys st
  ∧ key_events (snd (drain E tag peer queue st)) = key_events st
  ∧ ∀ r, fst (drain E tag peer queue st) ≠ Return r.
Proof.
  induction queue as [|[key data] rest IH]; intros st; [done|].
  cbn [drain]. destruct (parse_cluster_tag tag) as [peer_id parsed_tag].
  pose proof (try_extract_state E peer_id data (set_queue peer rest st)) as Hst.
  assert (Hnr : ∀ r, fst (try_extract E peer_id data (set_queue peer rest st))
                     ≠ Return r).
  { intros r. unfold try_extract, try_except, call, method, bind, next.
    destruct (extract_cluster_event E peer_id data (set_queue peer rest st))
      as [[x|x|e] s]; cbn; try done. by destruct e. }
  unfold bind, modify, publish_payload, lift, next.
  destruct (try_extract E peer_id data (set_queue peer rest st)) as [[r|r|e] st1];
    cbn in Hst; subst st1; cbn [snd fst].
  2: { by destruct (Hnr r). }
  2: { by repeat split. }
  destruct r as [event_data|].
  - destruct (transport_publish_payload E parsed_tag event_data) as [[]|e]; cbn;
      [|by repeat split].
    apply (IH (add_published parsed_tag event_data (set_queue peer rest st))).
  - apply (IH (set_queue peer rest st)).
Qed.

#[local] Arguments install_key : simpl never.
#[local] Arguments try_extract : simpl never.
#[local] Arguments drain : simpl never.
#[local] Arguments parse_cluster_tag : simpl never.
#[local] Arguments pyeq : simpl never.
#[local] Arguments str_prefix : simpl never.

(** Installing a key records it for the peer whatever happens next, and
    never returns from the method. *)
Lemma install_key_run tag peer key_str st :
  peer_keys (snd (install_key E tag peer key_str st))
  = <[peer := key_str]> (peer_keys st)
  ∧ ∀ r, fst (install_key E tag peer key_str st) ≠ Return r.
Proof.
  unfold install_key. run_body.
  destruct (send_aes_key_event E) as [[]|e]; cbn; [|done].
  destruct (auth_errors st !! peer) as [queue|]; cbn; [|done].
  destruct (drain_keeps tag peer queue (count_key_event (set_peer_key peer key_str st)))
    as (Hk & _ & Hnr).
  by rewrite Hk.
Qed.

Lemma install_key_no_return tag peer key_str st r s :
  install_key E tag peer key_str st = (Return r, s) → False.
Proof.
  intros H. destruct (install_key_run tag peer key_str st) as [_ Hnr].
  apply (Hnr r). by rewrite H.
Qed.

Lemma try_extract_no_return peer_id data st r s :
  try_extract E peer_id data st = (Return r, s) → False.
Proof.
  unfold try_extract, try_except, call, method, bind, next.
  destruct (extract_cluster_event E peer_id data st) as [[x|x|e] s0]; cbn;
    try discriminate.
  by destruct e.
Qed.

(** Case analysis on the innermost scrutinee of the goal. *)
Ltac break_goal :=
  let rec go t :=
    lazymatch t with
    | context [match ?x with _ => _ end] => go x
    | _ => destruct t eqn:?
    end in
  match goal with
  | |- context [match ?x with _ => _ end] => go x
  end; cbn.

(** X22.  [handle_pool_publish] never raises: whatever the payload and
    whatever fails while it is handled, the call returns [None]. *)
Theorem handle_pool_publish_never_raises payload st :
  fst (handle_pool_publish E payload st) = Ok PNone.
Proof.
  unfold handle_pool_publish, handle_pool_publish_body, publish_payload. run_body.
  repeat (break_goal; try done;
          try (exfalso; eapply install_key_no_return; eassumption);
          try (exfalso; eapply try_extract_no_return; eassumption)).
Qed.

(** X23.  The key recorded for a peer changes only through a key exchange
    that verifies.  Whatever payload is handled, either [self.peer_keys] is
    afterwards what it was, or the payload was a key-exchange message whose
    signature, decrypted with the key on file for the sending peer, is the
    digest of the key it carries, and exactly that peer's entry was set to
    that key. *)
Theorem key_exchange_sound payload st :
  let st' := snd (handle_pool_publish E payload st) in
  peer_keys st' = peer_keys st
  ∨ ∃ peer key_str,
      verified_exchange payload peer key_str
      ∧ peer_keys st' = <[peer := key_str]> (peer_keys st).
Proof.
  cbn zeta.
  unfold handle_pool_publish, handle_pool_publish_body, publish_payload. run_body.
  repeat (break_goal; try (left; done);
          try (exfalso; eapply install_key_no_return; eassumption);
          try (exfalso; eapply try_extract_no_return; eassumption)).
  all: try match goal with
       | H : try_extract _ ?pid ?d ?s0 = (_, ?s) |- _ =>
           let Hs := fresh in
           pose proof (try_extract_state E pid d s0) as Hs;
           rewrite H in Hs; cbn in Hs; subst s; left; done
       end.
  all: match goal with
       | Hi : install_key E ?tag ?peer ?k ?s0 = (_, _),
         Hf : master_key_fetch E ?peer = _ |- _ =>
           right; exists peer, k; split;
           [ unfold MasterPubServerChannel.verified_exchange;
             eexists _, _, _, _, _, _, _, _;
             rewrite Hf; repeat split; try eassumption; try done;
             by apply Bool.negb_false_iff
           | pose proof (proj1 (install_key_run tag peer k s0)) as Hk;
             rewrite Hi in Hk; exact Hk ]
       end.
Qed.

Lemma fetched_key_decrypt key sig :
  key ≠ PNone →
  match key with
  | PNone => Raise AttributeError
  | _ => key_decrypt E key sig
  end = key_decrypt E key sig.
Proof. by destruct key. Qed.

Lemma exchange_dropped payload st :
  forged_exchange payload
  ∨ (∃ peer key_str old,
       verified_exchange payload peer key_str
       ∧ peer_keys st !! peer = Some old ∧ pyeq old key_str = true) →
  handle_pool_publish E payload st = (Ok PNone, st).
Proof.
  intros [(tag & data & peer & peers & mine & aes & sig & key_str & digest & m_digest
           & Hun & Htag & Hpeer & Hpeers & Hmine & Haes & Hsig & Hdec & Hdig
           & Hfetch & Hkd & Hcmp)
         |(peer & key_str & old &
           (tag & data & peers & mine & aes & sig & digest & m_digest
            & Hun & Htag & Hpeer & Hpeers & Hmine & Haes & Hsig & Hdec & Hdig
            & Hfetch & Hkd & Hcmp) & Hold & Hsame)];
    unfold handle_pool_publish, handle_pool_publish_body; run_body;
    rewrite Hun; cbn; rewrite Htag; cbn; rewrite Hpeer; cbn; rewrite Hpeers; cbn;
    rewrite Hmine; cbn; rewrite Haes; cbn; rewrite ?Hmine; cbn; rewrite Hsig; cbn;
    rewrite Hdec; cbn; rewrite Hdig; cbn;
    rewrite (fetched_key_decrypt _ _ Hfetch), Hkd; cbn; rewrite Hcmp; cbn; [done|].
  by rewrite Hold, Hsame.
Qed.

Lemma verified_new_key payload peer key_str st :
  verified_exchange payload peer key_str →
  peer_keys st !! peer = None
  ∨ (∃ old, peer_keys st !! peer = Some old ∧ pyeq old key_str = false) →
  send_aes_key_event E = Ok tt →
  let st' := snd (handle_pool_publish E payload st) in
  peer_keys st' = <[peer := key_str]> (peer_keys st)
  ∧ key_events st' = S (key_events st).
Proof.
  intros (tag & data & peers & mine & aes & sig & digest & m_digest
          & Hun & Htag & Hpeer & Hpeers & Hmine & Haes & Hsig & Hdec & Hdig
          & Hfetch & Hkd & Hcmp) Hnew Hsend st'. subst st'.
  assert (Hinst : peer_keys (snd (install_key E tag peer key_str st))
                  = <[peer := key_str]> (peer_keys st)
                  ∧ key_events (snd (install_key E tag peer key_str st))
                    = S (key_events st)).
  { split; [apply install_key_run|].
    unfold install_key. run_body. rewrite Hsend. cbn.
    destruct (auth_errors st !! peer) as [queue|]; cbn; [|done].
    by destruct (drain_keeps tag peer queue
                   (count_key_event (set_peer_key peer key_str st))) as (_ & -> & _). }
  unfold handle_pool_publish, handle_pool_publish_body; run_body;
    rewrite Hun; cbn; rewrite Htag; cbn; rewrite Hpeer; cbn; rewrite Hpeers; cbn;
    rewrite Hmine; cbn; rewrite Haes; cbn; rewrite ?Hmine; cbn; rewrite Hsig; cbn;
    rewrite Hdec; cbn; rewrite Hdig; cbn;
    rewrite (fetched_key_decrypt _ _ Hfetch), Hkd; cbn; rewrite Hcmp; cbn.
  destruct Hnew as [->|(old & -> & ->)]; cbn;
    by destruct (install_key E tag peer key_str st) as [[[]|r|e] s].
Qed.

(** X24.  A key exchange takes effect exactly when it verifies and brings
    a new key.  A message that does not verify, or that brings the key already
    recorded for its peer, changes nothing at all: no key is recorded, no key
    event is sent in answer, no queue is touched.  A message that verifies and
    brings a key that is not the one recorded has the key recorded for that
    peer and, when this master's own key event goes out, exactly one is sent
    in answer. *)
Theorem key_exchange_effect payload st :
  (forged_exchange payload
   ∨ (∃ peer key_str old,
        verified_exchange payload peer key_str
        ∧ peer_keys st !! peer = Some old ∧ pyeq old key_str = true) →
   handle_pool_publish E payload st = (Ok PNone, st))
  ∧ (∀ peer key_str,
       verified_exchange payload peer key_str →
       peer_keys st !! peer = None
       ∨ (∃ old, peer_keys st !! peer = Some old ∧ pyeq old key_str = false) →
       send_aes_key_event E = Ok tt →
       let st' := snd (handle_pool_publish E payload st) in
       peer_keys st' = <[peer := key_str]> (peer_keys st)
       ∧ key_events st' = S (key_events st)).
Proof.
  split; [apply exchange_dropped | intros peer key_str; apply verified_new_key].
Qed.

Lemma event_published payload tag data peer_id parsed k loaded ev st :
  unpack E payload = Ok (tag, data) →
  str_prefix "cluster/peer" tag = false →
  str_prefix "cluster/event" tag = true →
  parse_cluster_tag tag = (peer_id, parsed) →
  peer_keys st !! peer_id = Some k →
  crypticle_loads E k data = Ok loaded →
  subscript loaded "event_payload" = Ok (PDict ev) →
  transport_publish_payload E parsed
    (PDict (dict_set "__peer_id" (PStr peer_id) ev)) = Ok tt →
  snd (handle_pool_publish E payload st)
  = add_published parsed (PDict (dict_set "__peer_id" (PStr peer_id) ev)) st.
Proof.
  intros Hun Hnp Hev Hparse Hk Hloads Hpayload Hpub.
  unfold handle_pool_publish, handle_pool_publish_body, publish_payload,
    try_extract, extract_cluster_event.
  run_body. rewrite Hun. cbn. rewrite Hnp, Hev, Hparse. cbn.
  rewrite Hk. cbn. rewrite Hloads. cbn. rewrite Hpayload. cbn. by rewrite Hpub.
Qed.

(** X25.  An event forwarded by a peer.  When the peer's key is known and
    the event decrypts, it is published locally under the tag with the
    [cluster/event/<peer>/] prefix taken off, with [__peer_id] set to the
    peer; when the key is unknown, or decryption fails authentication, the
    event is appended, with its tag, to the queue kept for that peer and
    nothing is published. *)
Theorem cluster_event_relayed_or_buffered payload tag data peer_id parsed st :
  unpack E payload = Ok (tag, data) →
  str_prefix "cluster/peer" tag = false →
  str_prefix "cluster/event" tag = true →
  parse_cluster_tag tag = (peer_id, parsed) →
  (∀ k loaded ev,
     peer_keys st !! peer_id = Some k →
     crypticle_loads E k data = Ok loaded →
     subscript loaded "event_payload" = Ok (PDict ev) →
     transport_publish_payload E parsed
       (PDict (dict_set "__peer_id" (PStr peer_id) ev)) = Ok tt →
     snd (handle_pool_publish E payload st)
     = add_published parsed (PDict (dict_set "__peer_id" (PStr peer_id) ev)) st)
  ∧ (∀ queue,
       peer_keys st !! peer_id = None
       ∨ (∃ k, peer_keys st !! peer_id = Some k
               ∧ crypticle_loads E k data = Raise AuthenticationError) →
       auth_errors st !! peer_id = Some queue →
       snd (handle_pool_publish E payload st)
       = set_queue peer_id (queue ++ [(tag, data)])%list st).
Proof.
  intros Hun Hnp Hev Hparse. split.
  - intros k loaded ev Hk Hloads Hpayload Hpub. by eapply event_published.
  - intros queue Hkey Hq.
    unfold handle_pool_publish, handle_pool_publish_body, publish_payload,
      try_extract, extract_cluster_event.
    run_body. rewrite Hun. cbn. rewrite Hnp, Hev, Hparse. cbn.
    destruct Hkey as [->|(k & -> & ->)]; cbn; by rewrite Hq.
Qed.

End Peers.

(** peer1's key exchange reaches master1, which has no key for peer1 yet:
    the exchange verifies, the key is recorded and one key event goes out. *)
Lemma key_exchange_effect_witness :
  let st' := snd (handle_pool_publish ClusterScenario.env ClusterScenario.key_exchange
                    ClusterScenario.init) in
  peer_keys st' = {["peer1" := PBytes "k1"]}
  ∧ key_events st' = 1%nat.
Proof.
  intros st'.
  destruct (key_exchange_effect ClusterScenario.env ClusterScenario.key_exchange
              ClusterScenario.init) as [_ H].
  destruct (H "peer1" (PBytes "k1")) as [Hk He].
  - do 8 eexists. repeat split; try reflexivity. discriminate.
  - by left.
  - reflexivity.
  - split; [|exact He]. subst st'. rewrite Hk. reflexivity.
Defined.

(** An event of peer1 reaches master1 before peer1's key: it is queued. *)
Lemma cluster_event_relayed_or_buffered_witness :
  snd (handle_pool_publish ClusterScenario.env ClusterScenario.job_event
         ClusterScenario.init)
  = set_queue "peer1"
      [("cluster/event/peer1/salt/job/1",
        PList [PStr "aes"; PBytes "k1";
               PDict [("event_payload", PDict [("jid", PInt 1)])]])]
      ClusterScenario.init.
Proof.
  destruct (cluster_event_relayed_or_buffered ClusterScenario.env
              ClusterScenario.job_event "cluster/event/peer1/salt/job/1"
              (PList [PStr "aes"; PBytes "k1";
                      PDict [("event_payload", PDict [("jid", PInt 1)])]])
              "peer1" "salt/job/1" ClusterScenario.init)
    as [_ H]; [reflexivity..|].
  apply (H []); [by left | reflexivity].
Defined.


(** *** Cluster tags *)
Section Tags.

Lemma append_cons c p s : String c p ++ s = String c (p ++ s).
Proof. done. Qed.

Lemma append_nil s : "" ++ s = s.
Proof. done. Qed.

Lemma append_assoc a b c : (a ++ b) ++ c = a ++ b ++ c.
Proof.
  induction a as [|x a IH]; [done|]. by rewrite !append_cons, IH.
Qed.

Lemma str_prefix_app p s : str_prefix p (p ++ s) = true.
Proof.
  induction p as [|c p IH]; [by destruct s|].
  rewrite append_cons. cbn. by rewrite Ascii.eqb_refl, IH.
Qed.

Lemma str_prefix_app_l a b s : str_prefix (a ++ b) s = true → str_prefix a s = true.
Proof.
  revert s. induction a as [|c a IH]; intros s; [by destruct s|].
  rewrite append_cons. cbn. destruct s as [|d s]; [done|].
  destruct (Ascii.eqb c d); cbn; [apply IH | done].
Qed.

Lemma str_contains_app_l a b s :
  str_contains a s = false → str_contains (a ++ b) s = false.
Proof.
  induction s as [|d s IH]; cbn.
  - intros H. apply Bool.orb_false_iff in H as [H _].
    apply Bool.orb_false_iff. split; [|done].
    destruct (str_prefix (a ++ b) "") eqn:Hp; [|done].
    apply str_prefix_app_l in Hp. congruence.
  - intros H. apply Bool.orb_false_iff in H as [H1 H2].
    apply Bool.orb_false_iff. split; [|by apply IH].
    destruct (str_prefix (a ++ b) (String d s)) eqn:Hp; [|done].
    apply str_prefix_app_l in Hp. congruence.
Qed.

Lemma str_contains_suffix old t s :
  str_contains old (t ++ s) = false → str_contains old s = false.
Proof.
  induction t as [|c t IH]; [done|]. rewrite append_cons. cbn.
  intros H. apply Bool.orb_false_iff in H as [_ H]. by apply IH.
Qed.

(** Where [old] does not occur, [replace] changes nothing. *)
Lemma replace_go_absent old new s :
  str_contains old s = false → replace_go old new s 0 = s.
Proof.
  induction s as [|c s IH]; [done|].
  intros H. cbn in H. apply Bool.orb_false_iff in H as [H1 H2].
  cbn [replace_go]. rewrite H1. by rewrite IH.
Qed.

(** The rest of a match is passed over. *)
Lemma replace_go_skip old new t s :
  replace_go old new (t ++ s) (String.length t) = replace_go old new s 0.
Proof.
  induction t as [|c t IH]; [done|]. rewrite append_cons. cbn. apply IH.
Qed.

Lemma replace_go_head c old new s :
  replace_go (String c old) new (String c old ++ s) 0
  = new ++ replace_go (String c old) new s 0.
Proof.
  pose proof (str_prefix_app (String c old) s) as Hp.
  rewrite append_cons in *. cbn [replace_go]. rewrite Hp.
  replace (String.length (String c old) - 1)%nat with (String.length old)
    by (cbn; lia).
  by rewrite replace_go_skip.
Qed.

Lemma split_head_app peer rest :
  str_contains "/" peer = false → split_head "/" (peer ++ "/" ++ rest) = peer.
Proof.
  induction peer as [|c peer IH].
  - intros _. rewrite append_nil, append_cons. done.
  - intros H. cbn in H. apply Bool.orb_false_iff in H as [H1 H2].
    rewrite append_cons. cbn [split_head].
    destruct (Ascii.eqb c "/") eqn:Hc.
    + apply Ascii.eqb_eq in Hc as ->. cbn in H1. by destruct peer.
    + by rewrite IH.
Qed.

Lemma parse_cluster_tag_app peer rest :
  str_contains "/" peer = false →
  str_contains "cluster/event/" (peer ++ "/" ++ rest) = false →
  parse_cluster_tag ("cluster/event/" ++ peer ++ "/" ++ rest) = (peer, rest).
Proof.
  intros Hpeer Habs. unfold parse_cluster_tag.
  assert (Hfirst : replace "cluster/event/" "" ("cluster/event/" ++ peer ++ "/" ++ rest)
                   = peer ++ "/" ++ rest).
  { unfold replace.
    rewrite (replace_go_head "c" "luster/event/" "" (peer ++ "/" ++ rest)).
    by rewrite replace_go_absent. }
  rewrite Hfirst, split_head_app by done. f_equal.
  assert (Hmark : "cluster/event/" ++ peer ++ "/" ++ rest
                  = ("cluster/event/" ++ peer ++ "/") ++ rest).
  { by rewrite !append_assoc. }
  rewrite Hmark.
  assert (Hold : "cluster/event/" ++ peer ++ "/"
                 = String "c" ("luster/event/" ++ peer ++ "/")) by done.
  rewrite Hold. unfold replace. rewrite replace_go_head, append_nil.
  apply replace_go_absent. rewrite <- Hold.
  apply str_contains_app_l.
  apply (str_contains_suffix _ (peer ++ "/")). by rewrite append_assoc.
Qed.

(** X26.  [parse_cluster_tag] undoes the tagging of a forwarded event: for
    a peer id without ["/"] and an event tag, the tag
    [cluster/event/<peer>/<tag>] is parsed back into the peer id and the event
    tag, provided the marker [cluster/event/] does not occur again in what
    follows it. *)
Theorem parse_cluster_tag_round_trip peer rest :
  str_contains "/" peer = false →
  str_contains "cluster/event/" (peer ++ "/" ++ rest) = false →
  parse_cluster_tag ("cluster/event/" ++ peer ++ "/" ++ rest) = (peer, rest).
Proof. apply parse_cluster_tag_app. Qed.

End Tags.

(** The tag of a job event forwarded by peer1. *)
Lemma parse_cluster_tag_round_trip_witness :
  parse_cluster_tag "cluster/event/peer1/salt/job/1" = ("peer1", "salt/job/1").
Proof.
  exact (parse_cluster_tag_round_trip "peer1" "salt/job/1" eq_refl eq_refl).
Defined.


(** *** From one master to another *)
Section Masters.
Variable A : Publisher.Env.
Variable B : MasterPubServerChannel.Env.

Abbreviation id_A := (Publisher.opts_id A).
Abbreviation secret_A := (Publisher.secret A).
Abbreviation dumps_A := (Publisher.crypticle_dumps A).
Abbreviation event_tag tag := (Publisher.tagify A tag id_A "cluster/event").

#[local] Arguments parse_cluster_tag : simpl never.
#[local] Arguments pyeq : simpl never.
#[local] Arguments str_prefix : simpl never.
#[local] Arguments dict_set : simpl never.

(** What [push_all] creates for an event that is not a key exchange: one
    task per pusher, each with the event encrypted anew under the secret and
    tagged [tagify(tag, id, "cluster/event")]. *)
Lemma push_all_event tag data load hosts :
  str_prefix "cluster/peer" tag = false →
  (∀ n obj, ∃ c, dumps_A secret_A n obj = Ok c) →
  ∀ st, ∃ bodies,
    Publisher.push_all A tag data load hosts st
    = (Next tt,
       {| Publisher.entropy := (Publisher.entropy st + List.length hosts)%nat;
          Publisher.fired := Publisher.fired st;
          Publisher.tasks :=
            (Publisher.tasks st
             ++ zip (map Publisher.Pusher hosts)
                    (map (Publisher.pack A (event_tag tag)) bodies))%list |})
    ∧ List.length bodies = List.length hosts
    ∧ Forall (fun c => ∃ n, dumps_A secret_A n (PDict [("event_payload", data)])
                            = Ok c) bodies.
Proof.
  intros Htag Hdumps. induction hosts as [|host rest IH]; intros st.
  - exists []. cbn. rewrite app_nil_r, Nat.add_0_r. by destruct st.
  - cbn [Publisher.push_all]. rewrite Htag.
    destruct (Hdumps (Publisher.entropy st) (PDict [("event_payload", data)]))
      as [c Hc].
    unfold bind at 1, bind at 1, Publisher.fresh, bind at 1, lift. rewrite Hc.
    unfold modify.
    match goal with |- context [Publisher.push_all A tag data load rest ?s] =>
      destruct (IH s) as (bodies & Hrun & Hlen & Hall) end.
    exists (c :: bodies). rewrite Hrun. cbn.
    split; [|split; [by rewrite Hlen | constructor; eauto]].
    do 2 f_equal; [lia | by rewrite <- app_assoc].
Qed.

(** X27.  An event published on one master reaches the local bus of its
    peers unchanged.  Master [A] publishes an event whose tag is not a
    key-exchange tag: one task publishes it on [A]'s local bus as it is, and
    one task per pusher sends it encrypted under [A]'s secret with the tag
    [cluster/event/<A's id>/<tag>].  When a peer [B] that holds [A]'s secret
    as [A]'s key handles any of those payloads, it publishes on its own bus
    the original tag and the original data, with [__peer_id] set to [A]'s id.
    (Serialization and encryption are assumed to round-trip, [tagify] to join
    with ["/"], and the tag not to hold the marker [cluster/event/].) *)
Theorem event_relay_round_trip load tag ev stA stB :
  Publisher.unpack A load = Ok (tag, PDict ev) →
  str_prefix "cluster/peer" tag = false →
  (∀ n obj, ∃ c, dumps_A secret_A n obj = Ok c
                 ∧ crypticle_loads B secret_A c = Ok obj) →
  (∀ t d, unpack B (Publisher.pack A t d) = Ok (t, d)) →
  event_tag tag = "cluster/event/" ++ id_A ++ "/" ++ tag →
  str_contains "/" id_A = false →
  str_contains "cluster/event/" (id_A ++ "/" ++ tag) = false →
  peer_keys stB !! id_A = Some secret_A →
  (∀ t d, transport_publish_payload B t d = Ok tt) →
  ∃ payloads,
    Publisher.publish_payload A load stA
    = (Ok PNone,
       {| Publisher.entropy :=
            (Publisher.entropy stA + List.length (Publisher.pushers A))%nat;
          Publisher.fired := Publisher.fired stA;
          Publisher.tasks :=
            (Publisher.tasks stA
             ++ (Publisher.Local, load)
                :: zip (map Publisher.Pusher (Publisher.pushers A)) payloads)%list |})
    ∧ List.length payloads = List.length (Publisher.pushers A)
    ∧ Forall (fun payload =>
                snd (handle_pool_publish B payload stB)
                = add_published tag (PDict (dict_set "__peer_id" (PStr id_A) ev)) stB)
             payloads.
Proof.
  intros Hun Htag Hcrypt Hpack Htagify Hid Hmark Hkey Htransport.
  destruct (push_all_event tag (PDict ev) load (Publisher.pushers A) Htag
              (fun n obj => let '(ex_intro _ c (conj H _)) := Hcrypt n obj in
                            ex_intro _ c H)
              (Publisher.add_task Publisher.Local load stA))
    as (bodies & Hrun & Hlen & Hall).
  exists (map (Publisher.pack A (event_tag tag)) bodies).
  split; [|split].
  - unfold Publisher.publish_payload, method, Publisher.publish_payload_body.
    run_body. rewrite Hun. cbn. rewrite Htag. cbn. rewrite Hrun. cbn.
    by rewrite <- app_assoc.
  - by rewrite length_map.
  - apply Forall_map. eapply Forall_impl; [exact Hall|].
    intros c [n Hc]. cbn.
    destruct (Hcrypt n (PDict [("event_payload", PDict ev)])) as (c' & Hc' & Hloads).
    rewrite Hc in Hc'. injection Hc' as <-.
    eapply (event_published B _ (event_tag tag) c id_A tag secret_A); try done.
    + rewrite Htagify. rewrite !append_cons. done.
    + rewrite Htagify. rewrite !append_cons. done.
    + rewrite Htagify. by apply parse_cluster_tag_app.
Qed.

Abbreviation fetch_A := (Publisher.master_key_fetch A).
Abbreviation key_tag := (Publisher.tagify A id_A "peer" "cluster").

Abbreviation key_entry_for := (Publisher.key_entry_for A).

Lemma peer_entries_run digest sg todo :
  Publisher.sha256_hexdigest A secret_A = Ok digest →
  Publisher.master_key_encrypt A digest = Ok sg →
  (∀ peer n, truthy (fetch_A peer) = true →
             ∃ w, Publisher.pub_encrypt A (fetch_A peer) n secret_A = Ok w) →
  ∀ peers st, ∃ peers' n',
    Publisher.peer_entries A todo peers st
    = (Next peers',
       {| Publisher.entropy := n'; Publisher.fired := Publisher.fired st;
          Publisher.tasks := Publisher.tasks st |})
    ∧ (∀ p, p ∈ todo → truthy (fetch_A p) = true →
            ∃ entry, dict_get p peers' = Some entry ∧ key_entry_for p sg entry)
    ∧ (∀ p, p ∉ todo → dict_get p peers' = dict_get p peers).
Proof.
  intros Hdig Hsig Henc. induction todo as [|peer rest IH]; intros peers st.
  - exists peers, (Publisher.entropy st). split; [by destruct st|].
    split; [intros p Hp; by apply elem_of_nil in Hp | done].
  - cbn [Publisher.peer_entries].
    assert (Hentry : ∃ entry n1,
              (if truthy (fetch_A peer)
               then
                 digest ← lift (Publisher.sha256_hexdigest A secret_A);
                 n ← Publisher.fresh;
                 wrapped ← lift (Publisher.pub_encrypt A (fetch_A peer) n secret_A);
                 sig ← lift (Publisher.master_key_encrypt A digest);
                 next (PDict [("aes", wrapped); ("sig", sig)])
               else next (PDict [])) st
              = (Next (R:=PyVal) entry,
                 {| Publisher.entropy := n1; Publisher.fired := Publisher.fired st;
                    Publisher.tasks := Publisher.tasks st |})
              ∧ (truthy (fetch_A peer) = true → key_entry_for peer sg entry)).
    { destruct (truthy (fetch_A peer)) eqn:Ht.
      - destruct (Henc peer (Publisher.entropy st) Ht) as [w Hw].
        exists (PDict [("aes", w); ("sig", sg)]), (S (Publisher.entropy st)).
        split; [|intros _; by exists (Publisher.entropy st), w].
        unfold Publisher.fresh. run_body. rewrite Hdig. cbn. rewrite Hw. cbn.
        by rewrite Hsig.
      - exists (PDict []), (Publisher.entropy st). split; [by destruct st | done]. }
    destruct Hentry as (entry & n1 & Hrun & Hgood).
    unfold bind at 1. cbv zeta. rewrite Hrun.
    destruct (IH (dict_set peer entry peers)
                 {| Publisher.entropy := n1; Publisher.fired := Publisher.fired st;
                    Publisher.tasks := Publisher.tasks st |})
      as (peers' & n' & Hrest & Hin & Hout).
    exists peers', n'. split; [exact Hrest|]. split.
    + intros p Hp Ht. destruct (decide (p ∈ rest)) as [Hr|Hr]; [by apply Hin|].
      apply elem_of_cons in Hp as [->|Hp]; [|done].
      exists entry. rewrite (Hout _ Hr), dict_get_set_eq. split; [done | by apply Hgood].
    + intros p Hp. apply not_elem_of_cons in Hp as [Hne Hp].
      rewrite (Hout _ Hp). apply dict_get_set_ne. by apply String.eqb_neq.
Qed.

Lemma push_all_exchange tag data load hosts :
  str_prefix "cluster/peer" tag = true →
  ∀ st,
    Publisher.push_all A tag data load hosts st
    = (Next tt,
       {| Publisher.entropy := Publisher.entropy st;
          Publisher.fired := Publisher.fired st;
          Publisher.tasks :=
            (Publisher.tasks st
             ++ map (fun host => (Publisher.Pusher host, load)) hosts)%list |}).
Proof.
  intros Htag. induction hosts as [|host rest IH]; intros st.
  - cbn. rewrite app_nil_r. by destruct st.
  - cbn [Publisher.push_all]. rewrite Htag. unfold bind at 1, modify.
    rewrite IH. cbn. by rewrite <- app_assoc.
Qed.

(** X28.  The key exchange from end to end.  Master [A], which holds the
    key of its peer [B], sends its key event: the event names [A] and carries,
    for every configured peer with a key on file, [A]'s secret encrypted to
    that peer and the encrypted digest of the secret.  [A]'s publisher pushes
    the event as it is to every peer and does not publish it locally.  When
    [B] handles it, the exchange verifies, and if [B] had no key for [A] it
    now holds [A]'s secret as [A]'s key.  (Serialization and the two
    encryptions are assumed to round-trip, and [tagify] to give a
    [cluster/peer] tag.) *)
Theorem key_exchange_round_trip digest sg stA stB :
  opts_id B ∈ Publisher.cluster_peers A →
  truthy (fetch_A (opts_id B)) = true →
  Publisher.sha256_hexdigest A secret_A = Ok digest →
  Publisher.master_key_encrypt A digest = Ok sg →
  (∀ peer n, truthy (fetch_A peer) = true →
             ∃ w, Publisher.pub_encrypt A (fetch_A peer) n secret_A = Ok w) →
  (∀ data, Publisher.fire_event A data key_tag = Ok true) →
  str_prefix "cluster/peer" key_tag = true →
  (∀ t d, Publisher.unpack A (Publisher.pack A t d) = Ok (t, d)) →
  (∀ t d, unpack B (Publisher.pack A t d) = Ok (t, d)) →
  (∀ n w, Publisher.pub_encrypt A (fetch_A (opts_id B)) n secret_A = Ok w →
          master_key_decrypt B w = Ok secret_A) →
  sha256_hexdigest B secret_A = Ok digest →
  master_key_fetch B id_A ≠ PNone →
  key_decrypt B (master_key_fetch B id_A) sg = Ok digest →
  pyeq digest digest = true →
  ∃ data n,
    let load := Publisher.pack A key_tag data in
    let stA1 := {| Publisher.entropy := n;
                   Publisher.fired := (Publisher.fired stA ++ [(key_tag, data)])%list;
                   Publisher.tasks := Publisher.tasks stA |} in
    Publisher.send_aes_key_event A stA = (Ok PNone, stA1)
    ∧ Publisher.publish_payload A load stA1
      = (Ok PNone,
         {| Publisher.entropy := n;
            Publisher.fired := Publisher.fired stA1;
            Publisher.tasks :=
              (Publisher.tasks stA
               ++ map (fun host => (Publisher.Pusher host, load))
                      (Publisher.pushers A))%list |})
    ∧ verified_exchange B load id_A secret_A
    ∧ (peer_keys stB !! id_A = None → send_aes_key_event B = Ok tt →
       peer_keys (snd (handle_pool_publish B load stB)) !! id_A = Some secret_A).
Proof.
  intros Hpeer Hkey Hdig Hsig Henc Hfire Htag HpackA HpackB Hdec HdigB Hfetch Hkd Heq.
  destruct (peer_entries_run digest sg (Publisher.cluster_peers A) Hdig Hsig Henc [] stA)
    as (peers & n & Hrun & Hin & _).
  destruct (Hin _ Hpeer Hkey) as (entry & Hentry & n0 & w & Hw & ->).
  set (data := PDict [("peer_id", PStr id_A); ("peers", PDict peers)]).
  exists data, n. cbv zeta.
  assert (Hver : verified_exchange B (Publisher.pack A key_tag data) id_A secret_A).
  { exists key_tag, data, (PDict peers), (PDict [("aes", w); ("sig", sg)]),
      w, sg, digest, digest.
    rewrite HpackB. subst data. cbn. rewrite Hentry.
    repeat split; try done. by eapply Hdec. }
  split; [|split; [|split]].
  - unfold Publisher.send_aes_key_event, method, Publisher.send_aes_key_event_body.
    unfold bind at 1. rewrite Hrun. run_body. fold data. by rewrite Hfire.
  - unfold Publisher.publish_payload, method, Publisher.publish_payload_body.
    run_body. rewrite HpackA. cbn. rewrite Htag. cbn.
    by rewrite (push_all_exchange _ _ _ _ Htag).
  - exact Hver.
  - intros Hnone Hsend.
    destruct (verified_new_key B _ id_A secret_A stB Hver (or_introl Hnone) Hsend)
      as [-> _].
    apply lookup_insert_eq.
Qed.

End Masters.

(** peer1 publishes a job event; master1, which holds peer1's key, handles
    what peer1 pushes to it. *)
Lemma event_relay_round_trip_witness :
  let A := ClusterScenario.sender in
  let B := ClusterScenario.env in
  let load := PList [PStr "salt/job/1"; PDict [("jid", PInt 1)]] in
  let stB := set_peer_key "peer1" (PBytes "k1") ClusterScenario.init in
  ∃ payloads,
    Publisher.publish_payload A load ClusterScenario.sender_init
    = (Ok PNone,
       {| Publisher.entropy := 1;
          Publisher.fired := [];
          Publisher.tasks :=
            (Publisher.Local, load)
            :: zip [Publisher.Pusher "master1.example"] payloads |})
    ∧ List.length payloads = 1%nat
    ∧ Forall (fun payload =>
                snd (handle_pool_publish B payload stB)
                = add_published "salt/job/1"
                    (PDict [("jid", PInt 1); ("__peer_id", PStr "peer1")]) stB)
             payloads.
Proof.
  intros A B load stB.
  apply (event_relay_round_trip A B load "salt/job/1" [("jid", PInt 1)]
           ClusterScenario.sender_init stB); try reflexivity.
  intros n obj. eexists. split; reflexivity.
Defined.

(** peer1 sends its key event; its publisher pushes it to master1, which
    had no key for peer1. *)
Lemma key_exchange_round_trip_witness :
  let A := ClusterScenario.sender in
  let B := ClusterScenario.env in
  ∃ data n,
    let load := Publisher.pack A "cluster/peer/peer1" data in
    let stA1 := {| Publisher.entropy := n;
                   Publisher.fired := [("cluster/peer/peer1", data)];
                   Publisher.tasks := [] |} in
    Publisher.send_aes_key_event A ClusterScenario.sender_init = (Ok PNone, stA1)
    ∧ Publisher.publish_payload A load stA1
      = (Ok PNone,
         {| Publisher.entropy := n;
            Publisher.fired := Publisher.fired stA1;
            Publisher.tasks := [(Publisher.Pusher "master1.example", load)] |})
    ∧ verified_exchange B load "peer1" (PBytes "k1")
    ∧ (peer_keys ClusterScenario.init !! "peer1" = None →
       send_aes_key_event B = Ok tt →
       peer_keys (snd (handle_pool_publish B load ClusterScenario.init)) !! "peer1"
       = Some (PBytes "k1")).
Proof.
  intros A B.
  apply (key_exchange_round_trip A B (PList [PStr "sha256"; PBytes "k1"])
           (PList [PStr "priv"; PStr "peer1.pub"; PList [PStr "sha256"; PBytes "k1"]])
           ClusterScenario.sender_init ClusterScenario.init);
    try reflexivity.
  - set_solver.
  - intros peer n _. eexists. reflexivity.
  - intros n w [= <-]. reflexivity.
  - discriminate.
Defined.


End ClusterRelayFacts.

(** ** The publish server: pickling and publishing *)
Module PublishServerFacts.
Import PubServerChannel ReqServerChannelFacts.

(** *** An instance through [__getstate__] and [__setstate__] *)
Section Pickle.
Import Pickling.
Variable get_event : PyVal → PyVal.
Variable CkMinions : PyVal → PyVal.
Variable AESFuncs : PyVal → PyVal.
Variable MasterKeys : PyVal → PyVal.

Abbreviation __init__ := (Pickling.__init__ get_event CkMinions AESFuncs).
Abbreviation __setstate__ := (Pickling.__setstate__ get_event CkMinions MasterKeys).

Lemma getstate_run self o t pe :
  attrs self !! "opts" = Some o →
  attrs self !! "transport" = Some t →
  attrs self !! "presence_events" = Some pe →
  __getstate__ self
  = (Ok (PDict [("opts", o); ("transport", t); ("presence_events", pe)]), self).
Proof.
  intros Ho Ht Hp. unfold __getstate__, getattr. run_body.
  by rewrite Ho, Ht, Hp.
Qed.

(** X29.  Saving an instance with [__getstate__] and restoring it with
    [__setstate__] brings back [opts] and [transport], but not the presence
    flag: the restored instance has no attribute [presence_events] (the flag
    is stored under the name [state] instead) and no attribute [aes_funcs].
    [close] on the restored instance therefore raises [AttributeError], after
    it has closed the transport and destroyed the event; on an instance built
    by [__init__] the same call returns [None]. *)
Theorem pickle_round_trip_drops_presence_flag self o t pe :
  attrs self !! "opts" = Some o →
  attrs self !! "transport" = Some t →
  attrs self !! "presence_events" = Some pe →
  is_none (get_event o) = false →
  ∃ state self',
    __getstate__ self = (Ok state, self)
    ∧ __setstate__ state blank = (Ok PNone, self')
    ∧ attrs self' !! "opts" = Some o
    ∧ attrs self' !! "transport" = Some t
    ∧ attrs self' !! "state" = Some pe
    ∧ attrs self' !! "presence_events" = None
    ∧ attrs self' !! "aes_funcs" = None
    ∧ fst (close self') = Raise AttributeError
    ∧ calls (snd (close self')) = ["transport.close"; "event.destroy"]
    ∧ (∀ b, is_none (AESFuncs o) = false →
            fst (close (snd (__init__ o t b blank))) = Ok PNone).
Proof.
  intros Ho Ht Hp Hev.
  eexists _, _. split; [by apply getstate_run|].
  split; [reflexivity|].
  repeat split; try reflexivity.
  - destruct (get_event o); try discriminate Hev; reflexivity.
  - destruct (get_event o); try discriminate Hev; reflexivity.
  - intros b Haf. vm_compute. unfold is_none in Hev, Haf.
    destruct (get_event o); try discriminate Hev;
      destruct (AESFuncs o); try discriminate Haf; reflexivity.
Qed.

End Pickle.

(** A restored publish server, built from concrete collaborators. *)
Lemma pickle_round_trip_drops_presence_flag_witness :
  let mk := fun tag opts => PList [PStr tag; opts] in
  let o := PDict [("id", PStr "master1")] in
  let t := PStr "tcp-transport" in
  let self := snd (Pickling.__init__ (mk "event") (mk "ckminions") (mk "aes_funcs")
                     o t true Pickling.blank) in
  ∃ state self',
    Pickling.__getstate__ self = (Ok state, self)
    ∧ Pickling.__setstate__ (mk "event") (mk "ckminions") (mk "master_key")
        state Pickling.blank = (Ok PNone, self')
    ∧ Pickling.attrs self' !! "opts" = Some o
    ∧ Pickling.attrs self' !! "transport" = Some t
    ∧ Pickling.attrs self' !! "state" = Some (PBool true)
    ∧ Pickling.attrs self' !! "presence_events" = None
    ∧ Pickling.attrs self' !! "aes_funcs" = None
    ∧ fst (Pickling.close self') = Raise AttributeError
    ∧ Pickling.calls (snd (Pickling.close self'))
      = ["transport.close"; "event.destroy"]
    ∧ (∀ b, is_none (mk "aes_funcs" o) = false →
            fst (Pickling.close
                   (snd (Pickling.__init__ (mk "event") (mk "ckminions")
                           (mk "aes_funcs") o t b Pickling.blank)))
            = Ok PNone).
Proof.
  intros mk o t self.
  apply (pickle_round_trip_drops_presence_flag (mk "event") (mk "ckminions")
           (mk "aes_funcs") (mk "master_key") self o t (PBool true));
    reflexivity.
Defined.

(** *** What [publish_payload] hands to the transport *)
Section Publish.
Import Publishing.
Variable E : Env.

#[local] Arguments list_contains : simpl never.
#[local] Arguments pyeq : simpl never.

Abbreviation algo := (publish_signing_algorithm E).

Abbreviation stamped := (Publishing.stamped E).
Abbreviation wrapped := (Publishing.wrapped E).

Lemma wrap_payload_run l c s st :
  crypticle_dumps E (aes_key E) (entropy st) (PDict (stamped l st)) = Ok c →
  (sign_pub_messages E = true → master_key_sign E c algo = Ok s) →
  let sig := if sign_pub_messages E then Some s else None in
  let base := [("payload", payload_dumps E (envelope E c sig))] in
  (topic_support E = false
   ∨ (∃ tt, dict_get "tgt_type" l = Some tt
            ∧ list_contains tt match_targets = false) →
   wrap_payload E (PDict l) st = (Ok (PDict base), wrapped st))
  ∧ (∀ tt tgt topics,
       topic_support E = true →
       dict_get "tgt_type" l = Some tt → list_contains tt match_targets = true →
       dict_get "tgt" l = Some tgt →
       (if is_str tgt
        then ∃ res, check_minions E tgt tt = Ok res
                    ∧ subscript res "minions" = Ok topics
        else topics = tgt) →
       wrap_payload E (PDict l) st
       = (Ok (PDict (base ++ [("topic_lst", topics)])%list), wrapped st)).
Proof.
  unfold Publishing.stamped, Publishing.wrapped. cbv zeta.
  intros Hc Hs.
  assert (Hget : ∀ k, String.eqb k "serial" = false →
                      dict_get k (stamped l st) = dict_get k l).
  { intros k Hk. unfold Publishing.stamped.
    destruct (cluster_id E); [done|]. by apply dict_get_set_ne. }
  unfold Publishing.stamped in Hget.
  split.
  - intros Hno.
    unfold wrap_payload, wrap_payload_body, next_serial, fresh, envelope.
    run_body. destruct (cluster_id E) eqn:Hcl; cbn; rewrite Hc; cbn.
    all: destruct (sign_pub_messages E) eqn:Hsg; cbn;
      [rewrite (Hs eq_refl); cbn|].
    all: destruct Hno as [Hts|(tt & Htt & Hin)];
      [rewrite Hts; reflexivity|].
    all: destruct (topic_support E); [|reflexivity]; cbn.
    all: pose proof (Hget "tgt_type" eq_refl) as Hg;
      rewrite ?Hg, Htt; cbn; rewrite Hin; reflexivity.
  - intros tt tgt topics Hts Htt Hin Htgt Htop.
    unfold wrap_payload, wrap_payload_body, next_serial, fresh, envelope.
    run_body. rewrite Hts.
    destruct (cluster_id E) eqn:Hcl; cbn; rewrite Hc; cbn.
    all: pose proof (Hget "tgt_type" eq_refl) as Hg.
    all: pose proof (Hget "tgt" eq_refl) as Hg'.
    all: destruct (sign_pub_messages E) eqn:Hsg; cbn;
      [rewrite (Hs eq_refl); cbn|].
    all: rewrite ?Hg, Htt; cbn; rewrite Hin; cbn; rewrite ?Hg, ?Htt; cbn.
    all: destruct (pyeq tt (PStr "list")); cbn; rewrite ?Hg', ?Htgt; cbn.
    all: destruct (is_str tgt) eqn:Hstr; cbn;
      [destruct Htop as (res & -> & Hm); cbn; rewrite Hm; reflexivity
      |subst topics; reflexivity].
Qed.

(** X30.  What reaches the transport.  For a load that deserializes to a
    mapping and encrypts, [publish_payload] hands the transport the
    serialized envelope [{"enc": "aes", "load": ciphertext}], where the
    ciphertext is that of the load with a serial added (no serial on a
    clustered master); when messages are signed the envelope also carries
    [sig_algo] and the signature of the ciphertext.  It returns what the
    transport returns.  No topic list goes with it when the transport has
    no topics or the target type is none of pcre, glob and list; otherwise
    the topic list is the minions [check_minions] matches for a target that
    is a string (for every one of the three target types), and the target
    itself when it is not a string.  (Serialization is assumed to
    round-trip.) *)
Theorem publish_payload_envelope bytes l c s st :
  payload_loads E bytes = Ok (PDict l) →
  (∀ v, payload_loads E (payload_dumps E v) = Ok v) →
  crypticle_dumps E (aes_key E) (entropy st) (PDict (stamped l st)) = Ok c →
  (sign_pub_messages E = true → master_key_sign E c algo = Ok s) →
  let wire := payload_dumps E (envelope E c (if sign_pub_messages E
                                             then Some s else None)) in
  (∀ ret,
     topic_support E = false
     ∨ (∃ tt, dict_get "tgt_type" l = Some tt
              ∧ list_contains tt match_targets = false) →
     transport_publish_payload E wire None = Ok ret →
     publish_payload E bytes st = (Ok ret, add_sent wire None (wrapped st)))
  ∧ (∀ ret tt tgt topics,
       topic_support E = true →
       dict_get "tgt_type" l = Some tt → list_contains tt match_targets = true →
       dict_get "tgt" l = Some tgt →
       (if is_str tgt
        then ∃ res, check_minions E tgt tt = Ok res
                    ∧ subscript res "minions" = Ok topics
        else topics = tgt) →
       transport_publish_payload E wire (Some topics) = Ok ret →
       publish_payload E bytes st
       = (Ok ret, add_sent wire (Some topics) (wrapped st))).
Proof.
  intros Hload Hrt Hc Hs wire.
  destruct (wrap_payload_run l c s st Hc Hs) as [Hplain Htopics].
  split.
  - intros ret Hno Hret.
    unfold publish_payload, publish_payload_body. run_body.
    rewrite Hload. cbn. rewrite (Hplain Hno). cbn.
    rewrite Hrt. cbn. fold wire. rewrite Hret. reflexivity.
  - intros ret tt tgt topics Hts Htt Hin Htgt Htop Hret.
    unfold publish_payload, publish_payload_body. run_body.
    rewrite Hload. cbn. rewrite (Htopics tt tgt topics Hts Htt Hin Htgt Htop). cbn.
    rewrite Hrt. cbn. fold wire. rewrite Hret. reflexivity.
Qed.

End Publish.

(** A job for [web*] on a signing master whose transport has topics: the
    envelope goes out signed, with the matching minions as topics. *)
Lemma publish_payload_envelope_witness :
  let load := PDict (PublishScenario.job ++ [("serial", PInt 1)])%list in
  let c := PList [PStr "aes"; PBytes "s0"; load] in
  let wire :=
    PList [PStr "msgpack";
           PDict [("enc", PStr "aes"); ("load", c);
                  ("sig_algo", PStr "PKCS1v15-SHA224");
                  ("sig", PList [PStr "sig"; c])]] in
  let topics := PList [PStr "web1"; PStr "web2"] in
  Publishing.publish_payload PublishScenario.env
    (PList [PStr "msgpack"; PDict PublishScenario.job]) PublishScenario.init
  = (Ok PNone,
     {| Publishing.serials := 1; Publishing.entropy := 1;
        Publishing.sent := [(wire, Some topics)] |}).
Proof.
  intros load c wire topics.
  destruct (publish_payload_envelope PublishScenario.env
              (PList [PStr "msgpack"; PDict PublishScenario.job])
              PublishScenario.job c (PList [PStr "sig"; c]) PublishScenario.init)
    as [_ H]; [reflexivity | reflexivity | reflexivity | reflexivity |].
  apply (H PNone (PStr "glob") (PStr "web*") topics); try reflexivity.
  eexists. split; reflexivity.
Defined.



End PublishServerFacts.
